(** * Wesleyan Birder API: identification client and REST handlers

    A shallow embedding of [app/bird_identifier.py], [app/schemas.py],
    [app/models.py] and the handlers of [app/main.py], with the properties
    the specification states about them.

    Python text is a list of Unicode code points; the relational store is a
    pair of tables (lists of rows in insertion order) with explicit key
    sequences; handlers are state-passing functions returning the new store
    and the HTTP outcome. What the code relies on of the interpreter and of
    the libraries, and the sources do not fix, is a parameter ([Runtime.t]):
    the two limits [json.loads] can meet, and what a bound check makes of a
    NaN. *)

From Stdlib Require Import List ZArith NArith Bool Lia String Ascii Floats.
Import ListNotations.

Set Implicit Arguments.
Set Warnings "-register-all".

(* ================================================================== *)
(** * Python [str] *)
(* ================================================================== *)

Module PyStr.

(** A [str] is a sequence of code points. *)
Definition t := list N.

(** A literal: each character of the Rocq string is one code point. *)
Definition lit (s : string) : t :=
  List.map N_of_ascii (list_ascii_of_string s).

(** The double quote, U+0022. *)
Definition dquote : t := [34%N].

(** A text between double quotes, as it appears in a JSON document. *)
Definition quoted (s : string) : t := dquote ++ lit s ++ dquote.

Arguments lit s%_string.
Arguments quoted s%_string.

Definition eqb (a b : t) : bool :=
  if list_eq_dec N.eq_dec a b then true else false.

(** [str.isspace] on one character: the code points CPython's
    [_PyUnicode_IsWhitespace] accepts. *)
Definition isspace (c : N) : bool :=
  ((9 <=? c) && (c <=? 13) || (28 <=? c) && (c <=? 32)
   || (c =? 133) || (c =? 160) || (c =? 5760)
   || (8192 <=? c) && (c <=? 8202)
   || (c =? 8232) || (c =? 8233) || (c =? 8239) || (c =? 8287)
   || (c =? 12288))%N.

(** [s.lstrip()] *)
Fixpoint lstrip (s : t) : t :=
  match s with
  | [] => []
  | c :: r => if isspace c then lstrip r else s
  end.

(** [s.rstrip()] *)
Definition rstrip (s : t) : t := rev (lstrip (rev s)).

(** [s.strip()] *)
Definition strip (s : t) : t := rstrip (lstrip s).

(** [s.startswith(p)] *)
Fixpoint startswith (s p : t) {struct p} : bool :=
  match p, s with
  | [], _ => true
  | _ :: _, [] => false
  | a :: p', b :: s' => (a =? b)%N && startswith s' p'
  end.

(** [s.endswith(p)] *)
Definition endswith (s p : t) : bool := startswith (rev s) (rev p).

(** [s[n:]] for a non-negative literal [n]. *)
Definition slice_from (n : nat) (s : t) : t := skipn n s.

(** [s[:-n]] for a positive literal [n]: everything but the last [n]
    characters, and the empty string when there are fewer than [n]. *)
Definition slice_to_minus (n : nat) (s : t) : t :=
  firstn (List.length s - n) s.

(** [sep.join(items)] *)
Fixpoint join (sep : t) (items : list t) : t :=
  match items with
  | [] => []
  | [x] => x
  | x :: rest => x ++ sep ++ join sep rest
  end.

(** A text made of whitespace only (possibly empty). *)
Definition blank (ws : t) : Prop := Forall (fun c => isspace c = true) ws.

End PyStr.

Abbreviation pystr := PyStr.t.

(* ================================================================== *)
(** * Values produced by [json.loads] *)
(* ================================================================== *)

(** The Python objects [json.loads] builds. A [float] is kept as the
    literal the decoder hands to [float()] (this also covers [NaN],
    [Infinity] and [-Infinity]); a [dict] keeps its insertion order. *)
Inductive json : Type :=
| JNull
| JBool (b : bool)
| JInt (z : Z)
| JFloat (literal : pystr)
| JStr (s : pystr)
| JList (items : list json)
| JDict (items : list (pystr * json)).

Module Dict.

(** [d[k]], when present. *)
Fixpoint get (k : pystr) (d : list (pystr * json)) : option json :=
  match d with
  | [] => None
  | (k', v) :: r => if PyStr.eqb k k' then Some v else get k r
  end.

(** [d[k] = v]: overwrite in place, or append a new key. *)
Fixpoint set (k : pystr) (v : json) (d : list (pystr * json))
  : list (pystr * json) :=
  match d with
  | [] => [(k, v)]
  | (k', v') :: r =>
      if PyStr.eqb k k' then (k', v) :: r else (k', v') :: set k v r
  end.

(** [dict(pairs)] *)
Definition of_pairs (pairs : list (pystr * json)) : list (pystr * json) :=
  fold_left (fun d kv => set (fst kv) (snd kv) d) pairs [].

End Dict.

(* ================================================================== *)
(** * Exceptions and outcomes *)
(* ================================================================== *)

(** The exceptions the modelled code can meet. [APIError] stands for
    whatever the model client raises on a transport or authentication
    failure. [JSONDecodeError] is a subclass of [ValueError] in Python; here
    [ValueError] stands for a [ValueError] that is not a [JSONDecodeError],
    which is what an [except json.JSONDecodeError] clause lets through. *)
Inductive exn : Type :=
| HTTPException (status_code : Z) (detail : pystr)
| RequestValidationError
| ValidationError
| AttributeError
| IntegrityError
| APIError
| JSONDecodeError
| RecursionError
| ValueError.

Inductive outcome (A : Type) : Type :=
| Return (a : A)
| Raise (e : exn).
Arguments Raise {A}.

(** The status code the framework answers with: the code of an
    [HTTPException], 422 for a validation error it could render, and 500
    for every exception no handler is registered for. *)
Definition status_of {A} (o : outcome A) : Z :=
  match o with
  | Return _ => 200
  | Raise (HTTPException c _) => c
  | Raise RequestValidationError => 422
  | Raise _ => 500
  end.

(* ================================================================== *)
(** * The interpreter and the libraries *)
(* ================================================================== *)

(** What the code depends on and the sources do not fix.

    [recursion_headroom]: how many nested calls the interpreter still
    allows when [json.loads] starts to scan ([sys.getrecursionlimit()] less
    the frames in use); the scanner makes one such call for each array or
    object it enters.

    [int_max_str_digits]: [sys.get_int_max_str_digits()], the longest
    decimal literal [int()] converts, 4300 unless configured otherwise;
    0 means no limit.

    [nan_within_bounds]: whether the schema library lets a NaN pass a
    [ge]/[le] bound. A NaN compares neither below nor above a bound, so a
    check written as a test for a violation lets it pass and a check
    written as a test for compliance refuses it. *)
Module Runtime.
Record t := mk {
  recursion_headroom : nat;
  int_max_str_digits : nat;
  nan_within_bounds : bool }.
End Runtime.

(* ================================================================== *)
(** * [json.loads] *)
(* ================================================================== *)

(** A model of CPython's [json.loads] on a [str] with default arguments
    (the scanner of [Modules/_json.c]; [json/decoder.py] and
    [json/scanner.py] describe the same grammar), with the two limits of
    the interpreter it can meet: the scanner enters each array and object
    through [Py_EnterRecursiveCall], which raises [RecursionError] when the
    headroom is used up, and it converts an integer literal with [int()],
    which raises [ValueError] on more digits than the configured limit. *)
Module Json.

(** Outcome of scanning a prefix of the input: a value and the rest of
    the text, a decoding error ([Fail]), or an exception that is not a
    decoding error ([Abort]). *)
Inductive scan (A : Type) : Type :=
| Ok (a : A) (rest : pystr)
| Fail
| Abort (e : exn)
| OutOfFuel.
Arguments Fail {A}.
Arguments Abort {A}.
Arguments OutOfFuel {A}.

(** [WHITESPACE]: space, tab, line feed and carriage return. *)
Definition is_ws (c : N) : bool :=
  ((c =? 32) || (c =? 9) || (c =? 10) || (c =? 13))%N.

Fixpoint skip_ws (s : pystr) : pystr :=
  match s with
  | [] => []
  | c :: r => if is_ws c then skip_ws r else s
  end.

Definition is_digit (c : N) : bool := ((48 <=? c) && (c <=? 57))%N.

Definition hex_value (c : N) : option N :=
  (if (48 <=? c) && (c <=? 57) then Some (c - 48)
   else if (97 <=? c) && (c <=? 102) then Some (c - 87)
   else if (65 <=? c) && (c <=? 70) then Some (c - 55)
   else None)%N.

(** Four hexadecimal digits of a [\uXXXX] escape. *)
Definition hex4 (a b c d : N) : option N :=
  match hex_value a, hex_value b, hex_value c, hex_value d with
  | Some x, Some y, Some z, Some w => Some (((x * 16 + y) * 16 + z) * 16 + w)%N
  | _, _, _, _ => None
  end.

Definition is_high_surrogate (c : N) : bool := ((55296 <=? c) && (c <=? 56319))%N.
Definition is_low_surrogate (c : N) : bool := ((56320 <=? c) && (c <=? 57343))%N.
Definition join_surrogates (hi lo : N) : N :=
  (65536 + ((hi - 55296) * 1024 + (lo - 56320)))%N.

(** The one-character escapes. *)
Definition backslash (c : N) : option N :=
  (if c =? 34 then Some 34        (* quote *)
   else if c =? 92 then Some 92   (* backslash *)
   else if c =? 47 then Some 47   (* slash *)
   else if c =? 98 then Some 8    (* b: backspace *)
   else if c =? 102 then Some 12  (* f: form feed *)
   else if c =? 110 then Some 10  (* n: line feed *)
   else if c =? 114 then Some 13  (* r: carriage return *)
   else if c =? 116 then Some 9   (* t: tab *)
   else None)%N.

(** [scanstring], strict mode, entered just after the opening quote;
    [acc] holds the decoded characters in reverse. *)
Fixpoint scanstring (s : pystr) (acc : pystr) : scan pystr :=
  match s with
  | [] => Fail
  | c :: r =>
      if (c =? 34)%N then Ok (rev acc) r
      else if (c =? 92)%N then
        match r with
        | [] => Fail
        | e :: r1 =>
            if (e =? 117)%N then
              match r1 with
              | h1 :: h2 :: h3 :: h4 :: r2 =>
                  match hex4 h1 h2 h3 h4 with
                  | None => Fail
                  | Some uni =>
                      match r2 with
                      | b :: u :: g1 :: g2 :: g3 :: g4 :: ((_ :: _) as r3) =>
                          if is_high_surrogate uni && (b =? 92)%N && (u =? 117)%N
                          then
                            match hex4 g1 g2 g3 g4 with
                            | None => Fail
                            | Some uni2 =>
                                if is_low_surrogate uni2
                                then scanstring r3 (join_surrogates uni uni2 :: acc)
                                else scanstring r2 (uni :: acc)
                            end
                          else scanstring r2 (uni :: acc)
                      | _ => scanstring r2 (uni :: acc)
                      end
                  end
              | _ => Fail
              end
            else
              match backslash e with
              | Some ch => scanstring r1 (ch :: acc)
              | None => Fail
              end
        end
      else if (c <? 32)%N then Fail
      else scanstring r (c :: acc)
  end.

(** The longest run of decimal digits at the head of [s]. *)
Fixpoint span_digits (s : pystr) : pystr * pystr :=
  match s with
  | c :: r =>
      if is_digit c then let (ds, r') := span_digits r in (c :: ds, r')
      else ([], s)
  | [] => ([], [])
  end.

(** [int(digits)] for a run of decimal digits. *)
Definition int_of_digits (ds : pystr) : Z :=
  fold_left (fun acc c => (acc * 10 + Z.of_N (c - 48))%Z) ds 0%Z.

(** The integer part of [NUMBER_RE]: an optional minus sign, then a
    single zero or a run of digits that does not start with zero. *)
Definition scan_integer (s : pystr) : option (pystr * pystr) :=
  let (sign, s1) :=
    match s with
    | c :: r => if (c =? 45)%N then ([45%N], r) else ([], s)
    | [] => ([], s)
    end in
  match s1 with
  | c :: r =>
      if (c =? 48)%N then Some (sign ++ [c], r)
      else if is_digit c then
        let (ds, r') := span_digits r in Some (sign ++ c :: ds, r')
      else None
  | [] => None
  end.

(** The optional fraction: a dot and at least one digit. *)
Definition scan_frac (s : pystr) : pystr * pystr :=
  match s with
  | c :: r =>
      if (c =? 46)%N then
        match span_digits r with
        | ([], _) => ([], s)
        | (ds, r') => (c :: ds, r')
        end
      else ([], s)
  | [] => ([], s)
  end.

(** The optional exponent: e or E, an optional sign, at least one digit. *)
Definition scan_exp (s : pystr) : pystr * pystr :=
  match s with
  | c :: r =>
      if ((c =? 101) || (c =? 69))%N then
        let (sign, r1) :=
          match r with
          | d :: r' => if ((d =? 45) || (d =? 43))%N then ([d], r') else ([], r)
          | [] => ([], r)
          end in
        match span_digits r1 with
        | ([], _) => ([], s)
        | (ds, r') => (c :: sign ++ ds, r')
        end
      else ([], s)
  | [] => ([], s)
  end.

(** [int()] refuses a decimal literal of more than [max_digits] digits,
    when that limit is set; [PyLong_FromString] looks at the limit only for
    more than 640 digits, the least value the limit can be set to. *)
Definition exceeds_int_limit (max_digits digits : nat) : bool :=
  (640 <? digits)%nat && (0 <? max_digits)%nat && (max_digits <? digits)%nat.

Section Scanner.

(** [sys.get_int_max_str_digits()] *)
Variable max_digits : nat.

(** A number: an [int] when there is neither fraction nor exponent,
    otherwise the [float] of the whole literal. *)
Definition scan_number (s : pystr) : scan json :=
  match scan_integer s with
  | None => Fail
  | Some (integer, r) =>
      let (frac, r1) := scan_frac r in
      let (exp, r2) := scan_exp r1 in
      match frac, exp with
      | [], [] =>
          match integer with
          | c :: ds =>
              if (c =? 45)%N then
                if exceeds_int_limit max_digits (List.length ds)
                then Abort ValueError
                else Ok (JInt (- int_of_digits ds)) r2
              else
                if exceeds_int_limit max_digits (List.length integer)
                then Abort ValueError
                else Ok (JInt (int_of_digits integer)) r2
          | [] => Fail
          end
      | _, _ => Ok (JFloat (integer ++ frac ++ exp)) r2
      end
  end.

(** [s] minus the prefix [p], when [s] starts with it. *)
Fixpoint expect (p s : pystr) {struct p} : option pystr :=
  match p, s with
  | [], _ => Some s
  | _ :: _, [] => None
  | a :: p', b :: s' => if (a =? b)%N then expect p' s' else None
  end.

(** The constants, then the numbers, in the scanner's order. *)
Definition scan_atom (s : pystr) : scan json :=
  match expect (PyStr.lit "null") s with
  | Some r => Ok JNull r
  | None =>
  match expect (PyStr.lit "true") s with
  | Some r => Ok (JBool true) r
  | None =>
  match expect (PyStr.lit "false") s with
  | Some r => Ok (JBool false) r
  | None =>
  match scan_number s with
  | Ok v r => Ok v r
  | Abort e => Abort e
  | _ =>
  match expect (PyStr.lit "NaN") s with
  | Some r => Ok (JFloat (PyStr.lit "NaN")) r
  | None =>
  match expect (PyStr.lit "Infinity") s with
  | Some r => Ok (JFloat (PyStr.lit "Infinity")) r
  | None =>
  match expect (PyStr.lit "-Infinity") s with
  | Some r => Ok (JFloat (PyStr.lit "-Infinity")) r
  | None => Fail
  end end end end end end end.

(** [scan_once], [JSONArray] and [JSONObject]. Each of them spends one
    unit of [fuel]; twice the length of the text, plus one, is never
    exhausted (lemma [JsonFacts.decode_fuel]). [depth] is the number of
    arrays and objects the scanner may still enter, one inside the other. *)
Fixpoint scan_once (fuel depth : nat) (s : pystr) : scan json :=
  match fuel with
  | O => OutOfFuel
  | S f =>
      match s with
      | [] => Fail
      | c :: r =>
          if (c =? 34)%N then
            match scanstring r [] with
            | Ok str r' => Ok (JStr str) r'
            | Fail => Fail
            | Abort e => Abort e
            | OutOfFuel => OutOfFuel
            end
          else if (c =? 123)%N then
            match depth with
            | O => Abort RecursionError
            | S d =>
                match skip_ws r with
                | c1 :: r1 =>
                    if (c1 =? 125)%N then Ok (JDict []) r1
                    else if (c1 =? 34)%N then scan_members f d r1 []
                    else Fail
                | [] => Fail
                end
            end
          else if (c =? 91)%N then
            match depth with
            | O => Abort RecursionError
            | S d =>
                match skip_ws r with
                | c1 :: r1 =>
                    if (c1 =? 93)%N then Ok (JList []) r1
                    else scan_items f d (c1 :: r1) []
                | [] => Fail
                end
            end
          else scan_atom s
      end
  end

(** The elements of an array, entered at the first character of a value;
    [acc] holds the values in reverse. *)
with scan_items (fuel depth : nat) (s : pystr) (acc : list json) : scan json :=
  match fuel with
  | O => OutOfFuel
  | S f =>
      match scan_once f depth s with
      | Ok v r =>
          match skip_ws r with
          | c :: r1 =>
              if (c =? 93)%N then Ok (JList (rev (v :: acc))) r1
              else if (c =? 44)%N then scan_items f depth (skip_ws r1) (v :: acc)
              else Fail
          | [] => Fail
          end
      | Fail => Fail
      | Abort e => Abort e
      | OutOfFuel => OutOfFuel
      end
  end

(** The members of an object, entered just after the opening quote of a
    key; [acc] holds the pairs in reverse. *)
with scan_members (fuel depth : nat) (s : pystr) (acc : list (pystr * json))
  : scan json :=
  match fuel with
  | O => OutOfFuel
  | S f =>
      match scanstring s [] with
      | Ok key r =>
          match skip_ws r with
          | c :: r1 =>
              if (c =? 58)%N then
                match scan_once f depth (skip_ws r1) with
                | Ok v r2 =>
                    match skip_ws r2 with
                    | c2 :: r3 =>
                        if (c2 =? 125)%N
                        then Ok (JDict (Dict.of_pairs (rev ((key, v) :: acc)))) r3
                        else if (c2 =? 44)%N then
                          match skip_ws r3 with
                          | c3 :: r4 =>
                              if (c3 =? 34)%N
                              then scan_members f depth r4 ((key, v) :: acc)
                              else Fail
                          | [] => Fail
                          end
                        else Fail
                    | [] => Fail
                    end
                | Fail => Fail
                | Abort e => Abort e
                | OutOfFuel => OutOfFuel
                end
              else Fail
          | [] => Fail
          end
      | Fail => Fail
      | Abort e => Abort e
      | OutOfFuel => OutOfFuel
      end
  end.

(** [JSONDecoder.decode]: leading whitespace, one value, trailing
    whitespace, end of text. *)
Definition decode (fuel depth : nat) (s : pystr) : scan json :=
  match scan_once fuel depth (skip_ws s) with
  | Ok v r => match skip_ws r with [] => Ok v [] | _ :: _ => Fail end
  | Fail => Fail
  | Abort e => Abort e
  | OutOfFuel => OutOfFuel
  end.

End Scanner.

(** [json.loads(s)]: the decoded value, or [JSONDecodeError], or the
    [RecursionError] or [ValueError] of a limit of the interpreter. *)
Definition loads (runtime : Runtime.t) (s : pystr) : outcome json :=
  match decode (Runtime.int_max_str_digits runtime)
               (S (2 * List.length s)) (Runtime.recursion_headroom runtime) s with
  | Ok v _ => Return v
  | Abort e => Raise e
  | _ => Raise JSONDecodeError
  end.

(** Predicates on what a scan consumes. [good_end l]: [l] is non-empty and
    its last character is not a backtick. *)
Definition good_end (l : pystr) : Prop :=
  exists l' c, l = l' ++ [c] /\ c <> 96%N.

(** [rest] is what is left of [s] after a consumed part with a good end. *)
Definition ends_before (s rest : pystr) : Prop :=
  exists l, s = l ++ rest /\ good_end l.

Definition suffix (rest s : pystr) : Prop := exists pre, s = pre ++ rest.

Definition json_ws (ws : pystr) : Prop := Forall (fun c => is_ws c = true) ws.

End Json.

(* ================================================================== *)
(** * [app/schemas.py] *)
(* ================================================================== *)

Definition datetime := Z.

Module UserCreate.
Record t := mk {
  username : pystr;
  email : pystr;
  password : pystr;
  orcid_id : option pystr }.

(** The declared constraints on a body whose fields already have their
    declared types: [username] of 3 to 50 characters, [password] of at
    least 6, and an [email] the [EmailStr] validator accepts ([EmailStr]
    gives the normalised address, or [None]). *)
Definition validate (EmailStr : pystr -> option pystr) (body : t) : option t :=
  if (3 <=? List.length (username body))%nat
     && (List.length (username body) <=? 50)%nat
     && (6 <=? List.length (password body))%nat
  then match EmailStr (email body) with
       | Some e => Some (mk (username body) e (password body) (orcid_id body))
       | None => None
       end
  else None.
End UserCreate.

Module UserResponse.
Record t := mk {
  id : Z;
  username : pystr;
  email : pystr;
  orcid_id : option pystr;
  created_at : datetime }.
End UserResponse.

Module UserUpdate.
Record t := mk {
  email : option pystr;
  orcid_id : option pystr }.

(** An [email], when given, must pass the [EmailStr] validator. *)
Definition validate (EmailStr : pystr -> option pystr) (body : t) : option t :=
  match email body with
  | None => Some body
  | Some e =>
      match EmailStr e with
      | Some e' => Some (mk (Some e') (orcid_id body))
      | None => None
      end
  end.
End UserUpdate.

Module Token.
Record t := mk {
  access_token : pystr;
  token_type : pystr }.
End Token.

Module SightingCreate.
Record t := mk {
  bird_name : pystr;
  scientific_name : option pystr;
  latitude : option float;
  longitude : option float;
  mansion_notes : option pystr;
  wesleyan_fact : option pystr }.

(** [Field(None, ge=lo, le=hi)] on an [Optional[float]]. The body parser
    accepts the literals NaN and Infinity and gives an infinity for a
    literal beyond the range of a double, so every float can come in;
    [nan_within_bounds] says what the bound check makes of a NaN. *)
Definition ge_le (nan_within_bounds : bool) (lo hi : float) (x : option float)
  : bool :=
  match x with
  | None => true
  | Some v =>
      if PrimFloat.is_nan v then nan_within_bounds
      else PrimFloat.leb lo v && PrimFloat.leb v hi
  end.

(** The constraints the class declares on a body whose fields already
    have their declared types. *)
Definition validate (nan_within_bounds : bool) (body : t) : bool :=
  ge_le nan_within_bounds (-90)%float 90%float (latitude body)
  && ge_le nan_within_bounds (-180)%float 180%float (longitude body).

(** The values the validation errors of a body quote as their [input]:
    the coordinates that fail their bounds. *)
Definition refused (nan_within_bounds : bool) (lo hi : float) (x : option float)
  : list float :=
  match x with
  | None => []
  | Some v => if ge_le nan_within_bounds lo hi (Some v) then [] else [v]
  end.

Definition error_inputs (nan_within_bounds : bool) (body : t) : list float :=
  refused nan_within_bounds (-90)%float 90%float (latitude body)
  ++ refused nan_within_bounds (-180)%float 180%float (longitude body).

(** A coordinate that is present and is a NaN. *)
Definition nan (x : option float) : Prop :=
  match x with
  | None => False
  | Some v => PrimFloat.is_nan v = true
  end.

(** A coordinate that is absent, or a finite number. *)
Definition finite (x : option float) : bool :=
  match x with
  | None => true
  | Some v => PrimFloat.is_finite v
  end.

(** A coordinate that is absent, or present and within [lo, hi]. *)
Definition inside (lo hi : float) (x : option float) : Prop :=
  match x with
  | None => True
  | Some v => PrimFloat.leb lo v = true /\ PrimFloat.leb v hi = true
  end.

(** A coordinate that is present and below [lo] or above [hi]. *)
Definition outside (lo hi : float) (x : option float) : Prop :=
  match x with
  | None => False
  | Some v => PrimFloat.ltb v lo = true \/ PrimFloat.ltb hi v = true
  end.
End SightingCreate.

Module BirdIdentificationResponse.
Record t := mk {
  common_name : pystr;
  scientific_name : pystr;
  wesleyan_fact : pystr;
  confidence : pystr;
  in_wesleyan_field_guide : bool }.

Definition str_field (k : string) (d : list (pystr * json)) : option pystr :=
  match Dict.get (PyStr.lit k) d with
  | Some (JStr s) => Some s
  | _ => None
  end.
Arguments str_field k%_string d.

Definition bool_field (k : string) (d : list (pystr * json)) : option bool :=
  match Dict.get (PyStr.lit k) d with
  | Some (JBool b) => Some b
  | _ => None
  end.
Arguments bool_field k%_string d.

(** Reading a value as the five declared fields with their declared
    types: four strings and a boolean, all required. This is the strict
    reading: the schema library also converts some values of other types
    and ignores further keys, and such values are not read here. *)
Definition of_json (v : json) : option t :=
  match v with
  | JDict d =>
      match str_field "common_name" d, str_field "scientific_name" d,
            str_field "wesleyan_fact" d, str_field "confidence" d,
            bool_field "in_wesleyan_field_guide" d with
      | Some cn, Some sn, Some wf, Some c, Some g => Some (mk cn sn wf c g)
      | _, _, _, _, _ => None
      end
  | _ => None
  end.

(** A value conforms to the schema when it is a dict with exactly the
    five fields, each of its declared type. *)
Definition conforms (v : json) : bool :=
  match v, of_json v with
  | JDict d, Some _ => Nat.eqb (List.length d) 5
  | _, _ => false
  end.
End BirdIdentificationResponse.

(* ================================================================== *)
(** * [app/bird_identifier.py] *)
(* ================================================================== *)

Module Genai.

(** [types.Part.from_bytes] and [types.Part.from_text]. *)
Inductive Part : Type :=
| from_bytes (data : list Byte.byte) (mime_type : pystr)
| from_text (text : pystr).

Record Content := mkContent {
  role : pystr;
  parts : list Part }.

(** The arguments of one [client.models.generate_content] call. *)
Record Request := mkRequest {
  model : pystr;
  contents : list Content }.

(** What the call gives back: a response object whose [text] may be
    [None], or an exception. *)
Definition Response := outcome (option pystr).


End Genai.

Definition WESLEYAN_FIELD_GUIDE_BIRDS : list pystr :=
  List.map PyStr.lit
    [ "Northern Cardinal";
      "American Robin";
      "Blue Jay";
      "House Sparrow";
      "European Starling";
      "American Crow";
      "Mourning Dove";
      "Red-tailed Hawk";
      "American Goldfinch";
      "Black-capped Chickadee";
      "White-breasted Nuthatch";
      "Downy Woodpecker";
      "Carolina Wren";
      "Eastern Bluebird";
      "Song Sparrow";
      "Dark-eyed Junco" ]%string.

(** [name in WESLEYAN_FIELD_GUIDE_BIRDS] *)
Definition in_field_guide (name : pystr) : bool :=
  existsb (PyStr.eqb name) WESLEYAN_FIELD_GUIDE_BIRDS.

(** The instruction text of [identify_bird]. *)
Definition prompt : pystr :=
  let wesleyan_birds_list := PyStr.join (PyStr.lit ", ") WESLEYAN_FIELD_GUIDE_BIRDS in
  PyStr.lit "You are an expert ornithologist for the Wesleyan Birder app. Analyze this bird image and provide:

1. **Common Name**: The bird's common English name
2. **Scientific Name**: The scientific name in " ++ PyStr.quoted "Genus species" ++ PyStr.lit " format
3. **Wesleyan Fact**: A fact connecting this bird to Wesleyan University or Connecticut. If this bird is one of the 16 species in the Field Guide to the Birds of Wesleyan ("
  ++ wesleyan_birds_list ++ PyStr.lit "), mention this. The Wesleyan Cardinal is the university mascot, so the Northern Cardinal is especially significant.

Respond in this exact JSON format:
{
    " ++ PyStr.quoted "common_name" ++ PyStr.lit ": " ++ PyStr.quoted "Bird Common Name" ++ PyStr.lit ",
    " ++ PyStr.quoted "scientific_name" ++ PyStr.lit ": " ++ PyStr.quoted "Genus species" ++ PyStr.lit ",
    " ++ PyStr.quoted "wesleyan_fact" ++ PyStr.lit ": " ++ PyStr.quoted "A Wesleyan-specific fact about this bird" ++ PyStr.lit ",
    " ++ PyStr.quoted "confidence" ++ PyStr.lit ": " ++ PyStr.quoted "high/medium/low" ++ PyStr.lit ",
    " ++ PyStr.quoted "in_wesleyan_field_guide" ++ PyStr.lit ": true/false
}

If you cannot identify the bird or the image doesn't contain a bird, respond with:
{
    " ++ PyStr.quoted "common_name" ++ PyStr.lit ": " ++ PyStr.quoted "Unknown" ++ PyStr.lit ",
    " ++ PyStr.quoted "scientific_name" ++ PyStr.lit ": " ++ PyStr.quoted "Unknown" ++ PyStr.lit ",
    " ++ PyStr.quoted "wesleyan_fact" ++ PyStr.lit ": " ++ PyStr.quoted "Unable to identify the bird in this image. Try a clearer photo!" ++ PyStr.lit ",
    " ++ PyStr.quoted "confidence" ++ PyStr.lit ": " ++ PyStr.quoted "none" ++ PyStr.lit ",
    " ++ PyStr.quoted "in_wesleyan_field_guide" ++ PyStr.lit ": false
}".

(** The single request [identify_bird] sends. *)
Definition identify_request (image_data : list Byte.byte) : Genai.Request :=
  Genai.mkRequest (PyStr.lit "gemini-2.5-flash")
    [ Genai.mkContent (PyStr.lit "user")
        [ Genai.from_bytes image_data (PyStr.lit "image/jpeg");
          Genai.from_text prompt ] ].

(** The three conditional slices applied to the stripped reply. *)
Definition strip_fences (text : pystr) : pystr :=
  let response_text := PyStr.strip text in
  let response_text :=
    if PyStr.startswith response_text (PyStr.lit "```json")
    then PyStr.slice_from 7 response_text else response_text in
  let response_text :=
    if PyStr.startswith response_text (PyStr.lit "```")
    then PyStr.slice_from 3 response_text else response_text in
  let response_text :=
    if PyStr.endswith response_text (PyStr.lit "```")
    then PyStr.slice_to_minus 3 response_text else response_text in
  response_text.

(** The dict of the [except json.JSONDecodeError] branch. *)
Definition parse_failure : json :=
  JDict
    [ (PyStr.lit "common_name", JStr (PyStr.lit "Unknown"));
      (PyStr.lit "scientific_name", JStr (PyStr.lit "Unknown"));
      (PyStr.lit "wesleyan_fact",
        JStr (PyStr.lit "Could not parse the identification result. Please try again."));
      (PyStr.lit "confidence", JStr (PyStr.lit "none"));
      (PyStr.lit "in_wesleyan_field_guide", JBool false) ].

(** From [response.text] to the returned value: strip, remove the fences,
    strip again, decode, and fall back on a decoding error. The [except]
    clause names [json.JSONDecodeError] only: any other exception of
    [json.loads] leaves the function. *)
Definition parse_reply (runtime : Runtime.t) (text : pystr) : outcome json :=
  match Json.loads runtime (PyStr.strip (strip_fences text)) with
  | Return result => Return result
  | Raise JSONDecodeError => Return parse_failure
  | Raise e => Raise e
  end.

Section Client.

Variable runtime : Runtime.t.

(** [client.models.generate_content] of the client [get_gemini_client]
    configures from the environment; a failure to build the client or to
    reach the model is a [Raise]. *)
Variable generate_content : Genai.Request -> Genai.Response.

(** [identify_bird]: the requests sent, and the value returned or the
    exception raised. The base64 text the function also computes is never
    used and is left out. *)
Definition identify_bird (image_data : list Byte.byte)
  : list Genai.Request * outcome json :=
  let request := identify_request image_data in
  ([request],
   match generate_content request with
   | Raise e => Raise e
   | Return None => Raise AttributeError
   | Return (Some text) => parse_reply runtime text
   end).

End Client.

(* ================================================================== *)
(** * [app/models.py] *)
(* ================================================================== *)

Module User.
Record t := mk {
  id : Z;
  username : pystr;
  email : pystr;
  hashed_password : pystr;
  orcid_id : option pystr;
  created_at : datetime }.

Definition with_email (e : pystr) (u : t) : t :=
  mk (id u) (username u) e (hashed_password u) (orcid_id u) (created_at u).

Definition with_orcid_id (o : option pystr) (u : t) : t :=
  mk (id u) (username u) (email u) (hashed_password u) o (created_at u).
End User.

Module Sighting.
Record t := mk {
  id : Z;
  bird_name : pystr;
  scientific_name : option pystr;
  timestamp : datetime;
  latitude : option float;
  longitude : option float;
  mansion_notes : option pystr;
  wesleyan_fact : option pystr;
  user_id : Z }.
End Sighting.

(** The two tables, rows in insertion order, and the next primary key of
    each. [models.py] declares an Integer primary key and leaves the choice
    of keys to the database; here a key is never given out twice, and the
    statements below rely on keys being distinct, not on that. *)
Record Store := mkStore {
  users : list User.t;
  sightings : list Sighting.t;
  users_id_seq : Z;
  sightings_id_seq : Z }.

Definition empty_store : Store := mkStore [] [] 1 1.

Module Db.

(** [unique=True] on a column: no value occurs in two rows. *)
Fixpoint unique {A} (eqb : A -> A -> bool) (l : list A) : bool :=
  match l with
  | [] => true
  | x :: r => negb (existsb (eqb x) r) && unique eqb r
  end.

(** The constraints [models.py] declares on [users] beyond the key. *)
Definition users_ok (rows : list User.t) : bool :=
  unique PyStr.eqb (List.map User.username rows)
  && unique PyStr.eqb (List.map User.email rows).

(** INSERT of a user row under the next key. *)
Definition add_user (mk_row : Z -> User.t) (db : Store) : Store * User.t :=
  let row := mk_row (users_id_seq db) in
  (mkStore (users db ++ [row]) (sightings db)
           (users_id_seq db + 1) (sightings_id_seq db), row).

(** UPDATE of the user row that has the key of [row]. *)
Definition update_user (row : User.t) (db : Store) : Store :=
  mkStore
    (List.map (fun r => if (User.id r =? User.id row)%Z then row else r) (users db))
    (sightings db) (users_id_seq db) (sightings_id_seq db).

(** INSERT of a sighting row under the next key. *)
Definition add_sighting (mk_row : Z -> Sighting.t) (db : Store)
  : Store * Sighting.t :=
  let row := mk_row (sightings_id_seq db) in
  (mkStore (users db) (sightings db ++ [row])
           (users_id_seq db) (sightings_id_seq db + 1), row).

(** DELETE of the sighting row that has the key of [row]. *)
Definition delete_sighting_row (row : Sighting.t) (db : Store) : Store :=
  mkStore (users db)
    (List.filter (fun r => negb (Sighting.id r =? Sighting.id row)%Z) (sightings db))
    (users_id_seq db) (sightings_id_seq db).

(** Primary keys are pairwise distinct and below the sequences. *)
Definition keys_ok (db : Store) : bool :=
  unique Z.eqb (List.map User.id (users db))
  && unique Z.eqb (List.map Sighting.id (sightings db))
  && forallb (fun u => (User.id u <? users_id_seq db)%Z) (users db)
  && forallb (fun s => (Sighting.id s <? sightings_id_seq db)%Z) (sightings db).

End Db.

(* ================================================================== *)
(** * [app/main.py] *)
(* ================================================================== *)

Definition UserResponse_of (u : User.t) : UserResponse.t :=
  UserResponse.mk (User.id u) (User.username u) (User.email u)
                  (User.orcid_id u) (User.created_at u).

(** Truth value of an [Optional[str]]. *)
Definition truthy (x : option pystr) : bool :=
  match x with
  | None | Some [] => false
  | Some (_ :: _) => true
  end.

Definition not_found : exn :=
  HTTPException 404 (PyStr.lit "Sighting not found in your Life List").

Section Handlers.

(** [app/auth.py] is not part of the sources: its three helpers are
    parameters. *)
Variable get_password_hash : pystr -> pystr.
Variable verify_password : pystr -> pystr -> bool.
Variable create_access_token : pystr -> datetime -> pystr.

(** The address validation behind [EmailStr]: the normalised address of a
    valid one, [None] otherwise. *)
Variable EmailStr : pystr -> option pystr.

(** The interpreter and the libraries the server runs on. *)
Variable runtime : Runtime.t.

(** [client.models.generate_content] of the configured client. *)
Variable generate_content : Genai.Request -> Genai.Response.

(** The constructor call on the unpacked result: the validation the
    schema library runs on the value [identify_bird] returned. *)
Variable BirdIdentificationResponse_init
  : json -> outcome BirdIdentificationResponse.t.

(** Modelled from the spec: [get_current_user] of [app/auth.py] is not
    part of the sources. The credential is the subject (a username) of a
    bearer token whose signature and expiry were verified, [None] when
    there is no such token; a subject that no longer resolves to an
    account is rejected like a bad token. *)
Definition get_current_user (credential : option pystr) (db : Store)
  : outcome User.t :=
  match credential with
  | None => Raise (HTTPException 401 (PyStr.lit "Could not validate credentials"))
  | Some subject =>
      match List.find (fun u => PyStr.eqb (User.username u) subject) (users db) with
      | Some u => Return u
      | None => Raise (HTTPException 401 (PyStr.lit "Could not validate credentials"))
      end
  end.

(** POST /auth/register *)
Definition register (now : datetime) (user : UserCreate.t) (db : Store)
  : Store * outcome UserResponse.t :=
  let existing_user :=
    List.find (fun u =>
      PyStr.eqb (User.username u) (UserCreate.username user)
      || PyStr.eqb (User.email u) (UserCreate.email user)) (users db) in
  match existing_user with
  | Some _ =>
      (db, Raise (HTTPException 400 (PyStr.lit "Username or email already registered")))
  | None =>
      let (db', db_user) :=
        Db.add_user (fun key =>
          User.mk key (UserCreate.username user) (UserCreate.email user)
                  (get_password_hash (UserCreate.password user))
                  (UserCreate.orcid_id user) now) db in
      (db', Return (UserResponse_of db_user))
  end.

(** POST /auth/register as the framework serves it: the body is validated
    against [UserCreate] before the handler runs. *)
Definition post_auth_register (now : datetime) (body : UserCreate.t) (db : Store)
  : Store * outcome UserResponse.t :=
  match UserCreate.validate EmailStr body with
  | Some user => register now user db
  | None => (db, Raise RequestValidationError)
  end.

(** POST /auth/login *)
Definition login (now : datetime) (username password : pystr) (db : Store)
  : Store * outcome Token.t :=
  match List.find (fun u => PyStr.eqb (User.username u) username) (users db) with
  | Some user =>
      if verify_password password (User.hashed_password user)
      then (db, Return (Token.mk (create_access_token (User.username user) now)
                                 (PyStr.lit "bearer")))
      else (db, Raise (HTTPException 401 (PyStr.lit "Incorrect username or password")))
  | None => (db, Raise (HTTPException 401 (PyStr.lit "Incorrect username or password")))
  end.

(** GET /users/me *)
Definition get_current_user_profile (current_user : User.t) (db : Store)
  : Store * outcome UserResponse.t :=
  (db, Return (UserResponse_of current_user)).

(** PUT /users/me. The commit fails, and changes nothing, when the new
    row breaks a uniqueness constraint of the table. *)
Definition update_user_profile (user_update : UserUpdate.t)
    (current_user : User.t) (db : Store) : Store * outcome UserResponse.t :=
  let current_user :=
    if truthy (UserUpdate.email user_update)
    then match UserUpdate.email user_update with
         | Some e => User.with_email e current_user
         | None => current_user
         end
    else current_user in
  let current_user :=
    match UserUpdate.orcid_id user_update with
    | Some o => User.with_orcid_id (Some o) current_user
    | None => current_user
    end in
  let db' := Db.update_user current_user db in
  if Db.users_ok (users db')
  then (db', Return (UserResponse_of current_user))
  else (db, Raise IntegrityError).

(** PUT /users/me as the framework serves it. *)
Definition put_users_me (body : UserUpdate.t) (current_user : User.t) (db : Store)
  : Store * outcome UserResponse.t :=
  match UserUpdate.validate EmailStr body with
  | Some user_update => update_user_profile user_update current_user db
  | None => (db, Raise RequestValidationError)
  end.

(** POST /identify, with the requests sent to the model. *)
Definition identify_bird_endpoint (content_type : option pystr)
    (image_data : list Byte.byte) (current_user : User.t)
  : list Genai.Request * outcome BirdIdentificationResponse.t :=
  match content_type with
  | None => ([], Raise AttributeError)
  | Some ct =>
      if negb (PyStr.startswith ct (PyStr.lit "image/"))
      then ([], Raise (HTTPException 400 (PyStr.lit "Please upload an image file")))
      else
        let (sent, result) := identify_bird runtime generate_content image_data in
        (sent,
         match result with
         | Return r => BirdIdentificationResponse_init r
         | Raise e => Raise e
         end)
  end.

(** POST /sightings, the handler proper. *)
Definition create_sighting (now : datetime) (sighting : SightingCreate.t)
    (current_user : User.t) (db : Store) : Store * outcome Sighting.t :=
  let (db', db_sighting) :=
    Db.add_sighting (fun key =>
      Sighting.mk key
        (SightingCreate.bird_name sighting)
        (SightingCreate.scientific_name sighting)
        now
        (SightingCreate.latitude sighting)
        (SightingCreate.longitude sighting)
        (SightingCreate.mansion_notes sighting)
        (SightingCreate.wesleyan_fact sighting)
        (User.id current_user)) db in
  (db', Return db_sighting).

(** The framework's answer to a body that fails validation: a 422
    response that lists the errors, each with the input it refuses, as
    JSON. The response is rendered with [allow_nan=False], so an input that
    is not a finite float makes the rendering raise [ValueError], and the
    server answers 500. *)
Definition validation_failure (inputs : list float) : exn :=
  if forallb PrimFloat.is_finite inputs then RequestValidationError
  else ValueError.

(** POST /sightings as the framework serves it: the body is validated
    against [SightingCreate] before the handler runs. *)
Definition post_sightings (now : datetime) (body : SightingCreate.t)
    (current_user : User.t) (db : Store) : Store * outcome Sighting.t :=
  if SightingCreate.validate (Runtime.nan_within_bounds runtime) body
  then create_sighting now body current_user db
  else (db, Raise (validation_failure
                     (SightingCreate.error_inputs
                        (Runtime.nan_within_bounds runtime) body))).

(** GET /sightings, for non-negative [skip] and [limit]. *)
Definition get_sightings (skip limit : nat) (current_user : User.t) (db : Store)
  : Store * outcome (list Sighting.t) :=
  (db, Return (firstn limit (skipn skip
     (List.filter (fun s => (Sighting.user_id s =? User.id current_user)%Z)
                  (sightings db))))).

(** The combined lookup of the two by-id handlers. *)
Definition owned_sighting (sighting_id : Z) (current_user : User.t) (db : Store)
  : option Sighting.t :=
  List.find (fun s => (Sighting.id s =? sighting_id)%Z
                      && (Sighting.user_id s =? User.id current_user)%Z)
            (sightings db).

(** GET /sightings/{sighting_id} *)
Definition get_sighting (sighting_id : Z) (current_user : User.t) (db : Store)
  : Store * outcome Sighting.t :=
  match owned_sighting sighting_id current_user db with
  | None => (db, Raise not_found)
  | Some sighting => (db, Return sighting)
  end.

(** DELETE /sightings/{sighting_id} *)
Definition delete_sighting (sighting_id : Z) (current_user : User.t) (db : Store)
  : Store * outcome pystr :=
  match owned_sighting sighting_id current_user db with
  | None => (db, Raise not_found)
  | Some sighting =>
      (Db.delete_sighting_row sighting db,
       Return (PyStr.lit "Sighting removed from your Life List"))
  end.

(** ** The HTTP surface *)

Inductive request : Type :=
| GET_root
| POST_auth_register (body : UserCreate.t)
| POST_auth_login (username password : pystr)
| GET_users_me (credential : option pystr)
| PUT_users_me (credential : option pystr) (body : UserUpdate.t)
| POST_identify (credential : option pystr) (content_type : option pystr)
                (image_data : list Byte.byte)
| POST_sightings (credential : option pystr) (body : SightingCreate.t)
| GET_sightings (credential : option pystr) (skip limit : nat)
| GET_sighting (credential : option pystr) (sighting_id : Z)
| DELETE_sighting (credential : option pystr) (sighting_id : Z).

Inductive body : Type :=
| Banner
| UserBody (u : UserResponse.t)
| TokenBody (t : Token.t)
| IdentificationBody (r : BirdIdentificationResponse.t)
| SightingBody (s : Sighting.t)
| SightingsBody (l : list Sighting.t)
| MessageBody (message : pystr).

Definition respond {A} (wrap : A -> body) (r : Store * outcome A)
  : Store * outcome body :=
  (fst r, match snd r with Return a => Return (wrap a) | Raise e => Raise e end).

(** A handler behind [Depends(get_current_user)]. *)
Definition authenticated {A} (credential : option pystr) (db : Store)
    (handler : User.t -> Store * outcome A) : Store * outcome A :=
  match get_current_user credential db with
  | Return current_user => handler current_user
  | Raise e => (db, Raise e)
  end.

(** One request served at time [now]. Authentication comes first, then
    the validation of the body, then the handler. *)
Definition serve (now : datetime) (req : request) (db : Store)
  : Store * outcome body :=
  match req with
  | GET_root => (db, Return Banner)
  | POST_auth_register b => respond UserBody (post_auth_register now b db)
  | POST_auth_login username password =>
      respond TokenBody (login now username password db)
  | GET_users_me c =>
      respond UserBody
        (authenticated c db (fun u => get_current_user_profile u db))
  | PUT_users_me c b =>
      respond UserBody (authenticated c db (fun u => put_users_me b u db))
  | POST_identify c content_type image_data =>
      respond IdentificationBody
        (authenticated c db (fun u =>
           (db, snd (identify_bird_endpoint content_type image_data u))))
  | POST_sightings c b =>
      respond SightingBody
        (authenticated c db (fun u => post_sightings now b u db))
  | GET_sightings c skip limit =>
      respond SightingsBody
        (authenticated c db (fun u => get_sightings skip limit u db))
  | GET_sighting c sighting_id =>
      respond SightingBody
        (authenticated c db (fun u => get_sighting sighting_id u db))
  | DELETE_sighting c sighting_id =>
      respond MessageBody
        (authenticated c db (fun u => delete_sighting sighting_id u db))
  end.

(** A sequence of requests, each with the time it is served at. *)
Fixpoint serve_all (reqs : list (datetime * request)) (db : Store) : Store :=
  match reqs with
  | [] => db
  | (now, req) :: rest => serve_all rest (fst (serve now req db))
  end.

End Handlers.


(* ================================================================== *)
(** * Notions used in the statements *)
(* ================================================================== *)

(** The two fence markers [identify_bird] looks for. *)
Definition fence : pystr := [96; 96; 96]%N.
Definition fence_json : pystr := [96; 96; 96; 106; 115; 111; 110]%N.

(** A model that answers every request with the same text. *)
Definition test_double (text : pystr) : Genai.Request -> Genai.Response :=
  fun _ => Return (Some text).

(** The JSON document of an identification, on one line. *)
Definition reply_text (common_name scientific_name wesleyan_fact confidence : string)
    (in_wesleyan_field_guide : bool) : pystr :=
  PyStr.lit "{" ++ PyStr.quoted "common_name" ++ PyStr.lit ": "
  ++ PyStr.quoted common_name
  ++ PyStr.lit ", " ++ PyStr.quoted "scientific_name" ++ PyStr.lit ": "
  ++ PyStr.quoted scientific_name
  ++ PyStr.lit ", " ++ PyStr.quoted "wesleyan_fact" ++ PyStr.lit ": "
  ++ PyStr.quoted wesleyan_fact
  ++ PyStr.lit ", " ++ PyStr.quoted "confidence" ++ PyStr.lit ": "
  ++ PyStr.quoted confidence
  ++ PyStr.lit ", " ++ PyStr.quoted "in_wesleyan_field_guide" ++ PyStr.lit ": "
  ++ (if in_wesleyan_field_guide then PyStr.lit "true" else PyStr.lit "false")
  ++ PyStr.lit "}".

(** The dict that document decodes to. *)
Definition reply_value (common_name scientific_name wesleyan_fact confidence : string)
    (in_wesleyan_field_guide : bool) : json :=
  JDict
    [ (PyStr.lit "common_name", JStr (PyStr.lit common_name));
      (PyStr.lit "scientific_name", JStr (PyStr.lit scientific_name));
      (PyStr.lit "wesleyan_fact", JStr (PyStr.lit wesleyan_fact));
      (PyStr.lit "confidence", JStr (PyStr.lit confidence));
      (PyStr.lit "in_wesleyan_field_guide", JBool in_wesleyan_field_guide) ].

(** The flag of a result says whether its common name is in the
    allow-list. *)
Definition flag_is_membership (v : json) : Prop :=
  exists r, BirdIdentificationResponse.of_json v = Some r
    /\ BirdIdentificationResponse.in_wesleyan_field_guide r
       = in_field_guide (BirdIdentificationResponse.common_name r).

(** [v] is one of the coordinates a body gives. *)
Definition coordinate_of (body : SightingCreate.t) (v : float) : Prop :=
  SightingCreate.latitude body = Some v \/ SightingCreate.longitude body = Some v.

(** The row [update_user_profile] writes back. *)
Definition updated (user_update : UserUpdate.t) (current_user : User.t) : User.t :=
  let current_user :=
    if truthy (UserUpdate.email user_update)
    then match UserUpdate.email user_update with
         | Some e => User.with_email e current_user
         | None => current_user
         end
    else current_user in
  match UserUpdate.orcid_id user_update with
  | Some o => User.with_orcid_id (Some o) current_user
  | None => current_user
  end.

(** The account row with a given key. *)
Definition user_by_id (key : Z) (db : Store) : option User.t :=
  List.find (fun u => (User.id u =? key)%Z) (users db).

(** [u'] is the same account as [u]: key, username, password hash and
    creation time. *)
Definition same_identity (u u' : User.t) : Prop :=
  User.id u' = User.id u
  /\ User.username u' = User.username u
  /\ User.hashed_password u' = User.hashed_password u
  /\ User.created_at u' = User.created_at u.

(** ... and it still has an ORCID iD if it had one. *)
Definition evolves (u u' : User.t) : Prop :=
  same_identity u u' /\ (User.orcid_id u <> None -> User.orcid_id u' <> None).

(** [Db.keys_ok] as a proposition. *)
Definition KeysOk (db : Store) : Prop :=
  NoDup (List.map User.id (users db))
  /\ NoDup (List.map Sighting.id (sightings db))
  /\ Forall (fun u => (User.id u < users_id_seq db)%Z) (users db)
  /\ Forall (fun s => (Sighting.id s < sightings_id_seq db)%Z) (sightings db).

(** What one request may do to the store: keys stay well formed and every
    account stays, with its identity, and with an ORCID iD if it had one. *)
Definition step_ok (db db' : Store) : Prop :=
  KeysOk db'
  /\ forall u, In u (users db) -> exists u', In u' (users db') /\ evolves u u'.

(** ** A small store and stand-ins for the helpers of [app/auth.py] *)

Definition alice : User.t :=
  User.mk 1%Z (PyStr.lit "alice") (PyStr.lit "alice@wesleyan.edu")
          (PyStr.lit "hash-of-alice")
          (Some (PyStr.lit "0000-0002-1825-0097")) 1700000000%Z.

Definition bob : User.t :=
  User.mk 2%Z (PyStr.lit "bob") (PyStr.lit "bob@wesleyan.edu")
          (PyStr.lit "hash-of-bob") None 1700000100%Z.

Definition robin_sighting : Sighting.t :=
  Sighting.mk 1%Z (PyStr.lit "American Robin")
              (Some (PyStr.lit "Turdus migratorius"))
              1700000200%Z (Some 41.5%float) (Some (-72.5)%float) None None 1%Z.

Definition sample_store : Store := mkStore [alice; bob] [robin_sighting] 3%Z 2%Z.

Definition sample_hash (password : pystr) : pystr := PyStr.lit "hash-of-" ++ password.
Definition sample_verify (password hashed : pystr) : bool :=
  PyStr.eqb (sample_hash password) hashed.
Definition sample_token (subject : pystr) (now : datetime) : pystr := subject.
Definition sample_email (address : pystr) : option pystr :=
  if existsb (N.eqb 64) address then Some address else None.
Definition sample_runtime : Runtime.t := Runtime.mk 900 4300 false.
Definition sample_init (v : json) : outcome BirdIdentificationResponse.t :=
  match BirdIdentificationResponse.of_json v with
  | Some r => Return r
  | None => Raise ValidationError
  end.

(** A few requests, each with the time it is served at. *)
Definition sample_requests : list (datetime * request) :=
  [ (1700000400%Z,
     PUT_users_me (Some (PyStr.lit "alice"))
       (UserUpdate.mk (Some (PyStr.lit "alice@example.org")) None));
    (1700000500%Z,
     POST_auth_register
       (UserCreate.mk (PyStr.lit "carol") (PyStr.lit "carol@wesleyan.edu") (PyStr.lit "secret-3") None));
    (1700000600%Z, DELETE_sighting (Some (PyStr.lit "bob")) 1%Z);
    (1700000700%Z,
     PUT_users_me (Some (PyStr.lit "alice")) (UserUpdate.mk None None)) ].


(** ** Notions for accounts, sightings and replies *)

(** No account of the store has the username or the email of [user]. *)
Definition available (user : UserCreate.t) (db : Store) : Prop :=
  forall u, In u (users db) ->
    User.username u <> UserCreate.username user
    /\ User.email u <> UserCreate.email user.

(** The row [register] inserts for [user] at time [now]. *)
Definition registered (get_password_hash : pystr -> pystr) (now : datetime)
    (user : UserCreate.t) (db : Store) : User.t :=
  User.mk (users_id_seq db) (UserCreate.username user) (UserCreate.email user)
          (get_password_hash (UserCreate.password user))
          (UserCreate.orcid_id user) now.

(** The sightings of an account, in insertion order. *)
Definition life_list (u : User.t) (db : Store) : list Sighting.t :=
  List.filter (fun s => (Sighting.user_id s =? User.id u)%Z) (sightings db).

(** The row [create_sighting] inserts for [body] at time [now]. *)
Definition logged (now : datetime) (body : SightingCreate.t) (u : User.t)
    (db : Store) : Sighting.t :=
  Sighting.mk (sightings_id_seq db)
    (SightingCreate.bird_name body) (SightingCreate.scientific_name body) now
    (SightingCreate.latitude body) (SightingCreate.longitude body)
    (SightingCreate.mansion_notes body) (SightingCreate.wesleyan_fact body)
    (User.id u).

(** [s] holds what the body of a POST /sightings served at time [now]
    gave: every column but the key and the owner. *)
Definition records (s : Sighting.t) (now : datetime) (body : SightingCreate.t)
  : Prop :=
  Sighting.bird_name s = SightingCreate.bird_name body
  /\ Sighting.scientific_name s = SightingCreate.scientific_name body
  /\ Sighting.timestamp s = now
  /\ Sighting.latitude s = SightingCreate.latitude body
  /\ Sighting.longitude s = SightingCreate.longitude body
  /\ Sighting.mansion_notes s = SightingCreate.mansion_notes body
  /\ Sighting.wesleyan_fact s = SightingCreate.wesleyan_fact body.

(** The characters a JSON value can start with. *)
Definition value_start (c : N) : bool :=
  ((c =? 34) || (c =? 123) || (c =? 91) || (c =? 110) || (c =? 116)
   || (c =? 102) || (c =? 45) || (c =? 78) || (c =? 73) || Json.is_digit c)%N.


(* ================================================================== *)
(** * Properties *)
(* ================================================================== *)

Unset Implicit Arguments.

(** ** Python [str] methods *)

Module PyStrFacts.
Import PyStr.

Lemma startswith_app (p s : pystr) : startswith (p ++ s) p = true.
Proof. induction p as [|a p IH]; simpl; [reflexivity|]. now rewrite N.eqb_refl. Qed.

Lemma startswith_head (s p : pystr) (c : N) :
  startswith s (c :: p) = true -> exists s', s = c :: s'.
Proof.
  destruct s as [|b s']; simpl; [discriminate|].
  intros H. apply andb_prop in H as [H _]. apply N.eqb_eq in H. subst. eauto.
Qed.

Lemma startswith_cons_ne (s p : pystr) (b c : N) :
  b <> c -> startswith (b :: s) (c :: p) = false.
Proof. intros H. simpl. apply N.eqb_neq in H. rewrite N.eqb_sym in H. now rewrite H. Qed.

Lemma lstrip_blank_app (ws s : pystr) : blank ws -> lstrip (ws ++ s) = lstrip s.
Proof. induction 1 as [|c ws Hc _ IH]; simpl; [reflexivity|]. now rewrite Hc. Qed.

Lemma lstrip_head (c : N) (s : pystr) : isspace c = false -> lstrip (c :: s) = c :: s.
Proof. intros H. simpl. now rewrite H. Qed.

Lemma blank_rev (ws : pystr) : blank ws -> blank (rev ws).
Proof. unfold blank. intros H. now apply Forall_rev. Qed.

Lemma rstrip_app_blank (s ws : pystr) : blank ws -> rstrip (s ++ ws) = rstrip s.
Proof.
  intros H. unfold rstrip. rewrite rev_app_distr.
  now rewrite lstrip_blank_app by now apply blank_rev.
Qed.

Lemma rstrip_last (s : pystr) (c : N) : isspace c = false -> rstrip (s ++ [c]) = s ++ [c].
Proof.
  intros H. unfold rstrip. rewrite rev_app_distr. simpl. rewrite H.
  simpl. now rewrite rev_involutive.
Qed.

(** [lstrip] splits a text into a blank prefix and the rest. *)
Lemma lstrip_split (s : pystr) : exists ws, blank ws /\ s = ws ++ lstrip s.
Proof.
  induction s as [|c s [ws [Hb He]]]; simpl.
  - exists []. split; [constructor|reflexivity].
  - destruct (isspace c) eqn:Hc.
    + exists (c :: ws). split; [now constructor|]. simpl. now f_equal.
    + exists []. split; [constructor|reflexivity].
Qed.

Lemma rstrip_split (s : pystr) : exists ws, blank ws /\ s = rstrip s ++ ws.
Proof.
  destruct (lstrip_split (rev s)) as [ws [Hb He]].
  exists (rev ws). split; [now apply blank_rev|].
  unfold rstrip. rewrite <- rev_app_distr, <- He. now rewrite rev_involutive.
Qed.

Lemma lstrip_not_blank_head (s : pystr) :
  lstrip s = [] \/ exists c r, lstrip s = c :: r /\ isspace c = false.
Proof.
  induction s as [|c s IH]; simpl; [now left|].
  destruct (isspace c) eqn:Hc; [exact IH|]. right. eauto.
Qed.

Lemma rstrip_not_blank_last (s : pystr) :
  rstrip s = [] \/ exists r c, rstrip s = r ++ [c] /\ isspace c = false.
Proof.
  unfold rstrip. destruct (lstrip_not_blank_head (rev s)) as [H|[c [r [H Hc]]]].
  - left. now rewrite H.
  - right. exists (rev r), c. rewrite H. simpl. auto.
Qed.

(** A text with no blank at either end is its own [strip]. *)
Lemma strip_fixed (c d : N) (s m : pystr) :
  isspace c = false -> isspace d = false ->
  s = c :: m -> (exists m', s = m' ++ [d]) -> strip s = s.
Proof.
  intros Hc Hd -> [m' E]. unfold strip. rewrite lstrip_head by assumption.
  rewrite E. now apply rstrip_last.
Qed.

End PyStrFacts.

(** ** The decoder *)

Module JsonFacts.
Import Json.

Lemma good_end_app (a l : pystr) : good_end l -> good_end (a ++ l).
Proof. intros [l' [c [-> H]]]. exists (a ++ l'), c. now rewrite app_assoc. Qed.

Lemma good_end_single (c : N) : c <> 96%N -> good_end [c].
Proof. intros H. now exists [], c. Qed.

Lemma suffix_refl (s : pystr) : suffix s s.
Proof. now exists []. Qed.

Lemma suffix_cons (c : N) (rest s : pystr) : suffix rest s -> suffix rest (c :: s).
Proof. intros [pre ->]. now exists (c :: pre). Qed.

Lemma suffix_trans (a b c : pystr) : suffix a b -> suffix b c -> suffix a c.
Proof. intros [p ->] [q ->]. exists (q ++ p). now rewrite app_assoc. Qed.

Lemma suffix_tail (c : N) (rest s : pystr) : suffix (c :: rest) s -> suffix rest s.
Proof. intros [pre ->]. exists (pre ++ [c]). now rewrite <- app_assoc. Qed.

Lemma suffix_length (rest s : pystr) : suffix rest s -> List.length rest <= List.length s.
Proof. intros [pre ->]. rewrite length_app. lia. Qed.

Lemma ends_before_suffix (s rest : pystr) : ends_before s rest -> suffix rest s.
Proof. intros [l [-> _]]. now exists l. Qed.

Lemma ends_before_length (s rest : pystr) : ends_before s rest -> List.length rest < List.length s.
Proof.
  intros [l [-> [l' [c [-> _]]]]]. rewrite !length_app. simpl. lia.
Qed.

(** The character just before [rest] closes the consumed part. *)
Lemma ends_before_closing (c : N) (rest s : pystr) :
  c <> 96%N -> suffix (c :: rest) s -> ends_before s rest.
Proof.
  intros Hc [pre ->]. exists (pre ++ [c]). split.
  - now rewrite <- app_assoc.
  - now exists pre, c.
Qed.

Lemma ends_before_trans (s mid rest : pystr) :
  suffix mid s -> ends_before mid rest -> ends_before s rest.
Proof.
  intros [pre ->] [l [-> G]]. exists (pre ++ l). split.
  - now rewrite app_assoc.
  - now apply good_end_app.
Qed.

Lemma skip_ws_suffix (s : pystr) : suffix (skip_ws s) s.
Proof.
  induction s as [|c s IH]; simpl; [apply suffix_refl|].
  destruct (is_ws c); [now apply suffix_cons|apply suffix_refl].
Qed.

Lemma skip_ws_length (s : pystr) : List.length (skip_ws s) <= List.length s.
Proof. apply suffix_length, skip_ws_suffix. Qed.

(** A string literal ends at its closing quote. *)
Lemma scanstring_suffix (n : nat) :
  forall s acc v rest,
    List.length s <= n -> scanstring s acc = Ok v rest -> suffix (34%N :: rest) s.
Proof.
  induction n as [|n IH]; intros s acc v rest Hlen H.
  - destruct s; [discriminate H|simpl in Hlen; lia].
  - destruct s as [|c r]; [discriminate H|].
    simpl in Hlen. cbn [scanstring] in H.
    destruct (c =? 34)%N eqn:Hq.
    { inversion H; subst. apply N.eqb_eq in Hq. subst. apply suffix_refl. }
    apply suffix_cons.
    destruct (c =? 92)%N.
    2:{ destruct (c <? 32)%N; [discriminate H|]. eapply IH; [|exact H]. lia. }
    destruct r as [|e r1]; [discriminate H|]. simpl in Hlen. apply suffix_cons.
    destruct (e =? 117)%N.
    2:{ destruct (backslash e); [|discriminate H]. (eapply IH; [|exact H]; lia). }
    destruct r1 as [|h1 [|h2 [|h3 [|h4 r2]]]]; try discriminate H.
    simpl in Hlen. do 4 apply suffix_cons.
    destruct (hex4 h1 h2 h3 h4) as [uni|]; [|discriminate H].
    destruct r2 as [|b [|u [|g1 [|g2 [|g3 [|g4 [|x r3]]]]]]];
      try ((eapply IH; [|exact H]; simpl in *; lia)).
    destruct (is_high_surrogate uni && (b =? 92)%N && (u =? 117)%N).
    2:{ (eapply IH; [|exact H]; simpl in *; lia). }
    destruct (hex4 g1 g2 g3 g4) as [uni2|]; [|discriminate H].
    destruct (is_low_surrogate uni2).
    + do 6 apply suffix_cons. (eapply IH; [|exact H]; simpl in *; lia).
    + (eapply IH; [|exact H]; simpl in *; lia).
Qed.

Lemma scanstring_ends (s acc v rest : pystr) :
  scanstring s acc = Ok v rest -> ends_before s rest.
Proof.
  intros H. apply ends_before_closing with (c := 34%N); [discriminate|].
  eapply scanstring_suffix; [apply le_n|exact H].
Qed.

Lemma scanstring_fuel (n : nat) :
  forall s acc, List.length s <= n -> scanstring s acc <> OutOfFuel.
Proof.
  induction n as [|n IH]; intros s acc Hlen.
  - destruct s; [discriminate|simpl in Hlen; lia].
  - destruct s as [|c r]; [discriminate|].
    simpl in Hlen. cbn [scanstring].
    destruct (c =? 34)%N; [discriminate|].
    destruct (c =? 92)%N.
    2:{ destruct (c <? 32)%N; [discriminate|]. apply IH; lia. }
    destruct r as [|e r1]; [discriminate|]. simpl in Hlen.
    destruct (e =? 117)%N.
    2:{ destruct (backslash e); [|discriminate]. apply IH; lia. }
    destruct r1 as [|h1 [|h2 [|h3 [|h4 r2]]]]; try discriminate.
    simpl in Hlen.
    destruct (hex4 h1 h2 h3 h4) as [uni|]; [|discriminate].
    destruct r2 as [|b [|u [|g1 [|g2 [|g3 [|g4 [|x r3]]]]]]];
      try (apply IH; simpl in *; lia).
    destruct (is_high_surrogate uni && (b =? 92)%N && (u =? 117)%N).
    2:{ apply IH; simpl in *; lia. }
    destruct (hex4 g1 g2 g3 g4) as [uni2|]; [|discriminate].
    destruct (is_low_surrogate uni2); apply IH; simpl in *; lia.
Qed.


Lemma good_end_app_r (a b : pystr) :
  good_end a -> b = [] \/ good_end b -> good_end (a ++ b).
Proof.
  intros Ha [->|Hb]; [now rewrite app_nil_r|now apply good_end_app].
Qed.

Lemma is_digit_not_backtick (c : N) : is_digit c = true -> c <> 96%N.
Proof. unfold is_digit. intros H ->. discriminate H. Qed.

Lemma digits_good_end (c : N) (ds : pystr) :
  Forall (fun d => is_digit d = true) (c :: ds) -> good_end (c :: ds).
Proof.
  intros H. destruct (exists_last (l := c :: ds)) as [l' [d E]]; [discriminate|].
  rewrite E in *. exists l', d. split; [reflexivity|].
  apply is_digit_not_backtick. apply Forall_app in H as [_ H]. now inversion H.
Qed.

Lemma span_digits_spec (s : pystr) :
  s = fst (span_digits s) ++ snd (span_digits s)
  /\ Forall (fun d => is_digit d = true) (fst (span_digits s)).
Proof.
  induction s as [|c s [IH1 IH2]]; simpl; [now split|].
  destruct (is_digit c) eqn:Hc; [|now split].
  destruct (span_digits s) as [ds r]. simpl in *. split.
  - now f_equal.
  - now constructor.
Qed.

Lemma scan_integer_spec (s i r : pystr) :
  scan_integer s = Some (i, r) -> s = i ++ r /\ good_end i.
Proof.
  unfold scan_integer. intros H.
  assert (Hsign : forall sign s1, s = sign ++ s1 ->
            match s1 with
            | [] => None
            | c :: r0 =>
                if (c =? 48)%N then Some (sign ++ [c], r0)
                else if is_digit c
                     then let (ds, r') := span_digits r0 in Some (sign ++ c :: ds, r')
                     else None
            end = Some (i, r) -> s = i ++ r /\ good_end i).
  { clear H. intros sign s1 -> H. destruct s1 as [|c r0]; [discriminate H|].
    destruct (c =? 48)%N eqn:H0.
    - inversion H; subst. apply N.eqb_eq in H0. subst. split.
      + now rewrite <- app_assoc.
      + apply good_end_app, good_end_single. discriminate.
    - destruct (is_digit c) eqn:Hd; [|discriminate H].
      destruct (span_digits_spec r0) as [E F].
      destruct (span_digits r0) as [ds r']. simpl in E, F.
      inversion H; subst. split.
      + now rewrite <- app_assoc.
      + apply good_end_app, digits_good_end. now constructor. }
  destruct s as [|c s'].
  - now apply (Hsign [] []).
  - destruct (c =? 45)%N eqn:Hm.
    + apply N.eqb_eq in Hm. subst. now apply (Hsign [45%N] s').
    + now apply (Hsign [] (c :: s')).
Qed.

Lemma scan_frac_spec (s : pystr) :
  s = fst (scan_frac s) ++ snd (scan_frac s)
  /\ (fst (scan_frac s) = [] \/ good_end (fst (scan_frac s))).
Proof.
  unfold scan_frac. destruct s as [|c r]; [now split; [|left]|].
  destruct (c =? 46)%N; [|now split; [|left]].
  destruct (span_digits_spec r) as [E F].
  destruct (span_digits r) as [[|d ds] r']; simpl in *; [now split; [|left]|].
  split; [now rewrite <- E|].
  right. apply (good_end_app [c]), digits_good_end. exact F.
Qed.

Lemma scan_exp_spec (s : pystr) :
  s = fst (scan_exp s) ++ snd (scan_exp s)
  /\ (fst (scan_exp s) = [] \/ good_end (fst (scan_exp s))).
Proof.
  unfold scan_exp. destruct s as [|c r]; [now split; [|left]|].
  destruct ((c =? 101) || (c =? 69))%N; [|now split; [|left]].
  assert (Hsign : forall sign r1, r = sign ++ r1 ->
    let res := match span_digits r1 with
               | ([], _) => ([], c :: r)
               | (ds, r') => (c :: sign ++ ds, r')
               end in
    c :: r = fst res ++ snd res /\ (fst res = [] \/ good_end (fst res))).
  { intros sign r1 ->. destruct (span_digits_spec r1) as [E F].
    destruct (span_digits r1) as [[|d ds] r']; simpl in *; [now split; [|left]|].
    split.
    - rewrite <- app_assoc. simpl. now rewrite <- E.
    - right. apply (good_end_app (c :: sign)), digits_good_end. exact F. }
  destruct r as [|d r'].
  - apply (Hsign [] []). reflexivity.
  - destruct ((d =? 45) || (d =? 43))%N.
    + apply (Hsign [d] r'). reflexivity.
    + apply (Hsign [] (d :: r')). reflexivity.
Qed.

Lemma scan_number_ends (md : nat) (s : pystr) (v : json) (rest : pystr) :
  scan_number md s = Ok v rest -> ends_before s rest.
Proof.
  unfold scan_number. intros H.
  destruct (scan_integer s) as [[i r]|] eqn:Hi; [|discriminate H].
  apply scan_integer_spec in Hi as [-> Gi].
  destruct (scan_frac_spec r) as [Ef Gf].
  destruct (scan_frac r) as [f r1]. simpl in Ef, Gf.
  destruct (scan_exp_spec r1) as [Ee Ge].
  destruct (scan_exp r1) as [e r2]. simpl in Ee, Ge.
  assert (rest = r2) as ->.
  { destruct f, e; try (now inversion H).
    destruct i as [|c ds]; [discriminate H|].
    destruct (c =? 45)%N;
      destruct (exceeds_int_limit md _); try discriminate H; now inversion H. }
  exists ((i ++ f) ++ e). split.
  - subst r r1. now rewrite <- !app_assoc.
  - apply good_end_app_r; [|exact Ge]. now apply good_end_app_r.
Qed.

Lemma scan_number_fuel (md : nat) (s : pystr) : scan_number md s <> OutOfFuel.
Proof.
  unfold scan_number. destruct (scan_integer s) as [[i r]|]; [|discriminate].
  destruct (scan_frac r) as [f r1]. destruct (scan_exp r1) as [e r2].
  destruct f, e; try discriminate.
  destruct i as [|c ds]; [discriminate|].
  destruct (c =? 45)%N; destruct (exceeds_int_limit md _); discriminate.
Qed.

(** The only exception of a number is the [ValueError] of [int()]. *)
Lemma scan_number_abort (md : nat) (s : pystr) (e : exn) :
  scan_number md s = Abort e -> e = ValueError.
Proof.
  unfold scan_number. destruct (scan_integer s) as [[i r]|]; [|discriminate].
  destruct (scan_frac r) as [f r1]. destruct (scan_exp r1) as [x r2].
  destruct f, x; try discriminate.
  destruct i as [|c ds]; [discriminate|].
  destruct (c =? 45)%N; destruct (exceeds_int_limit md _); try discriminate;
    intros H; now inversion H.
Qed.

Lemma expect_spec (p s r : pystr) : expect p s = Some r -> s = p ++ r.
Proof.
  revert s. induction p as [|a p IH]; intros s H; simpl in H.
  - now inversion H.
  - destruct s as [|b s']; [discriminate H|].
    destruct (a =? b)%N eqn:E; [|discriminate H].
    apply N.eqb_eq in E. subst. simpl. f_equal. now apply IH.
Qed.

Lemma expect_ends (p : pystr) (c : N) (s r : pystr) :
  c <> 96%N -> expect (p ++ [c]) s = Some r -> ends_before s r.
Proof.
  intros Hc H. apply expect_spec in H. exists (p ++ [c]). split; [assumption|].
  now exists p, c.
Qed.

Lemma scan_atom_ends (md : nat) (s : pystr) (v : json) (rest : pystr) :
  scan_atom md s = Ok v rest -> ends_before s rest.
Proof.
  unfold scan_atom. intros H.
  destruct (expect (PyStr.lit "null") s) eqn:E1.
  { inversion H; subst. apply (expect_ends (PyStr.lit "nul") 108%N);
      [discriminate|exact E1]. }
  destruct (expect (PyStr.lit "true") s) eqn:E2.
  { inversion H; subst. apply (expect_ends (PyStr.lit "tru") 101%N);
      [discriminate|exact E2]. }
  destruct (expect (PyStr.lit "false") s) eqn:E3.
  { inversion H; subst. apply (expect_ends (PyStr.lit "fals") 101%N);
      [discriminate|exact E3]. }
  destruct (scan_number md s) eqn:E4.
  { inversion H; subst. now apply scan_number_ends in E4. }
  - destruct (expect (PyStr.lit "NaN") s) eqn:E5.
    { inversion H; subst. apply (expect_ends (PyStr.lit "Na") 78%N);
        [discriminate|exact E5]. }
    destruct (expect (PyStr.lit "Infinity") s) eqn:E6.
    { inversion H; subst. apply (expect_ends (PyStr.lit "Infinit") 121%N);
        [discriminate|exact E6]. }
    destruct (expect (PyStr.lit "-Infinity") s) eqn:E7; [|discriminate H].
    inversion H; subst. apply (expect_ends (PyStr.lit "-Infinit") 121%N);
      [discriminate|exact E7].
  - discriminate H.
  - exfalso. now apply (scan_number_fuel md s).
Qed.

Lemma scan_atom_fuel (md : nat) (s : pystr) : scan_atom md s <> OutOfFuel.
Proof.
  unfold scan_atom.
  destruct (expect (PyStr.lit "null") s); [discriminate|].
  destruct (expect (PyStr.lit "true") s); [discriminate|].
  destruct (expect (PyStr.lit "false") s); [discriminate|].
  destruct (scan_number md s) eqn:E; [discriminate| |discriminate|];
    (destruct (expect (PyStr.lit "NaN") s); [discriminate|]);
    (destruct (expect (PyStr.lit "Infinity") s); [discriminate|]);
    (destruct (expect (PyStr.lit "-Infinity") s); discriminate).
Qed.

Lemma scan_atom_abort (md : nat) (s : pystr) (e : exn) :
  scan_atom md s = Abort e -> e = ValueError.
Proof.
  unfold scan_atom.
  destruct (expect (PyStr.lit "null") s); [discriminate|].
  destruct (expect (PyStr.lit "true") s); [discriminate|].
  destruct (expect (PyStr.lit "false") s); [discriminate|].
  destruct (scan_number md s) eqn:E; [discriminate| | |];
    try (intros H; inversion H; subst; now apply scan_number_abort in E);
    (destruct (expect (PyStr.lit "NaN") s); [discriminate|]);
    (destruct (expect (PyStr.lit "Infinity") s); [discriminate|]);
    (destruct (expect (PyStr.lit "-Infinity") s); discriminate).
Qed.

Lemma scanstring_abort (n : nat) :
  forall s acc e, List.length s <= n -> scanstring s acc <> Abort e.
Proof.
  induction n as [|n IH]; intros s acc x Hlen.
  - destruct s; [discriminate|simpl in Hlen; lia].
  - destruct s as [|c r]; [discriminate|].
    simpl in Hlen. cbn [scanstring].
    destruct (c =? 34)%N; [discriminate|].
    destruct (c =? 92)%N.
    2:{ destruct (c <? 32)%N; [discriminate|]. apply IH; lia. }
    destruct r as [|e r1]; [discriminate|]. simpl in Hlen.
    destruct (e =? 117)%N.
    2:{ destruct (backslash e); [|discriminate]. apply IH; lia. }
    destruct r1 as [|h1 [|h2 [|h3 [|h4 r2]]]]; try discriminate.
    simpl in Hlen.
    destruct (hex4 h1 h2 h3 h4) as [uni|]; [|discriminate].
    destruct r2 as [|b [|u [|g1 [|g2 [|g3 [|g4 [|y r3]]]]]]];
      try (apply IH; simpl in *; lia).
    destruct (is_high_surrogate uni && (b =? 92)%N && (u =? 117)%N).
    2:{ apply IH; simpl in *; lia. }
    destruct (hex4 g1 g2 g3 g4) as [uni2|]; [|discriminate].
    destruct (is_low_surrogate uni2); apply IH; simpl in *; lia.
Qed.

(** Whatever [scan_once] accepts is non-empty and does not end with a
    backtick; so for the elements of an array and the members of an object. *)
Lemma scan_ends (md fuel : nat) :
  (forall depth s v rest,
     scan_once md fuel depth s = Ok v rest -> ends_before s rest)
  /\ (forall depth s acc v rest,
        scan_items md fuel depth s acc = Ok v rest -> ends_before s rest)
  /\ (forall depth s acc v rest,
        scan_members md fuel depth s acc = Ok v rest -> ends_before s rest).
Proof.
  induction fuel as [|f [IH1 [IH2 IH3]]].
  { repeat split; intros; discriminate. }
  split; [|split].
  - intros depth s v rest H. cbn [scan_once] in H.
    destruct s as [|c r]; [discriminate H|].
    destruct (c =? 34)%N.
    { destruct (scanstring r []) eqn:E; try discriminate H.
      inversion H; subst. apply ends_before_trans with (mid := r).
      - apply suffix_cons, suffix_refl.
      - eapply scanstring_ends; exact E. }
    pose proof (skip_ws_suffix r) as Hs.
    destruct (c =? 123)%N.
    { destruct depth as [|d]; [discriminate H|].
      destruct (skip_ws r) as [|c1 r1]; [discriminate H|].
      destruct (c1 =? 125)%N eqn:E1.
      - inversion H; subst. apply N.eqb_eq in E1. subst.
        apply ends_before_closing with (c := 125%N); [discriminate|].
        now apply suffix_cons.
      - destruct (c1 =? 34)%N; [|discriminate H]. apply IH3 in H.
        eapply ends_before_trans; [|exact H].
        apply suffix_cons. eapply suffix_tail; exact Hs. }
    destruct (c =? 91)%N.
    { destruct depth as [|d]; [discriminate H|].
      destruct (skip_ws r) as [|c1 r1]; [discriminate H|].
      destruct (c1 =? 93)%N eqn:E1.
      - inversion H; subst. apply N.eqb_eq in E1. subst.
        apply ends_before_closing with (c := 93%N); [discriminate|].
        now apply suffix_cons.
      - apply IH2 in H. eapply ends_before_trans; [|exact H].
        now apply suffix_cons. }
    now apply scan_atom_ends in H.
  - intros depth s acc v rest H. cbn [scan_items] in H.
    destruct (scan_once md f depth s) as [v1 r| | |] eqn:E; try discriminate H.
    apply IH1, ends_before_suffix in E.
    pose proof (skip_ws_suffix r) as Hs.
    destruct (skip_ws r) as [|c r1]; [discriminate H|].
    assert (Hr1 : suffix (c :: r1) s) by (eapply suffix_trans; eassumption).
    destruct (c =? 93)%N eqn:E1.
    + inversion H; subst. apply N.eqb_eq in E1. subst.
      now apply ends_before_closing with (c := 93%N).
    + destruct (c =? 44)%N; [|discriminate H]. apply IH2 in H.
      eapply ends_before_trans; [|exact H].
      eapply suffix_trans; [apply skip_ws_suffix|].
      eapply suffix_tail; exact Hr1.
  - intros depth s acc v rest H. cbn [scan_members] in H.
    destruct (scanstring s []) as [key r| | |] eqn:E; try discriminate H.
    apply scanstring_ends, ends_before_suffix in E.
    pose proof (skip_ws_suffix r) as Hs.
    destruct (skip_ws r) as [|c r1]; [discriminate H|].
    destruct (c =? 58)%N; [|discriminate H].
    assert (Hr1 : suffix (skip_ws r1) s).
    { eapply suffix_trans; [apply skip_ws_suffix|].
      eapply suffix_tail. eapply suffix_trans; eassumption. }
    destruct (scan_once md f depth (skip_ws r1)) as [v1 r2| | |] eqn:E2;
      try discriminate H.
    apply IH1, ends_before_suffix in E2.
    pose proof (skip_ws_suffix r2) as Hs2.
    destruct (skip_ws r2) as [|c2 r3]; [discriminate H|].
    assert (Hr3 : suffix (c2 :: r3) s).
    { eapply suffix_trans; [exact Hs2|]. eapply suffix_trans; eassumption. }
    destruct (c2 =? 125)%N eqn:E3.
    + inversion H; subst. apply N.eqb_eq in E3. subst.
      now apply ends_before_closing with (c := 125%N).
    + destruct (c2 =? 44)%N; [|discriminate H].
      pose proof (skip_ws_suffix r3) as Hs3.
      destruct (skip_ws r3) as [|c3 r4]; [discriminate H|].
      destruct (c3 =? 34)%N; [|discriminate H]. apply IH3 in H.
      eapply ends_before_trans; [|exact H].
      eapply suffix_tail. eapply suffix_trans; [exact Hs3|].
      eapply suffix_tail; exact Hr3.
Qed.

Lemma scan_once_ends (md fuel depth : nat) (s : pystr) (v : json) (rest : pystr) :
  scan_once md fuel depth s = Ok v rest -> ends_before s rest.
Proof. apply scan_ends. Qed.

(** Fuel: twice the length of the input, plus one, is enough. *)
Lemma scan_fuel (md fuel : nat) :
  (forall depth s, 2 * List.length s + 1 <= fuel ->
     scan_once md fuel depth s <> OutOfFuel)
  /\ (forall depth s acc, 2 * List.length s + 2 <= fuel ->
        scan_items md fuel depth s acc <> OutOfFuel)
  /\ (forall depth s acc, 2 * List.length s + 2 <= fuel ->
        scan_members md fuel depth s acc <> OutOfFuel).
Proof.
  induction fuel as [|f [IH1 [IH2 IH3]]].
  { repeat split; intros; lia. }
  split; [|split].
  - intros depth s Hlen. cbn [scan_once].
    destruct s as [|c r]; [discriminate|]. simpl in Hlen.
    destruct (c =? 34)%N.
    { destruct (scanstring r []) eqn:E; try discriminate.
      exfalso. eapply scanstring_fuel; [apply le_n|exact E]. }
    pose proof (skip_ws_length r) as Hs.
    destruct (c =? 123)%N.
    { destruct depth as [|d]; [discriminate|].
      destruct (skip_ws r) as [|c1 r1]; [discriminate|]. simpl in Hs.
      destruct (c1 =? 125)%N; [discriminate|].
      destruct (c1 =? 34)%N; [|discriminate]. apply IH3. lia. }
    destruct (c =? 91)%N.
    { destruct depth as [|d]; [discriminate|].
      destruct (skip_ws r) as [|c1 r1]; [discriminate|].
      destruct (c1 =? 93)%N; [discriminate|]. apply IH2. simpl in *. lia. }
    apply scan_atom_fuel.
  - intros depth s acc Hlen. cbn [scan_items].
    destruct (scan_once md f depth s) as [v1 r| | |] eqn:E; try discriminate.
    + apply scan_once_ends, ends_before_length in E.
      pose proof (skip_ws_length r) as Hs.
      destruct (skip_ws r) as [|c r1]; [discriminate|]. simpl in Hs.
      destruct (c =? 93)%N; [discriminate|].
      destruct (c =? 44)%N; [|discriminate].
      apply IH2. pose proof (skip_ws_length r1). lia.
    + exfalso. revert E. apply IH1. lia.
  - intros depth s acc Hlen. cbn [scan_members].
    destruct (scanstring s []) as [key r| | |] eqn:E; try discriminate.
    2:{ exfalso. eapply scanstring_fuel; [apply le_n|exact E]. }
    apply scanstring_ends, ends_before_length in E.
    pose proof (skip_ws_length r) as Hs.
    destruct (skip_ws r) as [|c r1]; [discriminate|]. simpl in Hs.
    destruct (c =? 58)%N; [|discriminate].
    pose proof (skip_ws_length r1) as Hs1.
    destruct (scan_once md f depth (skip_ws r1)) as [v1 r2| | |] eqn:E2;
      try discriminate.
    2:{ exfalso. revert E2. apply IH1. lia. }
    apply scan_once_ends, ends_before_length in E2.
    pose proof (skip_ws_length r2) as Hs2.
    destruct (skip_ws r2) as [|c2 r3]; [discriminate|]. simpl in Hs2.
    destruct (c2 =? 125)%N; [discriminate|].
    destruct (c2 =? 44)%N; [|discriminate].
    pose proof (skip_ws_length r3) as Hs3.
    destruct (skip_ws r3) as [|c3 r4]; [discriminate|]. simpl in Hs3.
    destruct (c3 =? 34)%N; [|discriminate].
    apply IH3. lia.
Qed.

(** The scanner raises nothing but the two limit errors. *)
Lemma scan_abort (md fuel : nat) :
  (forall depth s e, scan_once md fuel depth s = Abort e ->
     e = RecursionError \/ e = ValueError)
  /\ (forall depth s acc e, scan_items md fuel depth s acc = Abort e ->
        e = RecursionError \/ e = ValueError)
  /\ (forall depth s acc e, scan_members md fuel depth s acc = Abort e ->
        e = RecursionError \/ e = ValueError).
Proof.
  induction fuel as [|f [IH1 [IH2 IH3]]].
  { repeat split; intros; discriminate. }
  split; [|split].
  - intros depth s e H. cbn [scan_once] in H.
    destruct s as [|c r]; [discriminate H|].
    destruct (c =? 34)%N.
    { destruct (scanstring r []) eqn:E; try discriminate H.
      exfalso. eapply scanstring_abort; [apply le_n|exact E]. }
    destruct (c =? 123)%N.
    { destruct depth as [|d]; [inversion H; now left|].
      destruct (skip_ws r) as [|c1 r1]; [discriminate H|].
      destruct (c1 =? 125)%N; [discriminate H|].
      destruct (c1 =? 34)%N; [|discriminate H]. now apply IH3 in H. }
    destruct (c =? 91)%N.
    { destruct depth as [|d]; [inversion H; now left|].
      destruct (skip_ws r) as [|c1 r1]; [discriminate H|].
      destruct (c1 =? 93)%N; [discriminate H|]. now apply IH2 in H. }
    right. now apply scan_atom_abort in H.
  - intros depth s acc e H. cbn [scan_items] in H.
    destruct (scan_once md f depth s) as [v1 r| |x|] eqn:E; try discriminate H.
    + destruct (skip_ws r) as [|c r1]; [discriminate H|].
      destruct (c =? 93)%N; [discriminate H|].
      destruct (c =? 44)%N; [|discriminate H]. now apply IH2 in H.
    + inversion H; subst. now apply IH1 in E.
  - intros depth s acc e H. cbn [scan_members] in H.
    destruct (scanstring s []) as [key r| |x|] eqn:E; try discriminate H.
    2:{ exfalso. eapply scanstring_abort; [apply le_n|exact E]. }
    destruct (skip_ws r) as [|c r1]; [discriminate H|].
    destruct (c =? 58)%N; [|discriminate H].
    destruct (scan_once md f depth (skip_ws r1)) as [v1 r2| |x|] eqn:E2;
      try discriminate H.
    + destruct (skip_ws r2) as [|c2 r3]; [discriminate H|].
      destruct (c2 =? 125)%N; [discriminate H|].
      destruct (c2 =? 44)%N; [|discriminate H].
      destruct (skip_ws r3) as [|c3 r4]; [discriminate H|].
      destruct (c3 =? 34)%N; [|discriminate H]. now apply IH3 in H.
    + inversion H; subst. now apply IH1 in E2.
Qed.

(** [decode] with the fuel [loads] gives it never runs out. *)
Lemma decode_fuel (md depth : nat) (s : pystr) :
  decode md (S (2 * List.length s)) depth s <> OutOfFuel.
Proof.
  unfold decode.
  destruct (scan_once md (S (2 * List.length s)) depth (skip_ws s)) eqn:E.
  - destruct (skip_ws rest); discriminate.
  - discriminate.
  - discriminate.
  - exfalso. revert E. apply scan_fuel. pose proof (skip_ws_length s). lia.
Qed.

(** The three ways [loads] can end: a value, [JSONDecodeError] exactly
    when the decoder rejects the text, or one of the two limit errors. *)
Lemma loads_decoding_error (runtime : Runtime.t) (s : pystr) :
  loads runtime s = Raise JSONDecodeError
  <-> decode (Runtime.int_max_str_digits runtime) (S (2 * List.length s))
             (Runtime.recursion_headroom runtime) s = Fail.
Proof.
  unfold loads.
  pose proof (decode_fuel (Runtime.int_max_str_digits runtime)
                (Runtime.recursion_headroom runtime) s) as F.
  destruct (decode _ _ _ s) as [v r| |e|] eqn:E; split; intros H;
    try discriminate; try reflexivity; try (now elim F).
  inversion H; subst. unfold decode in E.
  destruct (scan_once _ _ _ (skip_ws s)) as [v r| |x|] eqn:E1;
    try discriminate E.
  - destruct (skip_ws r); discriminate E.
  - inversion E; subst. apply scan_abort in E1. destruct E1; discriminate.
Qed.

Lemma loads_outcomes (runtime : Runtime.t) (s : pystr) :
  (exists v, loads runtime s = Return v)
  \/ loads runtime s = Raise JSONDecodeError
  \/ loads runtime s = Raise RecursionError
  \/ loads runtime s = Raise ValueError.
Proof.
  unfold loads. destruct (decode _ _ _ s) as [v r| |e|] eqn:E.
  - left. now exists v.
  - right. now left.
  - unfold decode in E.
    destruct (scan_once _ _ _ (skip_ws s)) as [v r| |x|] eqn:E1;
      try discriminate E.
    + destruct (skip_ws r); discriminate E.
    + inversion E; subst. apply scan_abort in E1.
      destruct E1 as [->| ->]; right; right; [now left|now right].
  - right. now left.
Qed.

Lemma skip_ws_split (s : pystr) : exists ws, json_ws ws /\ s = ws ++ skip_ws s.
Proof.
  induction s as [|c s [ws [Hb He]]]; simpl.
  - exists []. split; [constructor|reflexivity].
  - destruct (is_ws c) eqn:Hc.
    + exists (c :: ws). split; [now constructor|]. simpl. now f_equal.
    + exists []. split; [constructor|reflexivity].
Qed.

Lemma skip_ws_nil (s : pystr) : skip_ws s = [] -> json_ws s.
Proof.
  intros H. destruct (skip_ws_split s) as [ws [Hb He]].
  rewrite H, app_nil_r in He. now subst.
Qed.

Lemma is_ws_not_backtick (c : N) : is_ws c = true -> c <> 96%N.
Proof. intros H ->. discriminate H. Qed.

(** The text [loads] accepts is non-empty and its last character is not a
    backtick. *)
Lemma loads_last (runtime : Runtime.t) (s : pystr) (v : json) :
  loads runtime s = Return v -> exists s' c, s = s' ++ [c] /\ c <> 96%N.
Proof.
  unfold loads, decode. intros H.
  destruct (scan_once _ _ _ (skip_ws s)) as [v1 r| | |] eqn:E; try discriminate H.
  destruct (skip_ws r) eqn:Er; [|discriminate H].
  apply skip_ws_nil in Er. apply scan_once_ends in E.
  destruct E as [l [El [l' [c [-> Hc]]]]].
  destruct (skip_ws_split s) as [ws [_ Es]]. rewrite El in Es.
  subst s. destruct r as [|x r0].
  - exists (ws ++ l'), c. split; [|exact Hc].
    now rewrite app_nil_r, app_assoc.
  - destruct (exists_last (l := x :: r0)) as [r' [d Ed]]; [discriminate|].
    rewrite Ed in *. exists (ws ++ (l' ++ [c]) ++ r'), d. split.
    + now rewrite <- !app_assoc.
    + apply is_ws_not_backtick. apply Forall_app in Er as [_ Er]. now inversion Er.
Qed.

Lemma scan_once_rejects (md f depth : nat) (c : N) (s : pystr) :
  c = 96%N \/ c = 106%N -> scan_once md (S f) depth (c :: s) = Fail.
Proof. intros [->| ->]; reflexivity. Qed.

(** The text [loads] accepts is non-empty and starts neither with a
    backtick nor with the letter j. *)
Lemma loads_first (runtime : Runtime.t) (s : pystr) (v : json) :
  loads runtime s = Return v ->
  exists c s', s = c :: s' /\ c <> 96%N /\ c <> 106%N.
Proof.
  intros H. destruct s as [|c s']; [discriminate H|].
  exists c, s'. split; [reflexivity|].
  assert (G : ~ (c = 96%N \/ c = 106%N)); [|tauto].
  intros Hc. unfold loads, decode in H.
  assert (E : skip_ws (c :: s') = c :: s') by (destruct Hc as [->| ->]; reflexivity).
  rewrite E, scan_once_rejects in H by exact Hc. discriminate H.
Qed.

(** The decoder on a few texts. *)
Example loads_nested :
  loads sample_runtime (PyStr.lit " [1, -0, 2.5e3, true, null, {}] ")
  = Return (JList [JInt 1; JInt 0; JFloat (PyStr.lit "2.5e3"); JBool true; JNull;
                   JDict []]).
Proof. reflexivity. Qed.

Example loads_duplicate_key :
  loads sample_runtime
        (PyStr.lit "{" ++ PyStr.quoted "a" ++ PyStr.lit ": 1, "
         ++ PyStr.quoted "b" ++ PyStr.lit ": 2, "
         ++ PyStr.quoted "a" ++ PyStr.lit ": 3}")
  = Return (JDict [(PyStr.lit "a", JInt 3); (PyStr.lit "b", JInt 2)]).
Proof. reflexivity. Qed.

Example loads_rejects :
  loads sample_runtime [] = Raise JSONDecodeError
  /\ loads sample_runtime (PyStr.lit "{") = Raise JSONDecodeError
  /\ loads sample_runtime (PyStr.lit "[1,]") = Raise JSONDecodeError
  /\ loads sample_runtime (PyStr.lit "01") = Raise JSONDecodeError
  /\ loads sample_runtime (PyStr.lit "{} trailing") = Raise JSONDecodeError
  /\ loads sample_runtime (PyStr.lit "'single'") = Raise JSONDecodeError.
Proof. repeat split. Qed.

(** The limits: an array inside an array needs a headroom of two, and an
    integer literal of 641 digits is refused under a limit of 640; a
    literal with a fraction is not an integer and meets no limit. *)
Example loads_limits :
  loads (Runtime.mk 1 4300 false) (PyStr.lit "[[]]") = Raise RecursionError
  /\ loads (Runtime.mk 2 4300 false) (PyStr.lit "[[]]") = Return (JList [JList []])
  /\ loads (Runtime.mk 1 4300 false) (PyStr.lit "[[") = Raise RecursionError
  /\ loads (Runtime.mk 1 4300 false) (PyStr.lit "[x[") = Raise JSONDecodeError
  /\ loads (Runtime.mk 900 640 false) (List.repeat 49%N 641) = Raise ValueError
  /\ loads (Runtime.mk 900 640 false) (91%N :: List.repeat 49%N 641)
     = Raise ValueError
  /\ loads (Runtime.mk 900 640 false) (List.repeat 49%N 640)
     = Return (JInt (Json.int_of_digits (List.repeat 49%N 640)))
  /\ loads (Runtime.mk 900 0 false) (List.repeat 49%N 641)
     = Return (JInt (Json.int_of_digits (List.repeat 49%N 641)))
  /\ loads (Runtime.mk 900 640 false) (List.repeat 49%N 641 ++ PyStr.lit ".5")
     = Return (JFloat (List.repeat 49%N 641 ++ PyStr.lit ".5")).
Proof.
  repeat match goal with |- _ /\ _ => split end; vm_compute; reflexivity.
Qed.

End JsonFacts.

(** ** Fence stripping *)

Module FenceFacts.
Import PyStr PyStrFacts.

Lemma strip_blank_both (a s b : pystr) :
  blank a -> blank b -> strip (a ++ s ++ b) = strip s.
Proof.
  intros Ha Hb. unfold strip. rewrite lstrip_blank_app by assumption.
  destruct (lstrip_split s) as [ws [Hws Es]].
  destruct (lstrip_not_blank_head s) as [E|[c [r [E Hc]]]].
  - rewrite E in Es. rewrite app_nil_r in Es. subst ws.
    rewrite E. rewrite <- (app_nil_r (s ++ b)), <- app_assoc.
    rewrite lstrip_blank_app by assumption.
    now rewrite lstrip_blank_app by assumption.
  - assert (El : lstrip (s ++ b) = lstrip s ++ b).
    { rewrite Es at 1. rewrite <- app_assoc, lstrip_blank_app by assumption.
      rewrite E. simpl. now rewrite Hc. }
    rewrite El. now apply rstrip_app_blank.
Qed.


Lemma strip_split (t : pystr) :
  exists wl wr, blank wl /\ blank wr /\ t = wl ++ strip t ++ wr.
Proof.
  destruct (lstrip_split t) as [wl [Hl El]].
  destruct (rstrip_split (lstrip t)) as [wr [Hr Er]].
  exists wl, wr. repeat split; try assumption.
  unfold strip. now rewrite <- Er.
Qed.

Lemma strip_head (c : N) (m t : pystr) : strip t = c :: m -> isspace c = false.
Proof.
  unfold strip. intros H.
  destruct (rstrip_split (lstrip t)) as [wr [_ Er]]. rewrite H in Er.
  destruct (lstrip_not_blank_head t) as [E|[c' [r [E Hc]]]];
    rewrite E in Er; [discriminate Er|].
  simpl in Er. now inversion Er; subst.
Qed.

Lemma strip_last (m : pystr) (d : N) (t : pystr) :
  strip t = m ++ [d] -> isspace d = false.
Proof.
  unfold strip. intros H.
  destruct (rstrip_not_blank_last (lstrip t)) as [E|[r [c [E Hc]]]];
    rewrite E in H.
  - destruct m; discriminate H.
  - now apply app_inj_tail in H as [_ ->].
Qed.

Lemma blank_app (a b : pystr) : blank a -> blank b -> blank (a ++ b).
Proof. intros. now apply Forall_app. Qed.

(** A text whose first non-blank character is [c] does not start with a
    prefix that begins with another non-blank character. *)
Lemma startswith_blank_head (a : pystr) (c : N) (rest : pystr) (q : N) (p : pystr) :
  blank a -> isspace q = false -> q <> c ->
  startswith (a ++ c :: rest) (q :: p) = false.
Proof.
  intros Ha Hq Hne. destruct Ha as [|x a Hx _]; simpl.
  - apply N.eqb_neq in Hne. now rewrite Hne.
  - destruct (N.eqb_spec q x); [subst; congruence|reflexivity].
Qed.

Lemma endswith_app (s p : pystr) : endswith (s ++ p) p = true.
Proof. unfold endswith. rewrite rev_app_distr. apply startswith_app. Qed.

Lemma endswith_last_ne (s : pystr) (d : N) (p : pystr) (q : N) :
  d <> q -> endswith (s ++ [d]) (p ++ [q]) = false.
Proof.
  unfold endswith. rewrite !rev_app_distr. simpl. intros H.
  destruct (N.eqb_spec q d); [congruence|reflexivity].
Qed.

Lemma slice_to_minus_app (s p : pystr) :
  slice_to_minus (List.length p) (s ++ p) = s.
Proof.
  unfold slice_to_minus. rewrite length_app.
  replace (List.length s + List.length p - List.length p) with (List.length s) by lia.
  rewrite firstn_app, Nat.sub_diag, firstn_all. simpl. apply app_nil_r.
Qed.

Lemma lit_fence : lit "```" = fence.
Proof. reflexivity. Qed.

Lemma lit_fence_json : lit "```json" = fence_json.
Proof. reflexivity. Qed.

(** What the three slices leave of a text that opens with a fence: the
    opening fence goes, and so does the closing one when there is one. *)
Lemma strip_fences_fenced (opening closing ws0 a s b ws3 m m' : pystr) (c d : N) :
  opening = fence_json \/ opening = fence ->
  closing = fence \/ closing = [] ->
  blank ws0 -> blank a -> blank b -> blank ws3 ->
  s = c :: m -> s = m' ++ [d] ->
  isspace c = false -> isspace d = false ->
  c <> 96%N -> c <> 106%N -> d <> 96%N ->
  strip_fences (ws0 ++ opening ++ a ++ s ++ b ++ closing ++ ws3)
  = a ++ s ++ (match closing with [] => [] | _ => b end).
Proof.
  intros Hop Hcl H0 Ha Hb H3 Ec Ed Hc Hd Nc Nj Nd.
  assert (Hstrip : strip (ws0 ++ opening ++ a ++ s ++ b ++ closing ++ ws3)
                   = opening ++ a ++ s
                     ++ (match closing with [] => [] | _ => b ++ fence end)).
  { destruct Hcl as [->| ->].
    - replace (ws0 ++ opening ++ a ++ s ++ b ++ fence ++ ws3)
        with (ws0 ++ (opening ++ a ++ s ++ b ++ fence) ++ ws3)
        by now rewrite <- !app_assoc.
      rewrite strip_blank_both by assumption. simpl.
      destruct Hop as [->| ->].
      + eapply (strip_fixed 96 96); try reflexivity.
        exists ([96; 96; 96; 106; 115; 111; 110]%N ++ a ++ s ++ b ++ [96; 96]%N).
        now rewrite <- !app_assoc.
      + eapply (strip_fixed 96 96); try reflexivity.
        exists ([96; 96; 96]%N ++ a ++ s ++ b ++ [96; 96]%N).
        now rewrite <- !app_assoc.
    - simpl. rewrite app_nil_r.
      replace (ws0 ++ opening ++ a ++ s ++ b ++ ws3)
        with (ws0 ++ (opening ++ a ++ s) ++ (b ++ ws3))
        by now rewrite <- !app_assoc.
      rewrite strip_blank_both by (try apply blank_app; assumption).
      rewrite Ed. destruct Hop as [->| ->].
      + eapply (strip_fixed 96 d); try reflexivity; try assumption.
        exists ([96; 96; 96; 106; 115; 111; 110]%N ++ a ++ m').
        now rewrite <- !app_assoc.
      + eapply (strip_fixed 96 d); try reflexivity; try assumption.
        exists ([96; 96; 96]%N ++ a ++ m').
        now rewrite <- !app_assoc. }
  unfold strip_fences. rewrite Hstrip, lit_fence, lit_fence_json.
  set (tail := match closing with [] => [] | _ => b ++ fence end).
  assert (Hmid : (if startswith
                        (if startswith (opening ++ a ++ s ++ tail) fence_json
                         then slice_from 7 (opening ++ a ++ s ++ tail)
                         else opening ++ a ++ s ++ tail) fence
                  then slice_from 3
                        (if startswith (opening ++ a ++ s ++ tail) fence_json
                         then slice_from 7 (opening ++ a ++ s ++ tail)
                         else opening ++ a ++ s ++ tail)
                  else
                        (if startswith (opening ++ a ++ s ++ tail) fence_json
                         then slice_from 7 (opening ++ a ++ s ++ tail)
                         else opening ++ a ++ s ++ tail))
                 = a ++ s ++ tail).
  { rewrite Ec. destruct Hop as [->| ->].
    - rewrite (startswith_app fence_json). simpl slice_from. cbv beta iota.
      unfold fence. now rewrite (startswith_blank_head a c (m ++ tail) 96 [96; 96]%N).
    - assert (E1 : startswith (fence ++ a ++ (c :: m) ++ tail) fence_json = false).
      { simpl. now apply (startswith_blank_head a c (m ++ tail) 106 [115; 111; 110]%N). }
      rewrite E1. now rewrite (startswith_app fence). }
  cbv zeta. rewrite Hmid. subst tail.
  destruct Hcl as [->| ->]; simpl.
  - replace (a ++ s ++ b ++ fence) with ((a ++ s ++ b) ++ fence)
      by now rewrite <- !app_assoc.
    rewrite endswith_app. exact (slice_to_minus_app (a ++ s ++ b) fence).
  - rewrite !app_nil_r. rewrite Ed.
    rewrite app_assoc.
    change fence with ([96; 96] ++ [96])%N.
    now rewrite (endswith_last_ne (a ++ m') d [96; 96]%N 96).
Qed.


(** A text that opens with no fence and closes with none is only stripped. *)
Lemma strip_fences_plain (t m m' : pystr) (c d : N) :
  strip t = c :: m -> strip t = m' ++ [d] -> c <> 96%N -> d <> 96%N ->
  strip_fences t = strip t.
Proof.
  intros Ec Ed Nc Nd. unfold strip_fences. rewrite lit_fence, lit_fence_json.
  assert (E1 : startswith (strip t) fence_json = false).
  { rewrite Ec. now apply startswith_cons_ne. }
  assert (E2 : startswith (strip t) fence = false).
  { rewrite Ec. now apply startswith_cons_ne. }
  cbv zeta. rewrite E1, E2. rewrite Ed at 1.
  change fence with ([96; 96] ++ [96])%N.
  now rewrite endswith_last_ne.
Qed.

Lemma strip_idempotent (t : pystr) : strip (strip t) = strip t.
Proof.
  destruct (lstrip_not_blank_head t) as [E|[c [r [E Hc]]]].
  - unfold strip. rewrite E. reflexivity.
  - destruct (rstrip_not_blank_last (lstrip t)) as [E'|[r' [d [E' Hd]]]].
    + unfold strip. rewrite E'. reflexivity.
    + destruct (rstrip_split (lstrip t)) as [wr [_ Er]].
      fold (strip t) in E', Er. rewrite E in Er.
      destruct (strip t) as [|c' m] eqn:Es; [destruct r'; discriminate E'|].
      simpl in Er. inversion Er; subst c'.
      apply (strip_fixed c d _ m); try assumption; try reflexivity.
      exists r'. exact E'.
Qed.

End FenceFacts.

Import PyStr PyStrFacts FenceFacts.

(** ** Replies and what the decoder receives *)

Module ReplyFacts.

Lemma startswith_app_l (a b p : pystr) :
  startswith a p = true -> startswith (a ++ b) p = true.
Proof.
  revert a. induction p as [|x p IH]; intros a H; [reflexivity|].
  destruct a as [|y a]; [discriminate H|]. simpl in *.
  apply andb_true_iff in H as [H1 H2]. rewrite H1. simpl. now apply IH.
Qed.

Lemma endswith_split (s p : pystr) :
  endswith s p = true -> exists s0, s = s0 ++ p.
Proof.
  unfold endswith. intros H.
  assert (G : forall a q, startswith a q = true -> exists b, a = q ++ b).
  { clear. intros a q. revert a. induction q as [|x q IH]; intros a H.
    - now exists a.
    - destruct a as [|y a]; [discriminate H|]. simpl in H.
      apply andb_true_iff in H as [H1 H2]. apply N.eqb_eq in H1. subst y.
      destruct (IH a H2) as [b ->]. now exists b. }
  destruct (G _ _ H) as [b E]. exists (rev b).
  rewrite <- (rev_involutive s), E, rev_app_distr. now rewrite rev_involutive.
Qed.

Lemma lstrip_app_keep (x y : pystr) :
  lstrip x <> [] -> lstrip (x ++ y) = lstrip x ++ y.
Proof.
  induction x as [|c x IH]; simpl; [intros H; now elim H|].
  destruct (isspace c); [exact IH|reflexivity].
Qed.

(** A character that is not white space stays at the head under [rstrip]. *)
Lemma rstrip_cons (c : N) (r : pystr) :
  isspace c = false -> rstrip (c :: r) = c :: rstrip r.
Proof.
  intros Hc. unfold rstrip. simpl.
  destruct (lstrip (rev r)) as [|x l] eqn:E.
  - destruct (lstrip_split (rev r)) as [ws [Hws Es]].
    rewrite E, app_nil_r in Es. rewrite Es.
    rewrite lstrip_blank_app by assumption. simpl. now rewrite Hc.
  - rewrite lstrip_app_keep by (rewrite E; discriminate).
    rewrite E, rev_app_distr. reflexivity.
Qed.

Lemma strip_cons (c : N) (r : pystr) :
  isspace c = false -> strip (c :: r) = c :: rstrip r.
Proof.
  intros Hc. unfold strip. rewrite lstrip_head by assumption. now apply rstrip_cons.
Qed.

Lemma is_ws_isspace (c : N) : Json.is_ws c = true -> isspace c = true.
Proof.
  unfold Json.is_ws. intros H.
  repeat (apply orb_true_iff in H as [H|H]); apply N.eqb_eq in H; subst; reflexivity.
Qed.

Lemma expect_ne (a : N) (p : pystr) (c : N) (s : pystr) :
  (c =? a)%N = false -> Json.expect (a :: p) (c :: s) = None.
Proof. intros H. simpl. now rewrite N.eqb_sym, H. Qed.

(** A text that starts with a character no JSON value starts with is not a
    JSON document: the decoder stops at its first character, before any
    limit of the interpreter can be met. *)
Lemma loads_not_value_start (runtime : Runtime.t) (c : N) (s : pystr) :
  isspace c = false -> value_start c = false ->
  Json.loads runtime (c :: s) = Raise JSONDecodeError.
Proof.
  intros Hsp Hv.
  assert (Hws : Json.is_ws c = false).
  { destruct (Json.is_ws c) eqn:E; [|reflexivity].
    apply is_ws_isspace in E. congruence. }
  unfold value_start in Hv.
  repeat match goal with
         | H : (_ || _)%bool = false |- _ => apply orb_false_iff in H; destruct H
         end.
  assert (Hnum : forall md, Json.scan_number md (c :: s) = Json.Fail).
  { intros md. unfold Json.scan_number, Json.scan_integer.
    replace (c =? 45)%N with false by (symmetry; assumption).
    destruct (c =? 48)%N eqn:E0.
    - apply N.eqb_eq in E0. subst c. discriminate.
    - replace (Json.is_digit c) with false by (symmetry; assumption).
      reflexivity. }
  unfold Json.loads, Json.decode. cbn [Json.skip_ws]. rewrite Hws.
  cbn [Json.scan_once].
  replace (c =? 34)%N with false by (symmetry; assumption).
  replace (c =? 123)%N with false by (symmetry; assumption).
  replace (c =? 91)%N with false by (symmetry; assumption).
  unfold Json.scan_atom. rewrite Hnum.
  rewrite (expect_ne 110 (lit "ull") c s ltac:(assumption)
           : Json.expect (lit "null") (c :: s) = None).
  rewrite (expect_ne 116 (lit "rue") c s ltac:(assumption)
           : Json.expect (lit "true") (c :: s) = None).
  rewrite (expect_ne 102 (lit "alse") c s ltac:(assumption)
           : Json.expect (lit "false") (c :: s) = None).
  rewrite (expect_ne 78 (lit "aN") c s ltac:(assumption)
           : Json.expect (lit "NaN") (c :: s) = None).
  rewrite (expect_ne 73 (lit "nfinity") c s ltac:(assumption)
           : Json.expect (lit "Infinity") (c :: s) = None).
  rewrite (expect_ne 45 (lit "Infinity") c s ltac:(assumption)
           : Json.expect (lit "-Infinity") (c :: s) = None).
  reflexivity.
Qed.

(** A reply of blanks only, the empty one among them. *)
Lemma parse_reply_blank (runtime : Runtime.t) (text : pystr) :
  blank text -> parse_reply runtime text = Return parse_failure.
Proof.
  intros Hb.
  assert (Hs : strip text = []).
  { unfold strip. rewrite <- (app_nil_r text).
    now rewrite lstrip_blank_app by assumption. }
  unfold parse_reply, strip_fences. rewrite Hs. reflexivity.
Qed.

(** A reply whose first character, blanks apart, is neither a backtick
    nor a character a JSON value can start with. *)
Lemma parse_reply_prose (runtime : Runtime.t) (ws : pystr) (c : N) (rest : pystr) :
  blank ws -> isspace c = false -> value_start c = false -> c <> 96%N ->
  parse_reply runtime (ws ++ c :: rest) = Return parse_failure.
Proof.
  intros Hb Hsp Hv Hbt.
  assert (Hs : strip (ws ++ c :: rest) = c :: rstrip rest).
  { unfold strip. rewrite lstrip_blank_app by assumption.
    rewrite lstrip_head by assumption. now apply rstrip_cons. }
  assert (Hhead : exists x, strip (strip_fences (ws ++ c :: rest)) = c :: x).
  { unfold strip_fences. rewrite Hs, lit_fence, lit_fence_json. cbv zeta.
    assert (E1 : startswith (c :: rstrip rest) fence_json = false)
      by now apply startswith_cons_ne.
    assert (E2 : startswith (c :: rstrip rest) fence = false)
      by now apply startswith_cons_ne.
    rewrite E1, E2.
    destruct (endswith (c :: rstrip rest) fence) eqn:E3.
    - destruct (endswith_split _ _ E3) as [z Ez]. rewrite Ez.
      rewrite (slice_to_minus_app z fence : slice_to_minus 3 (z ++ fence) = z).
      destruct z as [|c' z]; [inversion Ez; congruence|].
      inversion Ez; subst c'. exists (rstrip z). now apply strip_cons.
    - exists (rstrip (rstrip rest)). now apply strip_cons. }
  destruct Hhead as [x Hx]. unfold parse_reply.
  now rewrite Hx, loads_not_value_start.
Qed.



End ReplyFacts.
Import ReplyFacts.

(** ** The identification client *)

(** What [identify_bird] does with a text reply. *)
Lemma identify_bird_text (runtime : Runtime.t)
    (generate_content : Genai.Request -> Genai.Response)
    (image_data : list Byte.byte) (text : pystr) :
  generate_content (identify_request image_data) = Return (Some text) ->
  identify_bird runtime generate_content image_data
  = ([identify_request image_data], parse_reply runtime text).
Proof. intros H. unfold identify_bird. now rewrite H. Qed.

(** C4: a reply [t] that decodes to [r], put inside a fenced block that
    opens with three backticks and json or three backticks alone, with any
    blanks around the fences and the text, gives the same result [r] as [t]
    itself: the slices remove the opening fence and the closing fence, when
    there is one, and nothing else. *)
Theorem fenced_reply_same_result
    (runtime : Runtime.t)
    (generate_content : Genai.Request -> Genai.Response)
    (image_data : list Byte.byte)
    (t : pystr) (r : json) (opening closing ws0 ws1 ws2 ws3 : pystr) :
  Json.loads runtime (strip t) = Return r ->
  opening = lit "```json" \/ opening = lit "```" ->
  closing = lit "```" \/ closing = [] ->
  blank ws0 -> blank ws1 -> blank ws2 -> blank ws3 ->
  generate_content (identify_request image_data)
    = Return (Some (ws0 ++ opening ++ ws1 ++ t ++ ws2 ++ closing ++ ws3)) ->
  snd (identify_bird runtime generate_content image_data) = Return r
  /\ parse_reply runtime t = Return r
  /\ strip (strip_fences (ws0 ++ opening ++ ws1 ++ t ++ ws2 ++ closing ++ ws3))
     = strip t
  /\ (closing = lit "```" ->
      strip_fences (ws0 ++ opening ++ ws1 ++ t ++ ws2 ++ closing ++ ws3)
      = ws1 ++ t ++ ws2).
Proof.
  intros Hr Hop Hcl H0 H1 H2 H3 Hg.
  destruct (JsonFacts.loads_first _ _ _ Hr) as [c [m [Ec [Nc Nj]]]].
  destruct (JsonFacts.loads_last _ _ _ Hr) as [m' [d [Ed Nd]]].
  pose proof (strip_head _ _ _ Ec) as Sc.
  pose proof (strip_last _ _ _ Ed) as Sd.
  destruct (strip_split t) as [wl [wr [Hl [Hwr Et]]]].
  assert (Hf : strip_fences (ws0 ++ opening ++ ws1 ++ t ++ ws2 ++ closing ++ ws3)
               = (ws1 ++ wl) ++ strip t
                 ++ (match closing with [] => [] | _ => wr ++ ws2 end)).
  { rewrite <- (strip_fences_fenced opening closing ws0 (ws1 ++ wl) (strip t)
                  (wr ++ ws2) ws3 m m' c d);
      try assumption; try (now apply blank_app).
    rewrite Et at 1. now rewrite <- !app_assoc. }
  assert (Hs : strip (strip_fences
                 (ws0 ++ opening ++ ws1 ++ t ++ ws2 ++ closing ++ ws3)) = strip t).
  { rewrite Hf. rewrite strip_blank_both.
    - apply strip_idempotent.
    - now apply blank_app.
    - destruct closing; [constructor|now apply blank_app]. }
  assert (Hp : parse_reply runtime t = Return r).
  { unfold parse_reply.
    rewrite (strip_fences_plain t m m' c d) by assumption.
    now rewrite strip_idempotent, Hr. }
  split; [|split; [exact Hp|split; [exact Hs|]]].
  - rewrite (identify_bird_text _ _ _ _ Hg). simpl.
    unfold parse_reply. now rewrite Hs, Hr.
  - intros ->. rewrite Hf. simpl. rewrite Et at 2. now rewrite <- !app_assoc.
Qed.

Lemma fenced_reply_same_result_witness :
  snd (identify_bird sample_runtime
         (test_double (lit "```json
" ++ reply_text "Northern Cardinal" "Cardinalis cardinalis" "The mascot." "high" true
            ++ lit "
```
"))
         [])
  = Return (reply_value "Northern Cardinal" "Cardinalis cardinalis" "The mascot." "high" true).
Proof.
  refine (proj1 (fenced_reply_same_result sample_runtime _ []
    (reply_text "Northern Cardinal" "Cardinalis cardinalis" "The mascot." "high" true)
    (reply_value "Northern Cardinal" "Cardinalis cardinalis" "The mascot." "high" true)
    (lit "```json") (lit "```") [] [10%N] [10%N] [10%N] _ _ _ _ _ _ _ _)).
  - vm_compute. reflexivity.
  - left. reflexivity.
  - left. reflexivity.
  - constructor.
  - repeat constructor.
  - repeat constructor.
  - repeat constructor.
  - reflexivity.
Defined.

(** C1 (as amended): when [json.loads] rejects the model's reply, stripped
    of its fences, with [JSONDecodeError], [identify_bird] does not raise: it
    returns the fixed failure dict, which has the five fields of the schema
    with their types and whose [wesleyan_fact] is the could-not-parse
    message. So it is for a reply of blanks only and for a reply that
    starts, blanks apart, with a character that is neither a backtick nor
    one a JSON value can start with. The [except] clause catches nothing
    else: when [json.loads] meets a limit of the interpreter (an array or
    object nested deeper than the recursion headroom, an integer literal
    longer than the digit limit), its [RecursionError] or [ValueError]
    leaves [identify_bird]. *)
Theorem undecodable_reply_gives_parse_failure
    (runtime : Runtime.t)
    (generate_content : Genai.Request -> Genai.Response)
    (image_data : list Byte.byte) (text : pystr) :
  generate_content (identify_request image_data) = Return (Some text) ->
  (Json.loads runtime (strip (strip_fences text)) = Raise JSONDecodeError ->
   snd (identify_bird runtime generate_content image_data) = Return parse_failure)
  /\ (blank text ->
      snd (identify_bird runtime generate_content image_data)
      = Return parse_failure)
  /\ (forall ws c rest,
        text = ws ++ c :: rest -> blank ws ->
        isspace c = false -> value_start c = false -> c <> 96%N ->
        snd (identify_bird runtime generate_content image_data)
        = Return parse_failure)
  /\ (forall e,
        Json.loads runtime (strip (strip_fences text)) = Raise e ->
        e <> JSONDecodeError ->
        (e = RecursionError \/ e = ValueError)
        /\ snd (identify_bird runtime generate_content image_data) = Raise e)
  /\ BirdIdentificationResponse.conforms parse_failure = true
  /\ BirdIdentificationResponse.of_json parse_failure
     = Some (BirdIdentificationResponse.mk (lit "Unknown") (lit "Unknown")
          (lit "Could not parse the identification result. Please try again.")
          (lit "none") false).
Proof.
  intros Hg. rewrite (identify_bird_text _ _ _ _ Hg). cbn [snd].
  split; [|split; [|split; [|split; [|split]]]].
  - intros Hl. unfold parse_reply. now rewrite Hl.
  - apply parse_reply_blank.
  - intros ws c rest -> Hb Hsp Hv Hbt. now apply parse_reply_prose.
  - intros e Hl He. unfold parse_reply. rewrite Hl.
    destruct (JsonFacts.loads_outcomes runtime (strip (strip_fences text)))
      as [[v Hv]|[Hj|[Hr|Hv]]]; rewrite Hl in *;
      try discriminate; try (inversion Hj; subst; now elim He).
    + inversion Hr; subst. split; [now left|reflexivity].
    + inversion Hv; subst. split; [now right|reflexivity].
  - reflexivity.
  - reflexivity.
Qed.

Lemma undecodable_reply_witness :
  (snd (identify_bird sample_runtime (test_double []) []) = Return parse_failure)
  /\ (snd (identify_bird sample_runtime (test_double (lit "{")) [])
      = Return parse_failure)
  /\ (snd (identify_bird sample_runtime
             (test_double (lit "I think this is an American Robin.")) [])
        = Return parse_failure)
  /\ (snd (identify_bird sample_runtime
             (test_double (lit "This is an American Robin.")) [])
        = Return parse_failure).
Proof.
  split; [|split; [|split]].
  - refine (proj1 (proj2 (undecodable_reply_gives_parse_failure sample_runtime
                            (test_double []) [] [] _)) _);
      [reflexivity|constructor].
  - refine (proj1 (undecodable_reply_gives_parse_failure sample_runtime
                     (test_double (lit "{")) [] (lit "{") _) _);
      reflexivity.
  - refine (proj1 (undecodable_reply_gives_parse_failure sample_runtime
                     (test_double (lit "I think this is an American Robin.")) []
                     (lit "I think this is an American Robin.") _) _);
      reflexivity.
  - refine (proj1 (proj2 (proj2 (undecodable_reply_gives_parse_failure
                     sample_runtime
                     (test_double (lit "This is an American Robin.")) []
                     (lit "This is an American Robin.") _)))
              [] 84%N (lit "his is an American Robin.") _ _ _ _ _);
      try reflexivity; [constructor|discriminate].
Defined.

(** C1 as stated fails: the reply [{}] does not decode to a value of the
    schema, yet [identify_bird] returns the empty dict it decodes to, which
    is neither the failure dict nor a value of the schema. *)
Lemma empty_object_reply_returned_as_is :
  (forall v, Json.loads sample_runtime (strip (strip_fences (lit "{}"))) = Return v ->
             BirdIdentificationResponse.conforms v = false)
  /\ snd (identify_bird sample_runtime (test_double (lit "{}")) [])
     = Return (JDict [])
  /\ JDict [] <> parse_failure
  /\ BirdIdentificationResponse.conforms (JDict []) = false.
Proof.
  split; [|split; [|split]].
  - intros v H. vm_compute in H. now inversion H.
  - reflexivity.
  - discriminate.
  - reflexivity.
Qed.

(** The replies [json.loads] gives up on without a decoding error: with a
    headroom of 900 calls, 901 opening brackets; with the digit limit of
    4300, an integer literal of 4301 digits. [identify_bird] raises. *)
Example limit_errors_leave_identify_bird :
  snd (identify_bird sample_runtime (test_double (List.repeat 91%N 901)) [])
  = Raise RecursionError
  /\ snd (identify_bird sample_runtime (test_double (List.repeat 91%N 900)) [])
     = Return parse_failure
  /\ snd (identify_bird sample_runtime
            (test_double (91%N :: List.repeat 49%N 4301)) [])
     = Raise ValueError
  /\ snd (identify_bird sample_runtime
            (test_double (91%N :: List.repeat 49%N 4300)) [])
     = Return parse_failure.
Proof.
  repeat match goal with |- _ /\ _ => split end; vm_compute; reflexivity.
Qed.




(** A reply with no fence, and the same reply through POST /identify. *)
Example well_formed_reply_examples :
  snd (identify_bird sample_runtime
         (test_double (reply_text "Blue Jay" "Cyanocitta cristata" "Seen on Foss Hill." "medium" true))
         [])
  = Return (reply_value "Blue Jay" "Cyanocitta cristata" "Seen on Foss Hill." "medium" true)
  /\ snd (identify_bird_endpoint sample_runtime
            (test_double (reply_text "Blue Jay" "Cyanocitta cristata" "Seen on Foss Hill." "medium" true
                          ++ lit "
```"))
            sample_init (Some (lit "image/jpeg")) [] alice)
     = Return (BirdIdentificationResponse.mk (lit "Blue Jay")
                 (lit "Cyanocitta cristata") (lit "Seen on Foss Hill.")
                 (lit "medium") true).
Proof. split; vm_compute; reflexivity. Qed.

Lemma pystr_eqb_eq (a b : pystr) : PyStr.eqb a b = true <-> a = b.
Proof.
  unfold PyStr.eqb. destruct (list_eq_dec N.eq_dec a b); split; intros H;
    try reflexivity; try assumption; try discriminate; contradiction.
Qed.

Lemma in_field_guide_spec (name : pystr) :
  in_field_guide name = true <-> In name WESLEYAN_FIELD_GUIDE_BIRDS.
Proof.
  unfold in_field_guide. rewrite existsb_exists. split.
  - intros [x [Hin He]]. apply pystr_eqb_eq in He. now subst.
  - intros H. exists name. split; [assumption|]. now apply pystr_eqb_eq.
Qed.

(** C2 (as amended): [identify_bird] never computes the flag. For a reply
    that decodes, the result is the decoded reply itself, so its
    [in_wesleyan_field_guide] is the one the model wrote; for a reply that
    [json.loads] rejects with [JSONDecodeError], the result is the failure
    dict, whose flag (false) does say whether its common name (Unknown) is
    in the allow-list; and when [json.loads] raises another exception there
    is no result: [identify_bird] raises it. *)
Theorem field_guide_flag_comes_from_reply
    (runtime : Runtime.t)
    (generate_content : Genai.Request -> Genai.Response)
    (image_data : list Byte.byte) (text : pystr) :
  generate_content (identify_request image_data) = Return (Some text) ->
  match Json.loads runtime (strip (strip_fences text)) with
  | Return reply =>
      snd (identify_bird runtime generate_content image_data) = Return reply
  | Raise JSONDecodeError =>
      snd (identify_bird runtime generate_content image_data)
      = Return parse_failure
      /\ flag_is_membership parse_failure
  | Raise e =>
      snd (identify_bird runtime generate_content image_data) = Raise e
  end.
Proof.
  intros Hg. rewrite (identify_bird_text _ _ _ _ Hg). cbn [snd].
  unfold parse_reply.
  destruct (Json.loads runtime (strip (strip_fences text))) as [reply|e];
    [reflexivity|].
  destruct e; try reflexivity.
  split; [reflexivity|]. eexists. split; reflexivity.
Qed.

Lemma field_guide_flag_comes_from_reply_witness :
  snd (identify_bird sample_runtime
         (test_double (reply_text "Northern Cardinal" "Cardinalis cardinalis" "The mascot." "high" true))
         [])
  = Return (reply_value "Northern Cardinal" "Cardinalis cardinalis" "The mascot." "high" true).
Proof.
  exact (field_guide_flag_comes_from_reply sample_runtime
           (test_double (reply_text "Northern Cardinal" "Cardinalis cardinalis" "The mascot." "high" true))
           []
           (reply_text "Northern Cardinal" "Cardinalis cardinalis" "The mascot." "high" true)
           eq_refl).
Defined.

(** C2 as stated fails: a reply that names a Pigeon and sets the flag is
    returned as it is, flag set, although Pigeon is not in the allow-list. *)
Lemma pigeon_flagged_as_field_guide_bird :
  snd (identify_bird sample_runtime
         (test_double (reply_text "Pigeon" "Columba livia" "Common on campus." "high" true))
         [])
  = Return (reply_value "Pigeon" "Columba livia" "Common on campus." "high" true)
  /\ BirdIdentificationResponse.of_json
       (reply_value "Pigeon" "Columba livia" "Common on campus." "high" true)
     = Some (BirdIdentificationResponse.mk (lit "Pigeon") (lit "Columba livia")
               (lit "Common on campus.") (lit "high") true)
  /\ in_field_guide (lit "Pigeon") = false.
Proof. split; [|split]; reflexivity. Qed.



(** ** The store and the handlers *)

Module StoreFacts.

Lemma unique_NoDup (l : list Z) : Db.unique Z.eqb l = true <-> NoDup l.
Proof.
  induction l as [|x l IH]; simpl.
  - split; [constructor|reflexivity].
  - rewrite andb_true_iff, negb_true_iff, IH. split.
    + intros [Hx Hl]. constructor; [|assumption].
      intros Hin. apply not_true_iff_false in Hx. apply Hx.
      apply existsb_exists. exists x. split; [assumption|apply Z.eqb_refl].
    + intros H. inversion H as [|? ? Hx Hl]; subst. split; [|assumption].
      apply not_true_iff_false. intros He. apply existsb_exists in He.
      destruct He as [y [Hy E]]. apply Z.eqb_eq in E. now subst.
Qed.

Lemma keys_ok_spec (db : Store) : Db.keys_ok db = true <-> KeysOk db.
Proof.
  unfold Db.keys_ok, KeysOk.
  rewrite !andb_true_iff, !unique_NoDup, !forallb_forall, !Forall_forall.
  split.
  - intros [[[H1 H2] H3] H4]. repeat split; try assumption.
    + intros u Hu. apply Z.ltb_lt. now apply H3.
    + intros s Hs. apply Z.ltb_lt. now apply H4.
  - intros [H1 [H2 [H3 H4]]]. repeat split; try assumption.
    + intros u Hu. apply Z.ltb_lt. now apply H3.
    + intros s Hs. apply Z.ltb_lt. now apply H4.
Qed.

(** Rows of a table with distinct keys are told apart by their key. *)
Lemma NoDup_map_eq {A} (f : A -> Z) (l : list A) (x y : A) :
  NoDup (List.map f l) -> In x l -> In y l -> f x = f y -> x = y.
Proof.
  induction l as [|a l IH]; simpl; [contradiction|].
  intros H Hx Hy E. inversion H as [|? ? Ha Hl]; subst.
  destruct Hx as [->|Hx], Hy as [->|Hy]; try reflexivity.
  - elim Ha. rewrite E. now apply in_map.
  - elim Ha. rewrite <- E. now apply in_map.
  - now apply IH.
Qed.

Lemma find_none_iff {A} (p : A -> bool) (l : list A) :
  List.find p l = None <-> forall x, In x l -> p x = false.
Proof.
  split; [apply find_none|].
  intros H. destruct (List.find p l) eqn:E; [|reflexivity].
  apply find_some in E as [Hin Hp]. rewrite (H _ Hin) in Hp. discriminate.
Qed.

End StoreFacts.
Import StoreFacts.

(** C6: a registration whose username is that of an existing account, or
    whose email is that of an existing account, is answered with status 400
    and leaves the store as it was, whatever its other fields; so at the
    handler and so behind the validation of the body. *)
Theorem register_rejects_taken_username_or_email
    (get_password_hash : pystr -> pystr) (EmailStr : pystr -> option pystr)
    (now : datetime) (body user : UserCreate.t) (db : Store) (existing : User.t) :
  In existing (users db) ->
  User.username existing = UserCreate.username user
  \/ User.email existing = UserCreate.email user ->
  register get_password_hash now user db
  = (db, Raise (HTTPException 400 (PyStr.lit "Username or email already registered")))
  /\ status_of (snd (register get_password_hash now user db)) = 400%Z
  /\ users (fst (register get_password_hash now user db)) = users db
  /\ (UserCreate.validate EmailStr body = Some user ->
      post_auth_register get_password_hash EmailStr now body db
      = (db, Raise (HTTPException 400
                      (PyStr.lit "Username or email already registered")))).
Proof.
  intros Hin Htaken.
  assert (E : register get_password_hash now user db
     = (db, Raise (HTTPException 400 (PyStr.lit "Username or email already registered")))).
  { unfold register.
    destruct (List.find _ (users db)) eqn:F; [reflexivity|].
    exfalso. apply find_none with (x := existing) in F; [|assumption].
    apply orb_false_iff in F as [F1 F2].
    destruct Htaken as [H|H]; apply pystr_eqb_eq in H; congruence. }
  rewrite E. split; [reflexivity|split; [reflexivity|split; [reflexivity|]]].
  intros Hv. unfold post_auth_register. now rewrite Hv.
Qed.

Lemma register_rejects_taken_witness :
  post_auth_register sample_hash sample_email 1700000300%Z
    (UserCreate.mk (PyStr.lit "alice") (PyStr.lit "another@wesleyan.edu")
                   (PyStr.lit "secret-1") None)
    sample_store
  = (sample_store,
     Raise (HTTPException 400 (PyStr.lit "Username or email already registered")))
  /\ post_auth_register sample_hash sample_email 1700000300%Z
       (UserCreate.mk (PyStr.lit "carol") (PyStr.lit "bob@wesleyan.edu")
                      (PyStr.lit "secret-2") None)
       sample_store
     = (sample_store,
        Raise (HTTPException 400 (PyStr.lit "Username or email already registered"))).
Proof.
  split.
  - refine (proj2 (proj2 (proj2
      (register_rejects_taken_username_or_email sample_hash sample_email
         1700000300%Z
         (UserCreate.mk (PyStr.lit "alice") (PyStr.lit "another@wesleyan.edu")
                        (PyStr.lit "secret-1") None)
         (UserCreate.mk (PyStr.lit "alice") (PyStr.lit "another@wesleyan.edu")
                        (PyStr.lit "secret-1") None)
         sample_store alice _ _))) _).
    + left. reflexivity.
    + left. reflexivity.
    + reflexivity.
  - refine (proj2 (proj2 (proj2
      (register_rejects_taken_username_or_email sample_hash sample_email
         1700000300%Z
         (UserCreate.mk (PyStr.lit "carol") (PyStr.lit "bob@wesleyan.edu")
                        (PyStr.lit "secret-2") None)
         (UserCreate.mk (PyStr.lit "carol") (PyStr.lit "bob@wesleyan.edu")
                        (PyStr.lit "secret-2") None)
         sample_store bob _ _))) _).
    + right. left. reflexivity.
    + right. reflexivity.
    + reflexivity.
Defined.

(** C3: in a store whose keys are well formed, a sighting of account [a]
    looked up by its id by another account [b] is not found: GET and DELETE
    both raise the 404 of an id that does not exist at all, and the DELETE
    leaves the store, the sighting included, as it was. *)
Theorem other_account_sighting_not_found
    (db : Store) (a b : User.t) (s : Sighting.t) :
  Db.keys_ok db = true ->
  In a (users db) -> In b (users db) -> a <> b ->
  In s (sightings db) -> Sighting.user_id s = User.id a ->
  get_sighting (Sighting.id s) b db = (db, Raise not_found)
  /\ delete_sighting (Sighting.id s) b db = (db, Raise not_found)
  /\ status_of (snd (get_sighting (Sighting.id s) b db)) = 404%Z
  /\ status_of (snd (delete_sighting (Sighting.id s) b db)) = 404%Z
  /\ In s (sightings (fst (delete_sighting (Sighting.id s) b db)))
  /\ (forall absent : Z,
        (forall s', In s' (sightings db) -> Sighting.id s' <> absent) ->
        snd (get_sighting absent b db) = snd (get_sighting (Sighting.id s) b db)
        /\ snd (delete_sighting absent b db)
           = snd (delete_sighting (Sighting.id s) b db)).
Proof.
  intros Hk Ha Hb Hab Hs Hown. apply keys_ok_spec in Hk as [Ku [Ks _]].
  assert (Hid : User.id b <> User.id a).
  { intros E. apply Hab. symmetry. now apply (NoDup_map_eq User.id (users db)). }
  assert (Hnone : owned_sighting (Sighting.id s) b db = None).
  { unfold owned_sighting. apply find_none_iff. intros s' Hs'.
    apply andb_false_iff.
    destruct (Z.eqb_spec (Sighting.id s') (Sighting.id s)) as [E|E]; [right|now left].
    apply (NoDup_map_eq Sighting.id (sightings db)) in E; try assumption. subst s'.
    apply Z.eqb_neq. congruence. }
  assert (Hg : get_sighting (Sighting.id s) b db = (db, Raise not_found)).
  { unfold get_sighting. now rewrite Hnone. }
  assert (Hd : delete_sighting (Sighting.id s) b db = (db, Raise not_found)).
  { unfold delete_sighting. now rewrite Hnone. }
  rewrite Hg, Hd. repeat split; try assumption.
  - unfold get_sighting.
    replace (owned_sighting absent b db) with (@None Sighting.t); [reflexivity|].
    symmetry. apply find_none_iff. intros s' Hs'. apply andb_false_iff. left.
    apply Z.eqb_neq. now apply H.
  - unfold delete_sighting.
    replace (owned_sighting absent b db) with (@None Sighting.t); [reflexivity|].
    symmetry. apply find_none_iff. intros s' Hs'. apply andb_false_iff. left.
    apply Z.eqb_neq. now apply H.
Qed.

Lemma other_account_sighting_witness :
  get_sighting (Sighting.id robin_sighting) bob sample_store
  = (sample_store, Raise not_found)
  /\ delete_sighting (Sighting.id robin_sighting) bob sample_store
     = (sample_store, Raise not_found).
Proof.
  pose proof (other_account_sighting_not_found sample_store alice bob
                robin_sighting eq_refl (or_introl eq_refl)
                (or_intror (or_introl eq_refl)) ltac:(discriminate)
                (or_introl eq_refl) eq_refl) as H.
  split; apply H.
Defined.

Module EvolveFacts.

Lemma same_identity_refl (u : User.t) : same_identity u u.
Proof. repeat split. Qed.

Lemma evolves_refl (u : User.t) : evolves u u.
Proof. split; [apply same_identity_refl|trivial]. Qed.

Lemma evolves_trans (u v w : User.t) : evolves u v -> evolves v w -> evolves u w.
Proof.
  intros [[A1 [A2 [A3 A4]]] A5] [[B1 [B2 [B3 B4]]] B5].
  repeat split; try congruence. auto.
Qed.

Lemma updated_evolves (upd : UserUpdate.t) (cu : User.t) : evolves cu (updated upd cu).
Proof.
  unfold updated. destruct upd as [e o]. simpl.
  destruct (truthy e), e, o; repeat split; simpl; trivial; discriminate.
Qed.

Lemma updated_orcid_id (upd : UserUpdate.t) (cu : User.t) :
  UserUpdate.orcid_id upd = None -> User.orcid_id (updated upd cu) = User.orcid_id cu.
Proof.
  unfold updated. destruct upd as [e o]. simpl. intros ->.
  destruct (truthy e), e; reflexivity.
Qed.

Lemma updated_email (upd : UserUpdate.t) (cu : User.t) :
  truthy (UserUpdate.email upd) = false -> User.email (updated upd cu) = User.email cu.
Proof.
  unfold updated. destruct upd as [e o]. simpl. intros ->. now destruct o.
Qed.

Lemma update_user_profile_eq (upd : UserUpdate.t) (cu : User.t) (db : Store) :
  update_user_profile upd cu db
  = if Db.users_ok (users (Db.update_user (updated upd cu) db))
    then (Db.update_user (updated upd cu) db, Return (UserResponse_of (updated upd cu)))
    else (db, Raise IntegrityError).
Proof. reflexivity. Qed.

Lemma update_user_ids (row : User.t) (db : Store) :
  List.map User.id (users (Db.update_user row db)) = List.map User.id (users db).
Proof.
  unfold Db.update_user. simpl. rewrite map_map. apply map_ext.
  intros r. destruct (Z.eqb_spec (User.id r) (User.id row)); congruence.
Qed.

Lemma update_user_keys (row : User.t) (db : Store) :
  KeysOk db -> KeysOk (Db.update_user row db).
Proof.
  intros [K1 [K2 [K3 K4]]]. unfold KeysOk. rewrite update_user_ids.
  repeat split; try assumption.
  simpl. apply Forall_map. revert K3. apply Forall_impl. intros r Hr.
  destruct (Z.eqb_spec (User.id r) (User.id row)) as [E|E]; [now rewrite <- E|assumption].
Qed.

(** After the UPDATE every former row is still there: the row of the key
    is the new one, the others are untouched. *)
Lemma update_user_rows (row cu : User.t) (db : Store) (u : User.t) :
  KeysOk db -> In cu (users db) -> User.id row = User.id cu -> In u (users db) ->
  exists u', In u' (users (Db.update_user row db))
    /\ (User.id u = User.id cu -> u' = row)
    /\ (User.id u <> User.id cu -> u' = u).
Proof.
  intros K Hcu Hid Hu.
  exists (if (User.id u =? User.id row)%Z then row else u). split; [|split].
  - unfold Db.update_user. simpl.
    apply (in_map (fun r => if (User.id r =? User.id row)%Z then row else r)) in Hu.
    exact Hu.
  - intros E. rewrite Hid. now rewrite (proj2 (Z.eqb_eq _ _) E).
  - intros E. rewrite Hid. now rewrite (proj2 (Z.eqb_neq _ _) E).
Qed.

Lemma updated_id (upd : UserUpdate.t) (cu : User.t) :
  User.id (updated upd cu) = User.id cu.
Proof. apply (updated_evolves upd cu). Qed.

Lemma update_user_profile_keys (upd : UserUpdate.t) (cu : User.t) (db : Store) :
  KeysOk db -> KeysOk (fst (update_user_profile upd cu db)).
Proof.
  intros K. rewrite update_user_profile_eq.
  destruct (Db.users_ok _); simpl; [now apply update_user_keys|assumption].
Qed.

Lemma update_user_profile_evolves (upd : UserUpdate.t) (cu : User.t) (db : Store)
    (u : User.t) :
  KeysOk db -> In cu (users db) -> In u (users db) ->
  exists u', In u' (users (fst (update_user_profile upd cu db)))
    /\ evolves u u' /\ (User.id u <> User.id cu -> u' = u).
Proof.
  intros K Hcu Hu. rewrite update_user_profile_eq.
  destruct (Db.users_ok _); simpl.
  - destruct (update_user_rows (updated upd cu) cu db u K Hcu (updated_id upd cu) Hu)
      as [u' [Hin [Hsame Hother]]].
    exists u'. split; [assumption|]. split; [|assumption].
    destruct (Z.eq_dec (User.id u) (User.id cu)) as [E|E].
    + rewrite (Hsame E).
      assert (u = cu) as ->.
      { destruct K as [K1 _]. now apply (StoreFacts.NoDup_map_eq User.id (users db)). }
      apply updated_evolves.
    + rewrite (Hother E). apply evolves_refl.
  - exists u. split; [assumption|]. split; [apply evolves_refl|reflexivity].
Qed.

Lemma add_user_keys (mk_row : Z -> User.t) (db : Store) :
  (forall k, User.id (mk_row k) = k) ->
  KeysOk db -> KeysOk (fst (Db.add_user mk_row db)).
Proof.
  intros Hid [K1 [K2 [K3 K4]]]. unfold KeysOk, Db.add_user. simpl.
  repeat split; try assumption.
  - rewrite map_app. simpl. rewrite Hid.
    apply NoDup_app; [assumption|repeat constructor; intros []|].
    intros k Hk [<-|[]]. apply in_map_iff in Hk as [u [E Hu]].
    rewrite Forall_forall in K3. specialize (K3 u Hu). lia.
  - apply Forall_app. split.
    + revert K3. apply Forall_impl. intros; lia.
    + repeat constructor. rewrite Hid. lia.
Qed.

Lemma add_sighting_keys (mk_row : Z -> Sighting.t) (db : Store) :
  (forall k, Sighting.id (mk_row k) = k) ->
  KeysOk db -> KeysOk (fst (Db.add_sighting mk_row db)).
Proof.
  intros Hid [K1 [K2 [K3 K4]]]. unfold KeysOk, Db.add_sighting. simpl.
  repeat split; try assumption.
  - rewrite map_app. simpl. rewrite Hid.
    apply NoDup_app; [assumption|repeat constructor; intros []|].
    intros k Hk [<-|[]]. apply in_map_iff in Hk as [u [E Hu]].
    rewrite Forall_forall in K4. specialize (K4 u Hu). lia.
  - apply Forall_app. split.
    + revert K4. apply Forall_impl. intros; lia.
    + repeat constructor. rewrite Hid. lia.
Qed.

Lemma NoDup_map_filter {A} (f : A -> Z) (p : A -> bool) (l : list A) :
  NoDup (List.map f l) -> NoDup (List.map f (List.filter p l)).
Proof.
  induction l as [|a l IH]; simpl; [trivial|].
  intros H. inversion H as [|? ? Ha Hl]; subst.
  destruct (p a); simpl; [|now apply IH].
  constructor; [|now apply IH].
  intros Hin. apply Ha. apply in_map_iff in Hin as [x [E Hx]].
  apply filter_In in Hx as [Hx _]. rewrite <- E. now apply in_map.
Qed.

Lemma delete_sighting_row_keys (row : Sighting.t) (db : Store) :
  KeysOk db -> KeysOk (Db.delete_sighting_row row db).
Proof.
  intros [K1 [K2 [K3 K4]]]. unfold KeysOk, Db.delete_sighting_row. simpl.
  repeat split; try assumption.
  - now apply NoDup_map_filter.
  - rewrite Forall_forall in *. intros s Hs. apply filter_In in Hs as [Hs _]. auto.
Qed.

End EvolveFacts.

Section ServeFacts.
Import EvolveFacts.

Variable get_password_hash : pystr -> pystr.
Variable verify_password : pystr -> pystr -> bool.
Variable create_access_token : pystr -> datetime -> pystr.
Variable EmailStr : pystr -> option pystr.
Variable runtime : Runtime.t.
Variable generate_content : Genai.Request -> Genai.Response.
Variable BirdIdentificationResponse_init
  : json -> outcome BirdIdentificationResponse.t.

Local Abbreviation serve' :=
  (serve get_password_hash verify_password create_access_token
         EmailStr runtime generate_content BirdIdentificationResponse_init).
Local Abbreviation serve_all' :=
  (serve_all get_password_hash verify_password create_access_token
             EmailStr runtime generate_content BirdIdentificationResponse_init).

Lemma get_current_user_In (credential : option pystr) (db : Store) (u : User.t) :
  get_current_user credential db = Return u -> In u (users db).
Proof.
  unfold get_current_user. destruct credential as [subject|]; [|discriminate].
  destruct (List.find _ (users db)) eqn:F; [|discriminate].
  intros H. inversion H; subst. now apply find_some in F.
Qed.

Lemma step_ok_same_users (db db' : Store) :
  KeysOk db' -> users db' = users db -> step_ok db db'.
Proof.
  intros K E. split; [assumption|]. intros u Hu. exists u. rewrite E.
  split; [assumption|apply evolves_refl].
Qed.

Lemma step_ok_refl (db : Store) : KeysOk db -> step_ok db db.
Proof. intros K. now apply step_ok_same_users. Qed.

Lemma authenticated_step {A} (credential : option pystr) (db : Store)
    (handler : User.t -> Store * outcome A) :
  KeysOk db ->
  (forall cu, In cu (users db) -> step_ok db (fst (handler cu))) ->
  step_ok db (fst (authenticated credential db handler)).
Proof.
  intros K H. unfold authenticated.
  destruct (get_current_user credential db) as [cu|e] eqn:G.
  - apply H. now apply get_current_user_In in G.
  - now apply step_ok_refl.
Qed.

Lemma serve_step (now : datetime) (req : request) (db : Store) :
  KeysOk db -> step_ok db (fst (serve' now req db)).
Proof.
  intros K. unfold serve. destruct req as [|user|username password|c|c user_update|c ct img|c sbody
                     |c skip limit|c sid|c sid]; unfold respond; cbn [fst].
  - now apply step_ok_refl.
  - unfold post_auth_register.
    destruct (UserCreate.validate EmailStr user) as [valid|];
      [|now apply step_ok_refl].
    unfold register. destruct (List.find _ (users db)); [now apply step_ok_refl|].
    split.
    + now apply add_user_keys.
    + intros u Hu. exists u. split; [|apply evolves_refl].
      simpl. apply in_or_app. now left.
  - unfold login. destruct (List.find _ (users db)) as [user|];
      [destruct (verify_password _ _)|]; now apply step_ok_refl.
  - apply authenticated_step; [assumption|]. intros cu _. now apply step_ok_refl.
  - apply authenticated_step; [assumption|]. intros cu Hcu.
    unfold put_users_me.
    destruct (UserUpdate.validate EmailStr user_update) as [valid|];
      [|now apply step_ok_refl].
    split.
    + now apply update_user_profile_keys.
    + intros u Hu.
      destruct (update_user_profile_evolves valid cu db u K Hcu Hu)
        as [u' [Hin [He _]]].
      now exists u'.
  - apply authenticated_step; [assumption|]. intros cu _. now apply step_ok_refl.
  - apply authenticated_step; [assumption|]. intros cu _.
    unfold post_sightings. destruct (SightingCreate.validate _ sbody);
      [|now apply step_ok_refl].
    apply step_ok_same_users; [|reflexivity].
    unfold create_sighting. now apply add_sighting_keys.
  - apply authenticated_step; [assumption|]. intros cu _. now apply step_ok_refl.
  - apply authenticated_step; [assumption|]. intros cu _.
    unfold get_sighting. destruct (owned_sighting _ _ _); now apply step_ok_refl.
  - apply authenticated_step; [assumption|]. intros cu _.
    unfold delete_sighting. destruct (owned_sighting _ _ _) as [row|];
      [|now apply step_ok_refl].
    apply step_ok_same_users; [|reflexivity]. now apply delete_sighting_row_keys.
Qed.

Lemma serve_all_steps (reqs : list (datetime * request)) (db : Store) :
  KeysOk db -> step_ok db (serve_all' reqs db).
Proof.
  revert db. induction reqs as [|[now req] reqs IH]; intros db K; simpl.
  - now apply step_ok_refl.
  - destruct (serve_step now req db K) as [K1 E1].
    destruct (IH _ K1) as [K2 E2]. split; [assumption|].
    intros u Hu. destruct (E1 u Hu) as [v [Hv Ev]].
    destruct (E2 v Hv) as [w [Hw Ew]]. exists w. split; [assumption|].
    now apply evolves_trans with v.
Qed.

(** Every store the API can reach from the empty one has well-formed
    keys. *)
Lemma reachable_keys_ok (reqs : list (datetime * request)) :
  Db.keys_ok (serve_all' reqs empty_store) = true.
Proof.
  apply StoreFacts.keys_ok_spec. apply serve_all_steps.
  repeat split; constructor.
Qed.

End ServeFacts.

(** ** Float comparisons *)

Module FloatFacts.

Lemma SFcompare_antisym (x y : spec_float) :
  SFcompare y x = option_map CompOpp (SFcompare x y).
Proof.
  destruct x as [sx|sx| |sx mx ex], y as [sy|sy| |sy my ey]; simpl;
    try reflexivity;
    try (destruct sx; reflexivity); try (destruct sy; reflexivity);
    try (destruct sx, sy; reflexivity).
  destruct sx, sy; try reflexivity; f_equal;
    rewrite (Z.compare_antisym ex ey);
    destruct (ex ?= ey)%Z; simpl; try reflexivity;
    repeat (rewrite Pos.compare_cont_antisym; simpl); reflexivity.
Qed.

(** A float strictly below [y] is not at or above [y]. *)
Lemma ltb_not_leb (x y : float) :
  PrimFloat.ltb x y = true -> PrimFloat.leb y x = false.
Proof.
  rewrite ltb_spec, leb_spec. unfold SFltb, SFleb.
  rewrite (SFcompare_antisym (Prim2SF x) (Prim2SF y)).
  destruct (SFcompare (Prim2SF x) (Prim2SF y)) as [[| |]|]; simpl;
    intros H; try discriminate H; reflexivity.
Qed.

Lemma SFcompare_refl (x : spec_float) : x <> S754_nan -> SFcompare x x = Some Eq.
Proof.
  destruct x as [s|s| |s m e]; simpl; intros H.
  - reflexivity.
  - now destruct s.
  - now elim H.
  - destruct s; rewrite Z.compare_refl, Pos.compare_cont_refl; reflexivity.
Qed.

Lemma SFcompare_nan_r (x : spec_float) : SFcompare x S754_nan = None.
Proof. now destruct x. Qed.

(** Two floats compare unless one of them is a NaN. *)
Lemma SFcompare_some (x y : spec_float) :
  x <> S754_nan -> y <> S754_nan -> exists c, SFcompare x y = Some c.
Proof.
  destruct x as [sx|sx| |sx mx ex], y as [sy|sy| |sy my ey]; simpl;
    intros Hx Hy; try (now elim Hx); try (now elim Hy); eauto.
Qed.

Lemma is_nan_spec (v : float) : PrimFloat.is_nan v = true <-> Prim2SF v = S754_nan.
Proof.
  unfold PrimFloat.is_nan. rewrite eqb_spec. unfold SFeqb.
  destruct (Prim2SF v) as [s|s| |s m e] eqn:E; split; intros H;
    try reflexivity; try discriminate H;
    rewrite SFcompare_refl in H by discriminate; discriminate H.
Qed.

Lemma not_nan_spec (v : float) : PrimFloat.is_nan v = false <-> Prim2SF v <> S754_nan.
Proof.
  pose proof (is_nan_spec v) as [H1 H2].
  destruct (PrimFloat.is_nan v); split; intros H.
  - discriminate.
  - elim H. now apply H1.
  - intros E. apply H2 in E. discriminate.
  - reflexivity.
Qed.

(** A NaN is neither below nor at most any float, and no float is below or
    at most a NaN. *)
Lemma ltb_not_nan (x y : float) :
  PrimFloat.ltb x y = true -> PrimFloat.is_nan x = false /\ PrimFloat.is_nan y = false.
Proof.
  rewrite ltb_spec. unfold SFltb. intros H. split; apply not_nan_spec; intros E;
    rewrite E in H; [discriminate H|now rewrite SFcompare_nan_r in H].
Qed.

Lemma leb_not_nan (x y : float) :
  PrimFloat.leb x y = true -> PrimFloat.is_nan x = false /\ PrimFloat.is_nan y = false.
Proof.
  rewrite leb_spec. unfold SFleb. intros H. split; apply not_nan_spec; intros E;
    rewrite E in H; [discriminate H|now rewrite SFcompare_nan_r in H].
Qed.

(** A float that is not a NaN is at least a bound or below it, and at
    most a bound or above it. *)
Lemma leb_or_ltb (x y : float) :
  PrimFloat.is_nan x = false -> PrimFloat.is_nan y = false ->
  PrimFloat.leb x y = true \/ PrimFloat.ltb y x = true.
Proof.
  rewrite !not_nan_spec, leb_spec, ltb_spec. unfold SFleb, SFltb. intros Hx Hy.
  rewrite (SFcompare_antisym (Prim2SF x) (Prim2SF y)).
  destruct (SFcompare_some _ _ Hx Hy) as [c ->]. destruct c; simpl; auto.
Qed.

Lemma is_infinity_spec (v : float) :
  PrimFloat.is_infinity v = true ->
  Prim2SF v = Prim2SF infinity \/ Prim2SF v = Prim2SF neg_infinity.
Proof.
  unfold PrimFloat.is_infinity. rewrite eqb_spec, abs_spec.
  replace (Prim2SF infinity) with (S754_infinity false) by (vm_compute; reflexivity).
  replace (Prim2SF neg_infinity) with (S754_infinity true) by (vm_compute; reflexivity).
  destruct (Prim2SF v) as [s|s| |s m e]; simpl; try discriminate.
  destruct s; auto.
Qed.

Lemma infinity_not_nan (v : float) :
  PrimFloat.is_infinity v = true -> PrimFloat.is_nan v = false.
Proof.
  intros H. apply not_nan_spec.
  destruct (is_infinity_spec v H) as [E|E]; rewrite E; vm_compute; discriminate.
Qed.

Lemma infinity_not_finite (v : float) :
  PrimFloat.is_infinity v = true -> PrimFloat.is_finite v = false.
Proof. intros H. unfold PrimFloat.is_finite. now rewrite H, orb_true_r. Qed.

Lemma nan_not_finite (v : float) :
  PrimFloat.is_nan v = true -> PrimFloat.is_finite v = false.
Proof. intros H. unfold PrimFloat.is_finite. now rewrite H. Qed.

(** An infinity is outside every range with finite bounds. *)
Lemma infinity_outside (lo hi v : float) :
  PrimFloat.leb lo neg_infinity = false -> PrimFloat.leb infinity hi = false ->
  PrimFloat.is_infinity v = true ->
  PrimFloat.leb lo v && PrimFloat.leb v hi = false.
Proof.
  intros Hlo Hhi H. rewrite leb_spec in Hlo, Hhi. rewrite !leb_spec.
  destruct (is_infinity_spec v H) as [E|E]; rewrite E.
  - rewrite Hhi. apply andb_false_r.
  - now rewrite Hlo.
Qed.

End FloatFacts.

(** ** Accounts over sequences of requests, and coordinates *)

Import StoreFacts EvolveFacts FloatFacts.


Lemma user_by_id_In (db : Store) (u : User.t) :
  KeysOk db -> In u (users db) -> user_by_id (User.id u) db = Some u.
Proof.
  intros [K _] Hu. unfold user_by_id.
  destruct (List.find _ (users db)) as [v|] eqn:F.
  - apply find_some in F as [Hv E]. apply Z.eqb_eq in E. f_equal.
    now apply (NoDup_map_eq User.id (users db)).
  - apply find_none with (x := u) in F; [|assumption].
    now rewrite Z.eqb_refl in F.
Qed.

Lemma user_by_id_evolved (db db' : Store) (u : User.t) :
  step_ok db db' -> In u (users db) ->
  exists u', user_by_id (User.id u) db' = Some u' /\ evolves u u'.
Proof.
  intros [K E] Hu. destruct (E u Hu) as [u' [Hin Hev]].
  exists u'. split; [|assumption].
  destruct Hev as [[Hid _] _]. rewrite <- Hid. now apply user_by_id_In.
Qed.

(** C8: in a store whose keys are well formed, a profile update leaves
    every account in place with its id, username, password hash and
    creation time, leaves the accounts other than the caller's untouched,
    and leaves the sightings alone; and after any sequence of requests to
    the API every account is still there with those four fields. *)
Theorem accounts_keep_identity
    (get_password_hash : pystr -> pystr)
    (verify_password : pystr -> pystr -> bool)
    (create_access_token : pystr -> datetime -> pystr)
    (EmailStr : pystr -> option pystr)
    (runtime : Runtime.t)
    (generate_content : Genai.Request -> Genai.Response)
    (BirdIdentificationResponse_init : json -> outcome BirdIdentificationResponse.t)
    (db : Store) (u : User.t) :
  Db.keys_ok db = true -> In u (users db) ->
  (forall user_update current_user, In current_user (users db) ->
     exists u',
       user_by_id (User.id u) (fst (update_user_profile user_update current_user db))
       = Some u'
       /\ same_identity u u'
       /\ (User.id u <> User.id current_user -> u' = u))
  /\ (forall user_update current_user,
        sightings (fst (update_user_profile user_update current_user db))
        = sightings db)
  /\ (forall reqs, exists u',
        user_by_id (User.id u)
          (serve_all get_password_hash verify_password create_access_token
                     EmailStr runtime generate_content BirdIdentificationResponse_init
                     reqs db)
        = Some u'
        /\ same_identity u u').
Proof.
  intros Hk Hu. apply keys_ok_spec in Hk. split; [|split].
  - intros upd cu Hcu.
    destruct (update_user_profile_evolves upd cu db u Hk Hcu Hu)
      as [u' [Hin [[Hsame _] Hother]]].
    exists u'. repeat split; try apply Hsame; try assumption.
    destruct Hsame as [Hid _]. rewrite <- Hid.
    apply user_by_id_In; [|assumption]. now apply update_user_profile_keys.
  - intros upd cu. rewrite update_user_profile_eq.
    now destruct (Db.users_ok _).
  - intros reqs.
    destruct (user_by_id_evolved db _ u
                (serve_all_steps get_password_hash verify_password
                   create_access_token EmailStr runtime generate_content
                   BirdIdentificationResponse_init reqs db Hk) Hu)
      as [u' [E [Hsame _]]].
    now exists u'.
Qed.

(** C9: in a store whose keys are well formed, a profile update whose
    [orcid_id] is null leaves the stored ORCID iD of the caller as it was,
    one whose [email] is null leaves the stored email as it was, and after
    any sequence of requests to the API an account that had an ORCID iD
    still has one. *)
Theorem null_fields_leave_profile_unchanged
    (get_password_hash : pystr -> pystr)
    (verify_password : pystr -> pystr -> bool)
    (create_access_token : pystr -> datetime -> pystr)
    (EmailStr : pystr -> option pystr)
    (runtime : Runtime.t)
    (generate_content : Genai.Request -> Genai.Response)
    (BirdIdentificationResponse_init : json -> outcome BirdIdentificationResponse.t)
    (db : Store) (current_user : User.t) :
  Db.keys_ok db = true -> In current_user (users db) ->
  (forall user_update, UserUpdate.orcid_id user_update = None ->
     exists u',
       user_by_id (User.id current_user)
         (fst (update_user_profile user_update current_user db)) = Some u'
       /\ User.orcid_id u' = User.orcid_id current_user)
  /\ (forall user_update, UserUpdate.email user_update = None ->
     exists u',
       user_by_id (User.id current_user)
         (fst (update_user_profile user_update current_user db)) = Some u'
       /\ User.email u' = User.email current_user)
  /\ (forall reqs, User.orcid_id current_user <> None ->
     exists u',
       user_by_id (User.id current_user)
         (serve_all get_password_hash verify_password create_access_token
                    EmailStr runtime generate_content BirdIdentificationResponse_init
                    reqs db)
       = Some u'
       /\ User.orcid_id u' <> None).
Proof.
  intros Hk Hu. apply keys_ok_spec in Hk.
  assert (Hrow : forall upd, exists u',
            user_by_id (User.id current_user)
              (fst (update_user_profile upd current_user db)) = Some u'
            /\ (u' = updated upd current_user \/ u' = current_user)).
  { intros upd. rewrite update_user_profile_eq.
    destruct (Db.users_ok _); simpl.
    - destruct (update_user_rows (updated upd current_user) current_user db
                  current_user Hk Hu (updated_id upd current_user) Hu)
        as [u' [Hin [Hsame _]]].
      rewrite (Hsame eq_refl) in Hin. exists (updated upd current_user).
      split; [|now left].
      rewrite <- (updated_id upd current_user).
      apply user_by_id_In; [now apply update_user_keys|assumption].
    - exists current_user. split; [now apply user_by_id_In|now right]. }
  split; [|split].
  - intros upd Hnull. destruct (Hrow upd) as [u' [E [->| ->]]].
    + eexists. split; [exact E|now apply updated_orcid_id].
    + eexists. split; [exact E|reflexivity].
  - intros upd Hnull. destruct (Hrow upd) as [u' [E [->| ->]]].
    + eexists. split; [exact E|]. apply updated_email. now rewrite Hnull.
    + eexists. split; [exact E|reflexivity].
  - intros reqs Hsome.
    destruct (user_by_id_evolved db _ current_user
                (serve_all_steps get_password_hash verify_password
                   create_access_token EmailStr runtime generate_content
                   BirdIdentificationResponse_init reqs db Hk) Hu)
      as [u' [E [_ Horcid]]].
    exists u'. split; [assumption|now apply Horcid].
Qed.

(** ** Coordinates *)

Module BoundFacts.
Import SightingCreate.

Lemma ge_le_outside (flag : bool) (lo hi : float) (x : option float) :
  outside lo hi x -> ge_le flag lo hi x = false.
Proof.
  destruct x as [v|]; simpl; [|contradiction]. intros H.
  assert (N : PrimFloat.is_nan v = false).
  { destruct H as [H|H]; now apply ltb_not_nan in H. }
  rewrite N. apply andb_false_iff.
  destruct H as [H|H]; [left|right]; now apply ltb_not_leb.
Qed.

Lemma ge_le_inside (flag : bool) (lo hi : float) (x : option float) :
  inside lo hi x -> ge_le flag lo hi x = true.
Proof.
  destruct x as [v|]; simpl; [|reflexivity]. intros [H1 H2].
  assert (N : PrimFloat.is_nan v = false) by now apply leb_not_nan in H2.
  now rewrite N, H1, H2.
Qed.

Lemma ge_le_nan (flag : bool) (lo hi : float) (x : option float) :
  nan x -> ge_le flag lo hi x = flag.
Proof. destruct x as [v|]; simpl; [|contradiction]. now intros ->. Qed.

Lemma ge_le_infinite (flag : bool) (lo hi v : float) :
  PrimFloat.leb lo neg_infinity = false -> PrimFloat.leb infinity hi = false ->
  PrimFloat.is_infinity v = true -> ge_le flag lo hi (Some v) = false.
Proof.
  intros Hlo Hhi H. simpl. rewrite (infinity_not_nan v H).
  now apply infinity_outside.
Qed.

(** Every float is inside a range, outside it, or a NaN. *)
Lemma inside_outside_nan (lo hi : float) (x : option float) :
  PrimFloat.is_nan lo = false -> PrimFloat.is_nan hi = false ->
  inside lo hi x \/ outside lo hi x \/ nan x.
Proof.
  intros Hlo Hhi. destruct x as [v|]; simpl; [|now left].
  destruct (PrimFloat.is_nan v) eqn:N; [now right; right|].
  destruct (leb_or_ltb lo v Hlo N) as [H1|H1]; [|now right; left; left].
  destruct (leb_or_ltb v hi N Hhi) as [H2|H2]; [now left|now right; left; right].
Qed.

Lemma refused_finite (flag : bool) (lo hi : float) (x : option float) :
  finite x = true -> forallb PrimFloat.is_finite (refused flag lo hi x) = true.
Proof.
  destruct x as [v|]; [|reflexivity]. unfold refused. intros H.
  destruct (ge_le flag lo hi (Some v)); [reflexivity|]. simpl in *. now rewrite H.
Qed.

Lemma refused_not_finite (flag : bool) (lo hi v : float) :
  ge_le flag lo hi (Some v) = false -> PrimFloat.is_finite v = false ->
  forallb PrimFloat.is_finite (refused flag lo hi (Some v)) = false.
Proof. unfold refused. intros -> H. simpl. now rewrite H. Qed.

(** The answer to a body one of whose coordinates fails its bound and is
    not a finite number. *)
Lemma not_finite_answer (flag : bool) (body : t) (v : float) :
  (latitude body = Some v /\ ge_le flag (-90) 90 (Some v) = false)
  \/ (longitude body = Some v /\ ge_le flag (-180) 180 (Some v) = false) ->
  PrimFloat.is_finite v = false ->
  validate flag body = false
  /\ validation_failure (error_inputs flag body) = ValueError.
Proof.
  intros H Hv. unfold validate, validation_failure, error_inputs.
  rewrite forallb_app.
  destruct H as [[E G]|[E G]]; rewrite E.
  - rewrite G, (refused_not_finite _ _ _ _ G Hv). now split.
  - rewrite G, (refused_not_finite _ _ _ _ G Hv), !andb_false_r. now split.
Qed.

End BoundFacts.
Import BoundFacts.

(** C7 (as amended): a POST /sightings body whose latitude is below -90 or
    above 90, or whose longitude is below -180 or above 180, is refused by
    the validation and the store is left as it was. The answer is the
    validation error, status 422, when the coordinates are finite numbers;
    when a coordinate is an infinity, which is out of both ranges, the
    validation error cannot be rendered and the answer is status 500. A
    NaN is neither within nor out of a range: where the bound check of the
    schema library refuses it, the body is refused like an infinity, and
    where it lets it pass, so does the validation. A body whose coordinates
    are absent or within the ranges passes the validation and reaches the
    handler. Every coordinate is of one of these kinds. *)
Theorem out_of_range_coordinates_rejected
    (runtime : Runtime.t) (now : datetime) (body : SightingCreate.t)
    (current_user : User.t) (db : Store) :
  (SightingCreate.outside (-90) 90 (SightingCreate.latitude body)
   \/ SightingCreate.outside (-180) 180 (SightingCreate.longitude body) ->
   fst (post_sightings runtime now body current_user db) = db
   /\ (snd (post_sightings runtime now body current_user db)
       = Raise RequestValidationError
       \/ snd (post_sightings runtime now body current_user db)
          = Raise ValueError)
   /\ (SightingCreate.finite (SightingCreate.latitude body) = true ->
       SightingCreate.finite (SightingCreate.longitude body) = true ->
       post_sightings runtime now body current_user db
       = (db, Raise RequestValidationError)
       /\ status_of (snd (post_sightings runtime now body current_user db))
          = 422%Z))
  /\ (forall v, coordinate_of body v -> PrimFloat.is_infinity v = true ->
      post_sightings runtime now body current_user db = (db, Raise ValueError)
      /\ status_of (snd (post_sightings runtime now body current_user db))
         = 500%Z)
  /\ (SightingCreate.nan (SightingCreate.latitude body)
      \/ SightingCreate.nan (SightingCreate.longitude body) ->
      Runtime.nan_within_bounds runtime = false ->
      post_sightings runtime now body current_user db = (db, Raise ValueError)
      /\ status_of (snd (post_sightings runtime now body current_user db))
         = 500%Z)
  /\ (SightingCreate.inside (-90) 90 (SightingCreate.latitude body)
      \/ (SightingCreate.nan (SightingCreate.latitude body)
          /\ Runtime.nan_within_bounds runtime = true) ->
      SightingCreate.inside (-180) 180 (SightingCreate.longitude body)
      \/ (SightingCreate.nan (SightingCreate.longitude body)
          /\ Runtime.nan_within_bounds runtime = true) ->
      SightingCreate.validate (Runtime.nan_within_bounds runtime) body = true
      /\ post_sightings runtime now body current_user db
         = create_sighting now body current_user db)
  /\ (SightingCreate.inside (-90) 90 (SightingCreate.latitude body)
      \/ SightingCreate.outside (-90) 90 (SightingCreate.latitude body)
      \/ SightingCreate.nan (SightingCreate.latitude body))
  /\ (SightingCreate.inside (-180) 180 (SightingCreate.longitude body)
      \/ SightingCreate.outside (-180) 180 (SightingCreate.longitude body)
      \/ SightingCreate.nan (SightingCreate.longitude body)).
Proof.
  set (flag := Runtime.nan_within_bounds runtime).
  assert (Hpost : SightingCreate.validate flag body = false ->
            post_sightings runtime now body current_user db
            = (db, Raise (validation_failure
                            (SightingCreate.error_inputs flag body)))).
  { intros E. unfold post_sightings. fold flag. now rewrite E. }
  split; [|split; [|split; [|split; [|split]]]].
  - intros Hout.
    assert (E : SightingCreate.validate flag body = false).
    { unfold SightingCreate.validate. apply andb_false_iff.
      destruct Hout as [H|H]; [left|right]; now apply ge_le_outside. }
    rewrite (Hpost E). cbn [fst snd]. split; [reflexivity|]. split.
    + unfold validation_failure. destruct (forallb _ _); [now left|now right].
    + intros Flat Flon. unfold validation_failure, SightingCreate.error_inputs.
      rewrite forallb_app, !refused_finite by assumption. now split.
  - intros v Hv Hinf.
    destruct (not_finite_answer flag body v) as [E F].
    + destruct Hv as [Hv|Hv]; [left|right]; (split; [exact Hv|]);
        apply ge_le_infinite; try reflexivity; assumption.
    + now apply infinity_not_finite.
    + rewrite (Hpost E), F. now split.
  - intros Hnan Hflag. fold flag in Hflag.
    assert (X : exists v,
              ((SightingCreate.latitude body = Some v
                /\ SightingCreate.ge_le flag (-90) 90 (Some v) = false)
               \/ (SightingCreate.longitude body = Some v
                   /\ SightingCreate.ge_le flag (-180) 180 (Some v) = false))
              /\ PrimFloat.is_nan v = true).
    { destruct Hnan as [H|H];
        [destruct (SightingCreate.latitude body) as [v|] eqn:E
        |destruct (SightingCreate.longitude body) as [v|] eqn:E];
        try contradiction; exists v; (split; [|exact H]);
        [left|right]; (split; [reflexivity|]);
        rewrite (ge_le_nan flag _ _ (Some v) H); exact Hflag. }
    destruct X as [v [Hv Hn]].
    destruct (not_finite_answer flag body v Hv (nan_not_finite v Hn)) as [E F].
    rewrite (Hpost E), F. now split.
  - intros Hlat Hlon.
    assert (E : SightingCreate.validate flag body = true).
    { unfold SightingCreate.validate. apply andb_true_iff. split.
      - destruct Hlat as [H|[H F]]; [now apply ge_le_inside|].
        now rewrite (ge_le_nan flag _ _ _ H).
      - destruct Hlon as [H|[H F]]; [now apply ge_le_inside|].
        now rewrite (ge_le_nan flag _ _ _ H). }
    split; [assumption|]. unfold post_sightings. fold flag. now rewrite E.
  - now apply inside_outside_nan.
  - now apply inside_outside_nan.
Qed.

(** C7 as stated fails: a latitude of infinity (what the body parser
    makes of the literal Infinity, or of a number like 1e400) is above 90,
    and the answer is not a 4xx validation error but status 500. The
    sighting is not stored. *)
Lemma infinite_latitude_answered_with_500 :
  SightingCreate.outside (-90) 90 (Some infinity)
  /\ post_sightings sample_runtime 1700000800%Z
       (SightingCreate.mk (lit "Blue Jay") None (Some infinity) None None None)
       alice sample_store
     = (sample_store, Raise ValueError)
  /\ status_of
       (snd (post_sightings sample_runtime 1700000800%Z
               (SightingCreate.mk (lit "Blue Jay") None (Some infinity) None None None)
               alice sample_store))
     = 500%Z.
Proof. split; [right; reflexivity|split; reflexivity]. Qed.

Lemma accounts_keep_identity_witness :
  exists u',
    user_by_id (User.id alice)
      (serve_all sample_hash sample_verify sample_token sample_email sample_runtime
                 (test_double []) sample_init sample_requests sample_store)
    = Some u'
    /\ same_identity alice u'.
Proof.
  exact (proj2 (proj2
    (accounts_keep_identity sample_hash sample_verify sample_token sample_email sample_runtime
       (test_double []) sample_init sample_store alice
       eq_refl (or_introl eq_refl))) sample_requests).
Defined.

Lemma null_fields_leave_profile_witness :
  (exists u',
     user_by_id (User.id alice)
       (fst (update_user_profile
               (UserUpdate.mk (Some (lit "alice@example.org")) None)
               alice sample_store)) = Some u'
     /\ User.orcid_id u' = User.orcid_id alice)
  /\ (exists u',
        user_by_id (User.id alice)
          (serve_all sample_hash sample_verify sample_token sample_email sample_runtime
                     (test_double []) sample_init sample_requests sample_store)
        = Some u'
        /\ User.orcid_id u' <> None).
Proof.
  pose proof (null_fields_leave_profile_unchanged sample_hash sample_verify
                sample_token sample_email sample_runtime (test_double []) sample_init
                sample_store alice eq_refl (or_introl eq_refl)) as [H1 [_ H3]].
  split.
  - exact (H1 (UserUpdate.mk (Some (lit "alice@example.org")) None) eq_refl).
  - apply (H3 sample_requests). discriminate.
Defined.

(** The requests of [sample_requests] on [sample_store]: alice changes her
    email and keeps her ORCID iD, carol registers under the next key, and
    bob's DELETE of alice's sighting finds nothing to delete. *)
Example sample_run :
  let db := serve_all sample_hash sample_verify sample_token sample_email sample_runtime
                      (test_double []) sample_init sample_requests sample_store in
  user_by_id 1 db = Some (User.with_email (lit "alice@example.org") alice)
  /\ List.map User.id (users db) = [1; 2; 3]%Z
  /\ sightings db = [robin_sighting]
  /\ status_of (snd (serve sample_hash sample_verify sample_token sample_email sample_runtime
                          (test_double []) sample_init 1700000600%Z
                          (DELETE_sighting (Some (lit "bob")) 1%Z) sample_store))
     = 404%Z.
Proof. repeat split. Qed.

(** Latitude 91 is refused, latitude 41.5 is stored. *)
Example latitude_examples :
  post_sightings sample_runtime 1700000800%Z
    (SightingCreate.mk (lit "Blue Jay") None (Some 91%float) None None None)
    alice sample_store
  = (sample_store, Raise RequestValidationError)
  /\ List.length
       (sightings (fst (post_sightings sample_runtime 1700000800%Z
          (SightingCreate.mk (lit "Blue Jay") None (Some 41.5%float) None None None)
          alice sample_store)))
     = 2.
Proof. split; reflexivity. Qed.

(** ** Accounts: registration and login *)

Module AccountFacts.

Lemma pystr_eqb_refl (a : pystr) : PyStr.eqb a a = true.
Proof. now apply pystr_eqb_eq. Qed.

Lemma pystr_eqb_neq (a b : pystr) : PyStr.eqb a b = false <-> a <> b.
Proof.
  split.
  - intros H E. apply pystr_eqb_eq in E. congruence.
  - intros H. destruct (PyStr.eqb a b) eqn:E; [|reflexivity].
    apply pystr_eqb_eq in E. contradiction.
Qed.

Lemma unique_pystr_NoDup (l : list pystr) :
  Db.unique PyStr.eqb l = true <-> NoDup l.
Proof.
  induction l as [|x l IH]; simpl.
  - split; [constructor|reflexivity].
  - rewrite andb_true_iff, negb_true_iff, IH. split.
    + intros [Hx Hl]. constructor; [|assumption].
      intros Hin. apply not_true_iff_false in Hx. apply Hx.
      apply existsb_exists. exists x. split; [assumption|apply pystr_eqb_refl].
    + intros H. inversion H as [|? ? Hx Hl]; subst. split; [|assumption].
      apply not_true_iff_false. intros He. apply existsb_exists in He.
      destruct He as [y [Hy E]]. apply pystr_eqb_eq in E. now subst.
Qed.

Lemma users_ok_spec (rows : list User.t) :
  Db.users_ok rows = true
  <-> NoDup (List.map User.username rows) /\ NoDup (List.map User.email rows).
Proof.
  unfold Db.users_ok. now rewrite andb_true_iff, !unique_pystr_NoDup.
Qed.

Lemma NoDup_map_inj {A B} (f : A -> B) (l : list A) (x y : A) :
  NoDup (List.map f l) -> In x l -> In y l -> f x = f y -> x = y.
Proof.
  induction l as [|a l IH]; simpl; [contradiction|].
  intros H Hx Hy E. inversion H as [|? ? Ha Hl]; subst.
  destruct Hx as [->|Hx], Hy as [->|Hy]; try reflexivity.
  - elim Ha. rewrite E. now apply in_map.
  - elim Ha. rewrite <- E. now apply in_map.
  - now apply IH.
Qed.

(** The lookup of [register] finds nothing exactly when the username and
    the email are both free. *)
Lemma register_lookup_none (user : UserCreate.t) (db : Store) :
  List.find (fun u =>
      PyStr.eqb (User.username u) (UserCreate.username user)
      || PyStr.eqb (User.email u) (UserCreate.email user)) (users db) = None
  <-> available user db.
Proof.
  rewrite find_none_iff. unfold available. split; intros H u Hu.
  - specialize (H u Hu). apply orb_false_iff in H as [H1 H2].
    now rewrite !pystr_eqb_neq in *.
  - destruct (H u Hu) as [H1 H2]. apply orb_false_iff.
    now rewrite !pystr_eqb_neq.
Qed.

Lemma register_available (get_password_hash : pystr -> pystr) (now : datetime)
    (user : UserCreate.t) (db : Store) :
  available user db ->
  register get_password_hash now user db
  = (mkStore (users db ++ [registered get_password_hash now user db])
             (sightings db) (users_id_seq db + 1) (sightings_id_seq db),
     Return (UserResponse_of (registered get_password_hash now user db))).
Proof.
  intros H. apply register_lookup_none in H. unfold register. now rewrite H.
Qed.

Lemma register_taken (get_password_hash : pystr -> pystr) (now : datetime)
    (user : UserCreate.t) (db : Store) :
  ~ available user db ->
  register get_password_hash now user db
  = (db, Raise (HTTPException 400 (lit "Username or email already registered"))).
Proof.
  intros H. unfold register.
  destruct (List.find _ (users db)) eqn:F; [reflexivity|].
  apply register_lookup_none in F. contradiction.
Qed.

Lemma register_returned (get_password_hash : pystr -> pystr) (now : datetime)
    (user : UserCreate.t) (db : Store) (r : UserResponse.t) :
  snd (register get_password_hash now user db) = Return r -> available user db.
Proof.
  unfold register. destruct (List.find _ (users db)) eqn:F; [discriminate|].
  intros _. now apply register_lookup_none.
Qed.

Lemma find_app_none {A} (p : A -> bool) (l l' : list A) :
  List.find p l = None -> List.find p (l ++ l') = List.find p l'.
Proof.
  induction l as [|a l IH]; simpl; [reflexivity|].
  destruct (p a); [discriminate|exact IH].
Qed.

Lemma find_app_some {A} (p : A -> bool) (l l' : list A) (x : A) :
  List.find p l = Some x -> List.find p (l ++ l') = Some x.
Proof.
  induction l as [|a l IH]; simpl; [discriminate|].
  destruct (p a); [trivial|exact IH].
Qed.

End AccountFacts.
Import AccountFacts.

(** X1: register on a store with unique keys, for a username and an email that no
    account has: the handler returns the new account as a [UserResponse],
    appends exactly one row, built from the body, the hash of the password
    and the next key, leaves the sightings alone, and afterwards the new
    account and every older account are found under their keys. *)
Theorem register_creates_account
    (get_password_hash : pystr -> pystr) (now : datetime)
    (user : UserCreate.t) (db : Store) :
  Db.keys_ok db = true -> available user db ->
  snd (register get_password_hash now user db)
  = Return (UserResponse_of (registered get_password_hash now user db))
  /\ users (fst (register get_password_hash now user db))
     = users db ++ [registered get_password_hash now user db]
  /\ sightings (fst (register get_password_hash now user db)) = sightings db
  /\ user_by_id (users_id_seq db) (fst (register get_password_hash now user db))
     = Some (registered get_password_hash now user db)
  /\ (forall u, In u (users db) ->
        user_by_id (User.id u) (fst (register get_password_hash now user db))
        = Some u)
  /\ Db.keys_ok (fst (register get_password_hash now user db)) = true.
Proof.
  intros Hk Hav. rewrite (register_available _ _ _ _ Hav). simpl fst. simpl snd.
  apply keys_ok_spec in Hk.
  assert (K' : KeysOk (mkStore (users db ++ [registered get_password_hash now user db])
                         (sightings db) (users_id_seq db + 1) (sightings_id_seq db))).
  { apply (add_user_keys (fun key =>
             User.mk key (UserCreate.username user) (UserCreate.email user)
               (get_password_hash (UserCreate.password user))
               (UserCreate.orcid_id user) now) db); [reflexivity|assumption]. }
  split; [reflexivity|]. split; [reflexivity|]. split; [reflexivity|].
  split; [|split].
  - apply (user_by_id_In _ (registered get_password_hash now user db) K').
    simpl. apply in_or_app. right. now left.
  - intros u Hu. apply (user_by_id_In _ u K'). simpl. apply in_or_app. now left.
  - now apply keys_ok_spec.
Qed.

Lemma register_creates_account_witness :
  user_by_id 3
    (fst (register sample_hash 1700000300%Z
            (UserCreate.mk (lit "carol") (lit "carol@wesleyan.edu")
                           (lit "secret-3") None) sample_store))
  = Some (User.mk 3 (lit "carol") (lit "carol@wesleyan.edu")
                  (lit "hash-of-secret-3") None 1700000300%Z).
Proof.
  refine (proj1 (proj2 (proj2 (proj2
    (register_creates_account sample_hash 1700000300%Z
       (UserCreate.mk (lit "carol") (lit "carol@wesleyan.edu")
                      (lit "secret-3") None) sample_store eq_refl _))))).
  intros u [<-|[<-|[]]]; split; discriminate.
Defined.

(** X2: once register has created an account, a second registration with the
    same username or the same email, whatever its other fields, raises
    HTTPException 400 and leaves the store as the first registration left
    it. *)
Theorem second_registration_rejected
    (get_password_hash : pystr -> pystr) (now now' : datetime)
    (user user' : UserCreate.t) (db : Store) (r : UserResponse.t) :
  snd (register get_password_hash now user db) = Return r ->
  UserCreate.username user' = UserCreate.username user
  \/ UserCreate.email user' = UserCreate.email user ->
  register get_password_hash now' user' (fst (register get_password_hash now user db))
  = (fst (register get_password_hash now user db),
     Raise (HTTPException 400 (lit "Username or email already registered"))).
Proof.
  intros Hr Hsame. apply register_returned in Hr.
  apply register_taken. intros Hav.
  rewrite (register_available _ _ _ _ Hr) in Hav.
  destruct (Hav (registered get_password_hash now user db)) as [H1 H2].
  { simpl. apply in_or_app. right. now left. }
  simpl in H1, H2. destruct Hsame as [E|E]; congruence.
Qed.

Lemma second_registration_witness :
  register sample_hash 1700000400%Z
    (UserCreate.mk (lit "carol") (lit "other@wesleyan.edu") (lit "secret-4") None)
    (fst (register sample_hash 1700000300%Z
            (UserCreate.mk (lit "carol") (lit "carol@wesleyan.edu")
                           (lit "secret-3") None) sample_store))
  = (fst (register sample_hash 1700000300%Z
            (UserCreate.mk (lit "carol") (lit "carol@wesleyan.edu")
                           (lit "secret-3") None) sample_store),
     Raise (HTTPException 400 (lit "Username or email already registered"))).
Proof.
  refine (second_registration_rejected sample_hash 1700000300%Z 1700000400%Z
            (UserCreate.mk (lit "carol") (lit "carol@wesleyan.edu")
                           (lit "secret-3") None)
            (UserCreate.mk (lit "carol") (lit "other@wesleyan.edu")
                           (lit "secret-4") None)
            sample_store _ eq_refl (or_introl eq_refl)).
Defined.

(** X3: when [verify_password] accepts a password against its own hash, an
    account that register has just created can log in with the username
    and password of its registration: login returns a bearer token for the
    username and does not change the store. *)
Theorem login_after_register
    (get_password_hash : pystr -> pystr)
    (verify_password : pystr -> pystr -> bool)
    (create_access_token : pystr -> datetime -> pystr)
    (now now' : datetime) (user : UserCreate.t) (db : Store) (r : UserResponse.t) :
  verify_password (UserCreate.password user)
                  (get_password_hash (UserCreate.password user)) = true ->
  snd (register get_password_hash now user db) = Return r ->
  login verify_password create_access_token now'
        (UserCreate.username user) (UserCreate.password user)
        (fst (register get_password_hash now user db))
  = (fst (register get_password_hash now user db),
     Return (Token.mk (create_access_token (UserCreate.username user) now')
                      (lit "bearer"))).
Proof.
  intros Hv Hr. apply register_returned in Hr.
  rewrite (register_available _ _ _ _ Hr). simpl fst. unfold login. simpl users.
  assert (F : List.find (fun u => PyStr.eqb (User.username u) (UserCreate.username user))
                (users db) = None).
  { apply find_none_iff. intros u Hu. apply pystr_eqb_neq. now apply (Hr u Hu). }
  rewrite (find_app_none _ _ _ F). unfold registered. simpl.
  rewrite pystr_eqb_refl. simpl. now rewrite Hv.
Qed.

Lemma login_after_register_witness :
  login sample_verify sample_token 1700000400%Z (lit "carol") (lit "secret-3")
    (fst (register sample_hash 1700000300%Z
            (UserCreate.mk (lit "carol") (lit "carol@wesleyan.edu")
                           (lit "secret-3") None) sample_store))
  = (fst (register sample_hash 1700000300%Z
            (UserCreate.mk (lit "carol") (lit "carol@wesleyan.edu")
                           (lit "secret-3") None) sample_store),
     Return (Token.mk (lit "carol") (lit "bearer"))).
Proof.
  exact (login_after_register sample_hash sample_verify sample_token
           1700000300%Z 1700000400%Z
           (UserCreate.mk (lit "carol") (lit "carol@wesleyan.edu")
                          (lit "secret-3") None)
           sample_store _ eq_refl eq_refl).
Defined.

(** X4: login never changes the store, and it either raises HTTPException 401
    with the detail Incorrect username or password, or returns a bearer
    token for the username, and then some account has that username and a
    hash that [verify_password] accepts for the password. When the hash of
    no account of that username is accepted, it raises the 401. *)
Theorem login_outcomes
    (verify_password : pystr -> pystr -> bool)
    (create_access_token : pystr -> datetime -> pystr)
    (now : datetime) (username password : pystr) (db : Store) :
  fst (login verify_password create_access_token now username password db) = db
  /\ (snd (login verify_password create_access_token now username password db)
      = Raise (HTTPException 401 (lit "Incorrect username or password"))
      \/ exists user,
           In user (users db)
           /\ User.username user = username
           /\ verify_password password (User.hashed_password user) = true
           /\ snd (login verify_password create_access_token now username password db)
              = Return (Token.mk (create_access_token username now) (lit "bearer")))
  /\ ((forall user, In user (users db) -> User.username user = username ->
         verify_password password (User.hashed_password user) = false) ->
      snd (login verify_password create_access_token now username password db)
      = Raise (HTTPException 401 (lit "Incorrect username or password"))).
Proof.
  unfold login.
  destruct (List.find _ (users db)) as [user|] eqn:F.
  - apply find_some in F as [Hin E]. apply pystr_eqb_eq in E.
    destruct (verify_password password (User.hashed_password user)) eqn:V.
    + split; [reflexivity|]. split.
      * right. exists user. subst username. repeat split; assumption.
      * intros H. rewrite (H user Hin E) in V. discriminate.
    + split; [reflexivity|]. split; [now left|reflexivity].
  - split; [reflexivity|]. split; [now left|reflexivity].
Qed.

(** ** Sightings: create, read, list, delete *)

Module SightingFacts.

Lemma owned_sighting_spec (sid : Z) (u : User.t) (db : Store) (s : Sighting.t) :
  KeysOk db ->
  (owned_sighting sid u db = Some s
   <-> In s (sightings db) /\ Sighting.id s = sid /\ Sighting.user_id s = User.id u).
Proof.
  intros [_ [K _]]. unfold owned_sighting. split.
  - intros F. apply find_some in F as [Hin E].
    apply andb_true_iff in E as [E1 E2].
    apply Z.eqb_eq in E1, E2. auto.
  - intros [Hin [E1 E2]].
    destruct (List.find _ (sightings db)) as [s'|] eqn:F.
    + apply find_some in F as [Hin' E]. apply andb_true_iff in E as [E3 _].
      apply Z.eqb_eq in E3. f_equal.
      apply (NoDup_map_eq Sighting.id (sightings db)); congruence.
    + apply find_none with (x := s) in F; [|assumption].
      rewrite E1, E2, !Z.eqb_refl in F. discriminate.
Qed.

Lemma create_sighting_eq (now : datetime) (body : SightingCreate.t) (u : User.t)
    (db : Store) :
  create_sighting now body u db
  = (mkStore (users db) (sightings db ++ [logged now body u db])
             (users_id_seq db) (sightings_id_seq db + 1),
     Return (logged now body u db)).
Proof. reflexivity. Qed.

Lemma create_sighting_keys (now : datetime) (body : SightingCreate.t) (u : User.t)
    (db : Store) :
  KeysOk db -> KeysOk (fst (create_sighting now body u db)).
Proof.
  intros K. unfold create_sighting. now apply add_sighting_keys.
Qed.

Lemma In_firstn {A} (n : nat) (l : list A) (x : A) : In x (firstn n l) -> In x l.
Proof.
  revert l. induction n as [|n IH]; intros l; simpl; [contradiction|].
  destruct l as [|a l]; simpl; [contradiction|]. intros [H|H]; auto.
Qed.

Lemma In_skipn {A} (n : nat) (l : list A) (x : A) : In x (skipn n l) -> In x l.
Proof.
  revert l. induction n as [|n IH]; intros l; simpl; [trivial|].
  destruct l as [|a l]; simpl; [contradiction|]. auto.
Qed.

End SightingFacts.
Import SightingFacts.

(** X5: on a store with unique keys, get_sighting returns the sighting [s]
    exactly when [s] is a row with the requested key that belongs to the
    caller; it never changes the store, and whenever it does not return a
    row it raises the 404 of [not_found]. *)
Theorem get_sighting_returns_owned
    (sighting_id : Z) (current_user : User.t) (db : Store) (s : Sighting.t) :
  Db.keys_ok db = true ->
  (snd (get_sighting sighting_id current_user db) = Return s
   <-> In s (sightings db) /\ Sighting.id s = sighting_id
       /\ Sighting.user_id s = User.id current_user)
  /\ fst (get_sighting sighting_id current_user db) = db
  /\ (snd (get_sighting sighting_id current_user db) = Raise not_found
      \/ exists s', snd (get_sighting sighting_id current_user db) = Return s').
Proof.
  intros Hk. apply keys_ok_spec in Hk.
  pose proof (owned_sighting_spec sighting_id current_user db s Hk) as Hspec.
  unfold get_sighting.
  destruct (owned_sighting sighting_id current_user db) as [s'|]; simpl.
  - split; [|split; [reflexivity|right; now exists s']].
    rewrite <- Hspec. split; intros H; inversion H; reflexivity.
  - split; [|split; [reflexivity|now left]].
    rewrite <- Hspec. split; intros H; discriminate H.
Qed.

Lemma get_sighting_returns_owned_witness :
  snd (get_sighting 1 alice sample_store) = Return robin_sighting.
Proof.
  apply (proj1 (get_sighting_returns_owned 1 alice sample_store robin_sighting
                  eq_refl)).
  split; [left; reflexivity|split; reflexivity].
Defined.

(** X6: create_sighting on a store with unique keys returns the row it
    inserted, built from the body, the time and the caller's key, under the
    next sighting key; it appends that row only and leaves the accounts
    alone. Afterwards get_sighting with the new key returns the row to its
    owner and raises 404 for every other account. *)
Theorem created_sighting_can_be_read
    (now : datetime) (body : SightingCreate.t) (current_user other : User.t)
    (db : Store) :
  Db.keys_ok db = true ->
  snd (create_sighting now body current_user db)
  = Return (logged now body current_user db)
  /\ users (fst (create_sighting now body current_user db)) = users db
  /\ sightings (fst (create_sighting now body current_user db))
     = sightings db ++ [logged now body current_user db]
  /\ get_sighting (sightings_id_seq db) current_user
       (fst (create_sighting now body current_user db))
     = (fst (create_sighting now body current_user db),
        Return (logged now body current_user db))
  /\ (User.id other <> User.id current_user ->
      get_sighting (sightings_id_seq db) other
        (fst (create_sighting now body current_user db))
      = (fst (create_sighting now body current_user db), Raise not_found))
  /\ Db.keys_ok (fst (create_sighting now body current_user db)) = true.
Proof.
  intros Hk. apply keys_ok_spec in Hk.
  pose proof (create_sighting_keys now body current_user db Hk) as K'.
  rewrite create_sighting_eq in *. simpl fst in *. simpl snd.
  split; [reflexivity|]. split; [reflexivity|]. split; [reflexivity|].
  assert (Hin : In (logged now body current_user db)
                   (sightings db ++ [logged now body current_user db])).
  { apply in_or_app. right. now left. }
  split; [|split].
  - unfold get_sighting.
    rewrite (proj2 (owned_sighting_spec _ _ _ (logged now body current_user db) K'));
      [reflexivity|].
    split; [exact Hin|split; reflexivity].
  - intros Hne. unfold get_sighting.
    destruct (owned_sighting _ other _) as [s'|] eqn:F; [|reflexivity].
    apply (owned_sighting_spec _ _ _ s' K') in F as [Hs' [E1 E2]].
    assert (s' = logged now body current_user db) as ->.
    { destruct K' as [_ [K2 _]].
      apply (NoDup_map_eq Sighting.id _ _ _ K2 Hs' Hin). exact E1. }
    simpl in E2. congruence.
  - now apply keys_ok_spec.
Qed.

Lemma created_sighting_witness :
  get_sighting 2 alice
    (fst (create_sighting 1700000900%Z
            (SightingCreate.mk (lit "Blue Jay") None None None None None)
            alice sample_store))
  = (fst (create_sighting 1700000900%Z
            (SightingCreate.mk (lit "Blue Jay") None None None None None)
            alice sample_store),
     Return (Sighting.mk 2 (lit "Blue Jay") None 1700000900%Z None None None None 1)).
Proof.
  exact (proj1 (proj2 (proj2 (proj2
    (created_sighting_can_be_read 1700000900%Z
       (SightingCreate.mk (lit "Blue Jay") None None None None None)
       alice bob sample_store eq_refl))))).
Defined.

(** X7: delete_sighting by the owner of a sighting [s], on a store with unique
    keys, returns the confirmation message, removes [s] and no other row,
    and leaves the accounts alone; afterwards get_sighting and a second
    delete_sighting with the same key both raise 404. *)
Theorem owner_delete_removes_sighting
    (s : Sighting.t) (current_user : User.t) (db : Store) :
  Db.keys_ok db = true ->
  In s (sightings db) -> Sighting.user_id s = User.id current_user ->
  snd (delete_sighting (Sighting.id s) current_user db)
  = Return (lit "Sighting removed from your Life List")
  /\ users (fst (delete_sighting (Sighting.id s) current_user db)) = users db
  /\ (forall s', In s' (sightings (fst (delete_sighting (Sighting.id s) current_user db)))
                 <-> In s' (sightings db) /\ s' <> s)
  /\ get_sighting (Sighting.id s) current_user
       (fst (delete_sighting (Sighting.id s) current_user db))
     = (fst (delete_sighting (Sighting.id s) current_user db), Raise not_found)
  /\ snd (delete_sighting (Sighting.id s) current_user
            (fst (delete_sighting (Sighting.id s) current_user db)))
     = Raise not_found.
Proof.
  intros Hk Hin Hown. apply keys_ok_spec in Hk.
  assert (F : owned_sighting (Sighting.id s) current_user db = Some s).
  { apply owned_sighting_spec; auto. }
  assert (E : delete_sighting (Sighting.id s) current_user db
              = (Db.delete_sighting_row s db,
                 Return (lit "Sighting removed from your Life List"))).
  { unfold delete_sighting. now rewrite F. }
  rewrite E. simpl fst. simpl snd.
  pose proof (delete_sighting_row_keys s db Hk) as K'.
  assert (Hrows : forall s', In s' (sightings (Db.delete_sighting_row s db))
                             <-> In s' (sightings db) /\ s' <> s).
  { intros s'. unfold Db.delete_sighting_row. simpl. rewrite filter_In.
    rewrite negb_true_iff, Z.eqb_neq. split; intros [H1 H2]; split; trivial.
    - intros ->. now apply H2.
    - intros Eid. apply H2. destruct Hk as [_ [K2 _]].
      now apply (NoDup_map_eq Sighting.id (sightings db)). }
  assert (G : owned_sighting (Sighting.id s) current_user (Db.delete_sighting_row s db)
              = None).
  { destruct (owned_sighting _ _ (Db.delete_sighting_row s db)) as [s'|] eqn:F';
      [|reflexivity].
    apply (owned_sighting_spec _ _ _ s' K') in F' as [H1 [H2 _]].
    apply Hrows in H1 as [H1 H3]. elim H3. destruct Hk as [_ [K2 _]].
    now apply (NoDup_map_eq Sighting.id (sightings db)). }
  split; [reflexivity|]. split; [reflexivity|]. split; [exact Hrows|].
  unfold get_sighting, delete_sighting. rewrite G. split; reflexivity.
Qed.

Lemma owner_delete_witness :
  sightings (fst (delete_sighting 1 alice sample_store)) = []
  /\ snd (delete_sighting 1 alice sample_store)
     = Return (lit "Sighting removed from your Life List").
Proof.
  pose proof (owner_delete_removes_sighting robin_sighting alice sample_store
                eq_refl (or_introl eq_refl) eq_refl) as [H _].
  split; [reflexivity|exact H].
Defined.

(** X8: get_sightings never changes the store and returns a page of at most
    [limit] rows, each of them a stored sighting of the caller. With no
    offset and a limit that is not below the number of the caller's
    sightings, the page holds every sighting of the caller. *)
Theorem get_sightings_lists_own_only
    (skip limit : nat) (current_user : User.t) (db : Store) :
  exists page,
    get_sightings skip limit current_user db = (db, Return page)
    /\ List.length page <= limit
    /\ (forall s, In s page ->
          In s (sightings db) /\ Sighting.user_id s = User.id current_user)
    /\ (skip = 0 -> List.length (life_list current_user db) <= limit ->
        forall s, In s (sightings db) ->
          Sighting.user_id s = User.id current_user -> In s page).
Proof.
  eexists. split; [reflexivity|]. fold (life_list current_user db).
  split; [apply firstn_le_length|]. split.
  - intros s Hs. apply In_firstn, In_skipn in Hs.
    unfold life_list in Hs. apply filter_In in Hs as [H1 H2].
    apply Z.eqb_eq in H2. now split.
  - intros -> Hlen s Hs Hown. simpl. rewrite firstn_all2 by assumption.
    unfold life_list. apply filter_In. split; [assumption|]. now apply Z.eqb_eq.
Qed.

(** X9: after create_sighting, the caller's listing (no offset, a limit above
    the number of sightings the caller had) holds the new row and exactly
    the caller's earlier sightings besides; the listing of every other
    account is what it was before, for every offset and limit. *)
Theorem created_sighting_is_listed
    (now : datetime) (body : SightingCreate.t) (current_user other : User.t)
    (db : Store) :
  (forall limit, List.length (life_list current_user db) < limit ->
     exists page,
       snd (get_sightings 0 limit current_user
              (fst (create_sighting now body current_user db)))
       = Return page
       /\ forall s, In s page
                    <-> s = logged now body current_user db
                        \/ (In s (sightings db)
                            /\ Sighting.user_id s = User.id current_user))
  /\ (forall skip limit,
        User.id other <> User.id current_user ->
        snd (get_sightings skip limit other
               (fst (create_sighting now body current_user db)))
        = snd (get_sightings skip limit other db)).
Proof.
  rewrite create_sighting_eq. simpl fst. unfold life_list, get_sightings. simpl.
  rewrite !filter_app. simpl. rewrite Z.eqb_refl. split.
  - intros limit Hlen. eexists. split; [reflexivity|]. intros s.
    rewrite firstn_all2 by (rewrite length_app; simpl; lia).
    rewrite in_app_iff, filter_In, Z.eqb_eq. simpl. split.
    + intros [H|[H|[]]]; [now right|now left].
    + intros [H|H]; [right; now left|now left].
  - intros skip limit Hne. apply Z.eqb_neq in Hne. rewrite Z.eqb_sym in Hne.
    rewrite Hne. now rewrite app_nil_r.
Qed.

(** ** The API over sequences of requests *)

Section ApiFacts.

Variable get_password_hash : pystr -> pystr.
Variable verify_password : pystr -> pystr -> bool.
Variable create_access_token : pystr -> datetime -> pystr.
Variable EmailStr : pystr -> option pystr.
Variable runtime : Runtime.t.
Variable generate_content : Genai.Request -> Genai.Response.
Variable BirdIdentificationResponse_init
  : json -> outcome BirdIdentificationResponse.t.

Local Abbreviation serve' :=
  (serve get_password_hash verify_password create_access_token
         EmailStr runtime generate_content BirdIdentificationResponse_init).
Local Abbreviation serve_all' :=
  (serve_all get_password_hash verify_password create_access_token
             EmailStr runtime generate_content BirdIdentificationResponse_init).

(** A property of the store that every handler keeps is kept behind the
    authentication too. *)
Lemma authenticated_keeps {A} (P : Store -> Prop) (credential : option pystr)
    (db : Store) (handler : User.t -> Store * outcome A) :
  P db ->
  (forall cu, get_current_user credential db = Return cu -> P (fst (handler cu))) ->
  P (fst (authenticated credential db handler)).
Proof.
  intros Hdb H. unfold authenticated.
  destruct (get_current_user credential db) as [cu|e] eqn:G; [now apply H|exact Hdb].
Qed.

Lemma register_users_ok (now : datetime) (user : UserCreate.t) (db : Store) :
  Db.users_ok (users db) = true ->
  Db.users_ok (users (fst (register get_password_hash now user db))) = true.
Proof.
  intros H. unfold register.
  destruct (List.find _ (users db)) eqn:F; [exact H|].
  apply register_lookup_none in F. simpl.
  apply users_ok_spec in H as [H1 H2]. apply users_ok_spec.
  rewrite !map_app. simpl. split.
  - apply NoDup_app; [assumption|repeat constructor; intros []|].
    intros x Hx [<-|[]]. apply in_map_iff in Hx as [u [E Hu]].
    simpl in E. destruct (F u Hu) as [F1 F2]. congruence.
  - apply NoDup_app; [assumption|repeat constructor; intros []|].
    intros x Hx [<-|[]]. apply in_map_iff in Hx as [u [E Hu]].
    simpl in E. destruct (F u Hu) as [F1 F2]. congruence.
Qed.

Lemma update_user_profile_users_ok (upd : UserUpdate.t) (cu : User.t) (db : Store) :
  Db.users_ok (users db) = true ->
  Db.users_ok (users (fst (update_user_profile upd cu db))) = true.
Proof.
  intros H. rewrite update_user_profile_eq.
  destruct (Db.users_ok (users (Db.update_user (updated upd cu) db))) eqn:E;
    simpl; assumption.
Qed.

Lemma serve_users_ok (now : datetime) (req : request) (db : Store) :
  Db.users_ok (users db) = true ->
  Db.users_ok (users (fst (serve' now req db))) = true.
Proof.
  intros H. unfold serve.
  destruct req as [|user|username password|c|c user_update|c ct img|c sbody
                   |c skip limit|c sid|c sid]; unfold respond; cbn [fst];
    try (apply (authenticated_keeps (fun d => Db.users_ok (users d) = true));
         [assumption|intros cu _]).
  - exact H.
  - unfold post_auth_register.
    destruct (UserCreate.validate EmailStr user); [|exact H].
    now apply register_users_ok.
  - unfold login. destruct (List.find _ (users db)); [|exact H].
    now destruct (verify_password _ _).
  - exact H.
  - unfold put_users_me.
    destruct (UserUpdate.validate EmailStr user_update); [|exact H].
    now apply update_user_profile_users_ok.
  - exact H.
  - unfold post_sightings. now destruct (SightingCreate.validate _ sbody).
  - exact H.
  - unfold get_sighting. now destruct (owned_sighting _ _ _).
  - unfold delete_sighting. now destruct (owned_sighting _ _ _).
Qed.

Lemma serve_all_users_ok (reqs : list (datetime * request)) (db : Store) :
  Db.users_ok (users db) = true ->
  Db.users_ok (users (serve_all' reqs db)) = true.
Proof.
  revert db. induction reqs as [|[now req] reqs IH]; intros db H; simpl.
  - exact H.
  - apply IH. now apply serve_users_ok.
Qed.

(** X10: from a store where usernames and emails are unique, every sequence of
    API requests leads to a store where they still are: two accounts with
    the same username or the same email are the same row. *)
Theorem usernames_and_emails_stay_unique
    (reqs : list (datetime * request)) (db : Store) :
  Db.users_ok (users db) = true ->
  Db.users_ok (users (serve_all' reqs db)) = true
  /\ forall u v,
       In u (users (serve_all' reqs db)) -> In v (users (serve_all' reqs db)) ->
       User.username u = User.username v \/ User.email u = User.email v ->
       u = v.
Proof.
  intros H. pose proof (serve_all_users_ok reqs db H) as H'.
  split; [exact H'|]. apply users_ok_spec in H' as [H1 H2].
  intros u v Hu Hv [E|E].
  - now apply (NoDup_map_inj User.username (users (serve_all' reqs db))).
  - now apply (NoDup_map_inj User.email (users (serve_all' reqs db))).
Qed.

(** One request changes no sighting it keeps, and the only row it can add
    is the one a POST /sightings builds from its body. *)
Lemma serve_sightings_step (now : datetime) (req : request) (db : Store)
    (s : Sighting.t) :
  In s (sightings (fst (serve' now req db))) ->
  In s (sightings db)
  \/ exists credential body,
       req = POST_sightings credential body /\ records s now body.
Proof.
  unfold serve.
  destruct req as [|user|username password|c|c user_update|c ct img|c sbody
                   |c skip limit|c sid|c sid]; unfold respond; cbn [fst];
    try (apply (authenticated_keeps
           (fun d => In s (sightings d) ->
              In s (sightings db)
              \/ exists credential body,
                   _ = POST_sightings credential body /\ records s now body));
         [now left|intros cu _]);
    try (now left).
  - unfold post_auth_register.
    destruct (UserCreate.validate EmailStr user); [|now left].
    unfold register. destruct (List.find _ (users db)); simpl; now left.
  - unfold login. destruct (List.find _ (users db));
      [destruct (verify_password _ _)|]; now left.
  - unfold put_users_me.
    destruct (UserUpdate.validate EmailStr user_update); [|now left].
    rewrite update_user_profile_eq. destruct (Db.users_ok _); simpl; now left.
  - unfold post_sightings.
    destruct (SightingCreate.validate _ sbody); [|now left].
    rewrite create_sighting_eq. simpl.
    intros Hs. apply in_app_or in Hs as [Hs|[<-|[]]]; [now left|right].
    exists c, sbody. split; [reflexivity|]. repeat split.
  - unfold get_sighting. destruct (owned_sighting _ _ _); now left.
  - unfold delete_sighting. destruct (owned_sighting _ _ _) as [row|];
      [|now left].
    simpl. intros Hs. apply filter_In in Hs as [Hs _]. now left.
Qed.

(** X11: no endpoint edits a sighting. After any sequence of API requests,
    each sighting of the store either was in the starting store, field for
    field, or holds what the body of a POST /sightings of the sequence gave
    and the time that request was served at. *)
Theorem sightings_never_modified
    (reqs : list (datetime * request)) (db : Store) (s : Sighting.t) :
  In s (sightings (serve_all' reqs db)) ->
  In s (sightings db)
  \/ exists now credential body,
       In (now, POST_sightings credential body) reqs /\ records s now body.
Proof.
  revert db. induction reqs as [|[now req] reqs IH]; intros db H; simpl in H.
  - now left.
  - destruct (IH _ H) as [Hin|[now' [c [body [Hreq Hrec]]]]].
    + destruct (serve_sightings_step now req db s Hin)
        as [Hold|[c [body [-> Hrec]]]]; [now left|right].
      exists now, c, body. split; [now left|exact Hrec].
    + right. exists now', c, body. split; [now right|exact Hrec].
Qed.

(** X12: the only request that removes a sighting is DELETE /sightings/{id}
    with that sighting's key, sent with a credential that
    [get_current_user] resolves to its owner. If a stored sighting is gone
    after one request, the request was that one. *)
Theorem only_owner_delete_removes
    (now : datetime) (req : request) (db : Store) (s : Sighting.t) :
  Db.keys_ok db = true ->
  In s (sightings db) -> ~ In s (sightings (fst (serve' now req db))) ->
  exists credential owner,
    req = DELETE_sighting credential (Sighting.id s)
    /\ get_current_user credential db = Return owner
    /\ User.id owner = Sighting.user_id s.
Proof.
  intros Hk Hin Hout. apply keys_ok_spec in Hk. unfold serve in Hout.
  destruct req as [|user|username password|c|c user_update|c ct img|c sbody
                   |c skip limit|c sid|c sid]; unfold respond in Hout;
    cbn [fst] in Hout.
  - contradiction.
  - exfalso. apply Hout. unfold post_auth_register.
    destruct (UserCreate.validate EmailStr user); [|exact Hin].
    unfold register. now destruct (List.find _ (users db)).
  - exfalso. apply Hout. unfold login.
    destruct (List.find _ (users db)); [|exact Hin]. now destruct (verify_password _ _).
  - exfalso. apply Hout.
    now apply (authenticated_keeps (fun d => In s (sightings d))).
  - exfalso. apply Hout.
    apply (authenticated_keeps (fun d => In s (sightings d))); [exact Hin|].
    intros cu _. unfold put_users_me.
    destruct (UserUpdate.validate EmailStr user_update); [|exact Hin].
    rewrite update_user_profile_eq. now destruct (Db.users_ok _).
  - exfalso. apply Hout.
    now apply (authenticated_keeps (fun d => In s (sightings d))).
  - exfalso. apply Hout.
    apply (authenticated_keeps (fun d => In s (sightings d))); [exact Hin|].
    intros cu _. unfold post_sightings.
    destruct (SightingCreate.validate _ sbody); [|exact Hin].
    rewrite create_sighting_eq. simpl. apply in_or_app. now left.
  - exfalso. apply Hout.
    now apply (authenticated_keeps (fun d => In s (sightings d))).
  - exfalso. apply Hout.
    apply (authenticated_keeps (fun d => In s (sightings d))); [exact Hin|].
    intros cu _. unfold get_sighting. now destruct (owned_sighting _ _ _).
  - unfold authenticated in Hout.
    destruct (get_current_user c db) as [cu|e] eqn:G; [|contradiction].
    unfold delete_sighting in Hout.
    destruct (owned_sighting sid cu db) as [row|] eqn:F; [|contradiction].
    apply (owned_sighting_spec _ _ _ _ Hk) in F as [Hrow [E1 E2]].
    simpl in Hout.
    assert (Eid : Sighting.id s = Sighting.id row).
    { destruct (Z.eq_dec (Sighting.id s) (Sighting.id row)) as [E|E]; [exact E|].
      elim Hout. apply filter_In. split; [exact Hin|].
      now apply negb_true_iff, Z.eqb_neq. }
    assert (s = row) as ->.
    { destruct Hk as [_ [K2 _]].
      now apply (NoDup_map_eq Sighting.id (sightings db)). }
    exists c, cu. subst sid. auto.
Qed.

Lemma find_map_update (p : User.t -> bool) (cu row : User.t) (l : list User.t) :
  (forall r, In r l -> User.id r = User.id cu -> r = cu) ->
  User.id row = User.id cu -> p row = true ->
  List.find p l = Some cu ->
  List.find p (List.map (fun r => if (User.id r =? User.id row)%Z then row else r) l)
  = Some row.
Proof.
  intros Huniq Hid Hp. induction l as [|a l IH]; simpl; [discriminate|].
  intros F. destruct (p a) eqn:Pa.
  - inversion F; subst a. rewrite Hid, Z.eqb_refl. now rewrite Hp.
  - destruct (Z.eqb_spec (User.id a) (User.id row)) as [E|E].
    + rewrite Hid in E. rewrite (Huniq a (or_introl eq_refl) E) in Pa.
      apply find_some in F as [_ F]. congruence.
    + rewrite Pa. apply IH; [|exact F]. intros r Hr. apply Huniq. now right.
Qed.

(** X13: when PUT /users/me answers with a profile, GET /users/me with the same
    credential, served next, answers with the same profile: the update is
    stored under the caller's row and the credential still resolves to that
    row, also after a change of email. *)
Theorem profile_update_then_read
    (now now' : datetime) (credential : option pystr) (body0 : UserUpdate.t)
    (db : Store) (r : body) :
  Db.keys_ok db = true ->
  snd (serve' now (PUT_users_me credential body0) db) = Return r ->
  snd (serve' now' (GET_users_me credential)
         (fst (serve' now (PUT_users_me credential body0) db)))
  = Return r.
Proof.
  intros Hk. apply keys_ok_spec in Hk. unfold serve, respond, authenticated. simpl.
  destruct (get_current_user credential db) as [cu|e] eqn:G; [|discriminate].
  unfold put_users_me.
  destruct (UserUpdate.validate EmailStr body0) as [upd|]; [|discriminate].
  rewrite update_user_profile_eq.
  destruct (Db.users_ok _); [|discriminate]. simpl. intros H.
  inversion H; subst r. clear H.
  unfold get_current_user in *.
  destruct credential as [subject|]; [|discriminate].
  destruct (List.find _ (users db)) as [u|] eqn:F; [|discriminate].
  inversion G; subst u. simpl.
  rewrite (find_map_update _ cu (updated upd cu) (users db)); try reflexivity.
  - intros r0 Hr0 E. destruct Hk as [K1 _].
    apply (NoDup_map_eq User.id (users db)); try assumption.
    now apply find_some in F.
  - apply updated_id.
  - destruct (updated_evolves upd cu) as [[_ [Hname _]] _]. rewrite Hname.
    now apply find_some in F.
  - exact F.
Qed.

End ApiFacts.

Lemma usernames_and_emails_witness :
  Db.users_ok
    (users (serve_all sample_hash sample_verify sample_token sample_email sample_runtime
                      (test_double []) sample_init sample_requests sample_store))
  = true.
Proof.
  refine (proj1 (usernames_and_emails_stay_unique sample_hash sample_verify
                   sample_token sample_email sample_runtime (test_double []) sample_init
                   sample_requests sample_store _)).
  reflexivity.
Defined.

Lemma sightings_never_modified_witness :
  In (logged 1700000800%Z
        (SightingCreate.mk (lit "Blue Jay") None None None None None)
        bob sample_store)
     (sightings sample_store)
  \/ exists now credential body,
       In (now, POST_sightings credential body)
          [(1700000800%Z,
            POST_sightings (Some (lit "bob"))
              (SightingCreate.mk (lit "Blue Jay") None None None None None))]
       /\ records (logged 1700000800%Z
                     (SightingCreate.mk (lit "Blue Jay") None None None None None)
                     bob sample_store)
                  now body.
Proof.
  refine (sightings_never_modified sample_hash sample_verify sample_token
            sample_email sample_runtime (test_double []) sample_init
            [(1700000800%Z,
              POST_sightings (Some (lit "bob"))
                (SightingCreate.mk (lit "Blue Jay") None None None None None))]
            sample_store _ _).
  right. left. reflexivity.
Defined.

Lemma only_owner_delete_witness :
  exists credential owner,
    DELETE_sighting (Some (lit "alice")) 1%Z
    = DELETE_sighting credential (Sighting.id robin_sighting)
    /\ get_current_user credential sample_store = Return owner
    /\ User.id owner = Sighting.user_id robin_sighting.
Proof.
  refine (only_owner_delete_removes sample_hash sample_verify sample_token
            sample_email sample_runtime (test_double []) sample_init 1700000800%Z
            (DELETE_sighting (Some (lit "alice")) 1%Z) sample_store
            robin_sighting _ _ _).
  - reflexivity.
  - left. reflexivity.
  - vm_compute. intros H. exact H.
Defined.

Lemma profile_update_then_read_witness :
  snd (serve sample_hash sample_verify sample_token sample_email sample_runtime
             (test_double []) sample_init 1700000900%Z
             (GET_users_me (Some (lit "alice")))
             (fst (serve sample_hash sample_verify sample_token sample_email sample_runtime
                         (test_double []) sample_init 1700000400%Z
                         (PUT_users_me (Some (lit "alice"))
                            (UserUpdate.mk (Some (lit "alice@example.org")) None))
                         sample_store)))
  = Return (UserBody (UserResponse_of
                        (updated (UserUpdate.mk (Some (lit "alice@example.org")) None)
                                 alice))).
Proof.
  refine (profile_update_then_read sample_hash sample_verify sample_token
            sample_email sample_runtime (test_double []) sample_init 1700000400%Z 1700000900%Z
            (Some (lit "alice"))
            (UserUpdate.mk (Some (lit "alice@example.org")) None)
            sample_store _ _ _).
  - reflexivity.
  - reflexivity.
Defined.

(** ** Validation, upload checks and replies of other shapes *)



(** X15: update_user_profile with a non-empty email that another account
    already has: the commit violates the unique constraint on
    [users.email], so the handler ends in IntegrityError, which the
    framework answers with status 500, and no row is changed. *)
Theorem update_to_taken_email_fails
    (user_update : UserUpdate.t) (current_user other : User.t) (db : Store)
    (e : pystr) :
  Db.keys_ok db = true ->
  In current_user (users db) -> In other (users db) ->
  User.id other <> User.id current_user ->
  UserUpdate.email user_update = Some e -> e <> [] -> User.email other = e ->
  update_user_profile user_update current_user db = (db, Raise IntegrityError)
  /\ status_of (snd (update_user_profile user_update current_user db)) = 500%Z.
Proof.
  intros Hk Hcu Hother Hne He Hnonempty Hmail. apply keys_ok_spec in Hk.
  assert (Hemail : User.email (updated user_update current_user) = e).
  { unfold updated. rewrite He. destruct e as [|c e]; [contradiction|].
    simpl. now destruct (UserUpdate.orcid_id user_update). }
  assert (E : Db.users_ok (users (Db.update_user (updated user_update current_user) db))
              = false).
  { apply not_true_iff_false. intros Hok.
    apply users_ok_spec in Hok as [_ Hok].
    destruct (update_user_rows (updated user_update current_user) current_user db
                current_user Hk Hcu (updated_id _ _) Hcu) as [u1 [H1 [E1 _]]].
    destruct (update_user_rows (updated user_update current_user) current_user db
                other Hk Hcu (updated_id _ _) Hother) as [u2 [H2 [_ E2]]].
    rewrite (E1 eq_refl) in H1. rewrite (E2 Hne) in H2.
    apply Hne.
    rewrite <- (NoDup_map_inj User.email _ _ _ Hok H1 H2); [apply updated_id|].
    congruence. }
  rewrite update_user_profile_eq, E. split; reflexivity.
Qed.

Lemma update_to_taken_email_witness :
  update_user_profile (UserUpdate.mk (Some (lit "bob@wesleyan.edu")) None)
                      alice sample_store
  = (sample_store, Raise IntegrityError).
Proof.
  apply (update_to_taken_email_fails
           (UserUpdate.mk (Some (lit "bob@wesleyan.edu")) None) alice bob
           sample_store (lit "bob@wesleyan.edu")).
  - reflexivity.
  - left. reflexivity.
  - right. left. reflexivity.
  - discriminate.
  - reflexivity.
  - discriminate.
  - reflexivity.
Defined.

(** X16: identify_bird_endpoint sends a request to the model only for an
    upload whose declared content type starts with image/. Any other
    declared type is answered with HTTPException 400, Please upload an image
    file, and an upload with no content type ends in an error with status
    500; in both cases nothing is sent. *)
Theorem non_image_upload_sends_nothing
    (runtime : Runtime.t)
    (generate_content : Genai.Request -> Genai.Response)
    (BirdIdentificationResponse_init : json -> outcome BirdIdentificationResponse.t)
    (content_type : option pystr) (image_data : list Byte.byte)
    (current_user : User.t) :
  (fst (identify_bird_endpoint runtime generate_content BirdIdentificationResponse_init
          content_type image_data current_user) <> [] ->
   exists ct, content_type = Some ct /\ startswith ct (lit "image/") = true)
  /\ (forall ct, content_type = Some ct -> startswith ct (lit "image/") = false ->
      identify_bird_endpoint runtime generate_content BirdIdentificationResponse_init
        content_type image_data current_user
      = ([], Raise (HTTPException 400 (lit "Please upload an image file"))))
  /\ (content_type = None ->
      status_of (snd (identify_bird_endpoint runtime generate_content
                        BirdIdentificationResponse_init
                        content_type image_data current_user)) = 500%Z).
Proof.
  unfold identify_bird_endpoint. split; [|split].
  - destruct content_type as [ct|]; [|intros H; now elim H].
    destruct (startswith ct (lit "image/")) eqn:E.
    + intros _. now exists ct.
    + intros H. now elim H.
  - intros ct -> E. now rewrite E.
  - intros ->. reflexivity.
Qed.

(** X17: an exception of [generate_content], or a response with no text, is not
    turned into the parse failure sentinel: the try block of identify_bird
    covers json.loads only. The exception (AttributeError for a missing
    text) leaves identify_bird and, for an image upload, the endpoint. *)
Theorem model_failure_propagates
    (runtime : Runtime.t)
    (generate_content : Genai.Request -> Genai.Response)
    (BirdIdentificationResponse_init : json -> outcome BirdIdentificationResponse.t)
    (content_type : pystr) (image_data : list Byte.byte) (current_user : User.t)
    (e : exn) :
  generate_content (identify_request image_data) = Raise e
  \/ (generate_content (identify_request image_data) = Return None
      /\ e = AttributeError) ->
  startswith content_type (lit "image/") = true ->
  snd (identify_bird runtime generate_content image_data) = Raise e
  /\ snd (identify_bird_endpoint runtime generate_content BirdIdentificationResponse_init
            (Some content_type) image_data current_user) = Raise e.
Proof.
  intros H Hct. unfold identify_bird_endpoint, identify_bird. rewrite Hct. simpl.
  destruct H as [H|[H ->]]; rewrite H; split; reflexivity.
Qed.

Lemma model_failure_witness :
  snd (identify_bird_endpoint sample_runtime (fun _ => Raise APIError) sample_init
         (Some (lit "image/jpeg")) [] alice) = Raise APIError.
Proof.
  apply (model_failure_propagates sample_runtime (fun _ => Raise APIError) sample_init
           (lit "image/jpeg") [] alice APIError).
  - left. reflexivity.
  - reflexivity.
Defined.

(** X18: a reply [t] that decodes to [r], followed by a closing fence of three
    backticks but with no opening fence, with any blanks around, gives [r]:
    the three fence tests of identify_bird are independent, so the closing
    fence is cut off on its own. *)
Theorem closing_fence_alone_is_removed
    (runtime : Runtime.t)
    (generate_content : Genai.Request -> Genai.Response)
    (image_data : list Byte.byte) (t : pystr) (r : json) (ws0 ws2 ws3 : pystr) :
  Json.loads runtime (strip t) = Return r ->
  blank ws0 -> blank ws2 -> blank ws3 ->
  generate_content (identify_request image_data)
  = Return (Some (ws0 ++ t ++ ws2 ++ lit "```" ++ ws3)) ->
  snd (identify_bird runtime generate_content image_data) = Return r.
Proof.
  intros Hr H0 H2 H3 Hg.
  destruct (JsonFacts.loads_first _ _ _ Hr) as [c [m [Ec [Nc _]]]].
  pose proof (strip_head _ _ _ Ec) as Sc.
  destruct (strip_split t) as [wl [wr [Hl [Hwr Et]]]].
  rewrite (identify_bird_text _ _ _ _ Hg). cbn [snd].
  unfold parse_reply.
  assert (Hs : strip (ws0 ++ t ++ ws2 ++ lit "```" ++ ws3)
               = strip t ++ (wr ++ ws2) ++ fence).
  { rewrite Et at 1.
    replace (ws0 ++ (wl ++ strip t ++ wr) ++ ws2 ++ lit "```" ++ ws3)
      with ((ws0 ++ wl) ++ (strip t ++ (wr ++ ws2) ++ fence) ++ ws3)
      by (rewrite lit_fence, <- !app_assoc; reflexivity).
    rewrite strip_blank_both by (try apply blank_app; assumption).
    rewrite Ec. simpl.
    apply (strip_fixed c 96 _ (m ++ (wr ++ ws2) ++ fence)); try reflexivity;
      try assumption.
    exists ((c :: m) ++ (wr ++ ws2) ++ [96; 96]%N).
    unfold fence. rewrite <- !app_assoc. reflexivity. }
  assert (Hf : strip_fences (ws0 ++ t ++ ws2 ++ lit "```" ++ ws3)
               = strip t ++ (wr ++ ws2)).
  { unfold strip_fences. rewrite Hs, lit_fence, lit_fence_json. cbv zeta.
    assert (E1 : startswith (strip t ++ (wr ++ ws2) ++ fence) fence_json = false).
    { rewrite Ec. now apply startswith_cons_ne. }
    assert (E2 : startswith (strip t ++ (wr ++ ws2) ++ fence) fence = false).
    { rewrite Ec. now apply startswith_cons_ne. }
    rewrite E1, E2.
    replace (strip t ++ (wr ++ ws2) ++ fence)
      with ((strip t ++ (wr ++ ws2)) ++ fence) by now rewrite <- !app_assoc.
    rewrite endswith_app. exact (slice_to_minus_app _ fence). }
  rewrite Hf.
  rewrite <- (app_nil_l (strip t ++ wr ++ ws2)).
  rewrite strip_blank_both; [|constructor|now apply blank_app].
  now rewrite strip_idempotent, Hr.
Qed.

Lemma closing_fence_alone_witness :
  snd (identify_bird sample_runtime
         (test_double (reply_text "Blue Jay" "Cyanocitta cristata" "Seen on Foss Hill." "medium" true
                       ++ lit "
```"))
         [])
  = Return (reply_value "Blue Jay" "Cyanocitta cristata" "Seen on Foss Hill." "medium" true).
Proof.
  refine (closing_fence_alone_is_removed sample_runtime _ []
            (reply_text "Blue Jay" "Cyanocitta cristata" "Seen on Foss Hill." "medium" true)
            _ [] [10%N] [] _ _ _ _ _).
  - vm_compute. reflexivity.
  - constructor.
  - repeat constructor.
  - constructor.
  - reflexivity.
Defined.

(** X19: the opening fence is only recognised bare or with the lower-case tag
    json. A reply that opens with three backticks directly followed by
    other text, such as the tag JSON in capitals, keeps that text after the
    slices, json.loads rejects it, and identify_bird returns the parse
    failure sentinel whatever the block holds. *)
Theorem other_language_tag_not_unwrapped
    (runtime : Runtime.t)
    (generate_content : Genai.Request -> Genai.Response)
    (image_data : list Byte.byte) (ws0 : pystr) (c : N) (rest : pystr) :
  blank ws0 ->
  isspace c = false -> value_start c = false -> c <> 96%N ->
  startswith (c :: rest) (lit "json") = false ->
  generate_content (identify_request image_data)
  = Return (Some (ws0 ++ lit "```" ++ c :: rest)) ->
  snd (identify_bird runtime generate_content image_data) = Return parse_failure.
Proof.
  intros H0 Hsp Hv Hbt Hjson Hg.
  rewrite (identify_bird_text _ _ _ _ Hg). cbn [snd].
  unfold parse_reply.
  assert (Hs : strip (ws0 ++ lit "```" ++ c :: rest)
               = 96%N :: 96%N :: 96%N :: c :: rstrip rest).
  { unfold strip. rewrite lstrip_blank_app by assumption.
    rewrite lit_fence. unfold fence.
    change ([96; 96; 96] ++ c :: rest)%N with (96 :: 96 :: 96 :: c :: rest)%N.
    rewrite lstrip_head by reflexivity.
    rewrite !(rstrip_cons 96) by reflexivity.
    now rewrite (rstrip_cons c) by assumption. }
  assert (Hj : startswith (c :: rstrip rest) (lit "json") = false).
  { destruct (startswith (c :: rstrip rest) (lit "json")) eqn:E; [|reflexivity].
    destruct (rstrip_split rest) as [ws [_ Er]].
    pose proof (startswith_app_l (c :: rstrip rest) ws (lit "json") E) as X.
    rewrite <- app_comm_cons, <- Er in X. congruence. }
  assert (Hhead : exists x, strip (strip_fences (ws0 ++ lit "```" ++ c :: rest))
                            = c :: x).
  { unfold strip_fences. rewrite Hs, lit_fence, lit_fence_json. cbv zeta.
    assert (E1 : startswith (96 :: 96 :: 96 :: c :: rstrip rest)%N fence_json = false).
    { unfold fence_json. simpl. simpl in Hj. exact Hj. }
    rewrite E1.
    assert (E2 : startswith (96 :: 96 :: 96 :: c :: rstrip rest)%N fence = true)
      by reflexivity.
    rewrite E2. simpl slice_from.
    destruct (endswith (c :: rstrip rest) fence) eqn:E3.
    - destruct (endswith_split _ _ E3) as [z Ez]. rewrite Ez.
      rewrite (slice_to_minus_app z fence : slice_to_minus 3 (z ++ fence) = z).
      destruct z as [|c' z]; [inversion Ez; congruence|].
      inversion Ez; subst c'. exists (rstrip z). now apply strip_cons.
    - exists (rstrip (rstrip rest)). now apply strip_cons. }
  destruct Hhead as [x ->]. now rewrite loads_not_value_start.
Qed.

Lemma other_language_tag_witness :
  snd (identify_bird sample_runtime
         (test_double (lit "```JSON
" ++ reply_text "Blue Jay" "Cyanocitta cristata" "Seen on Foss Hill." "medium" true
                       ++ lit "
```"))
         [])
  = Return parse_failure.
Proof.
  refine (other_language_tag_not_unwrapped sample_runtime _ [] [] 74%N
            (lit "SON
" ++ reply_text "Blue Jay" "Cyanocitta cristata" "Seen on Foss Hill." "medium" true
                       ++ lit "
```") _ _ _ _ _ _).
  - constructor.
  - reflexivity.
  - reflexivity.
  - discriminate.
  - reflexivity.
  - reflexivity.
Defined.
